(** * RalphWiggumV2 dashboard server: supervision, tailing and fan-out

    A shallow embedding of the dashboard server
    ([dashboard/server/loopController.ts], [fileWatcher.ts],
    [projectConfig.ts] and [index.ts], with the project scanner and the
    document parser of [prdGenerator.ts]) and the properties of it that
    the specification states, followed by further properties of the code.

    Conventions of the model.
    - Text is ASCII: a JavaScript string is a [string] whose characters are
      codes below 128, so a UTF-8 byte and a character coincide and the
      size of a file in bytes is the length of its text.
    - Numbers that the code treats as integers are [Z] or [nat].
    - Time is a count of milliseconds ([nat]); [new Date()] and
      [Date.now()] read the clock of the state.
    - A log entry's [id] (a time stamp joined to [Math.random()]) carries
      nothing the properties use and is left out of [LogEntry].
    - A listener runs to its end before the next event is taken up, the
      [async] ones included: what a listener reads from the file system it
      reads in one piece.
    - A regular expression is embedded as the function that finds its
      leftmost match, written out for the pattern at hand; where a
      quantifier could give back what it has taken, the definition says
      why that changes nothing. *)

From Stdlib Require Import String Ascii ZArith List Lia Bool DecimalString.
From Stdlib Require Import DecimalNat DecimalFacts.
From stdpp Require Import base option list gmap strings.
Import ListNotations.
Local Open Scope string_scope.
#[local] Set Warnings "-abstract-large-number".
#[local] Arguments String.append !s1 s2 : simpl nomatch.

(** ** JavaScript string operations *)

Module Text.

(** White space as [String.prototype.trim] and the regular expression
    class [\s] see it, on ASCII: TAB, LF, VT, FF, CR and SPACE. *)
Definition is_space (c : ascii) : bool :=
  let n := nat_of_ascii c in
  (n =? 9)%nat || (n =? 10)%nat || (n =? 11)%nat || (n =? 12)%nat
  || (n =? 13)%nat || (n =? 32)%nat.

(** Line terminators, which the regular expression [.] does not match. *)
Definition is_line_terminator (c : ascii) : bool :=
  let n := nat_of_ascii c in (n =? 10)%nat || (n =? 13)%nat.

Definition is_digit (c : ascii) : bool :=
  let n := nat_of_ascii c in (48 <=? n)%nat && (n <=? 57)%nat.

Fixpoint trimStart (s : string) : string :=
  match s with
  | EmptyString => EmptyString
  | String c s' => if is_space c then trimStart s' else s
  end.

Fixpoint trimEnd (s : string) : string :=
  match s with
  | EmptyString => EmptyString
  | String c s' =>
      match trimEnd s' with
      | EmptyString => if is_space c then EmptyString else String c EmptyString
      | t => String c t
      end
  end.

Definition trim (s : string) : string := trimEnd (trimStart s).

(** Truthiness of a string: non-empty. *)
Definition truthy (s : string) : bool :=
  match s with EmptyString => false | String _ _ => true end.

(** [s.split(d)] for a one-character separator: never empty, the empty
    text gives one empty piece. *)
Fixpoint split_char (d : ascii) (s : string) : list string :=
  match s with
  | EmptyString => [EmptyString]
  | String c s' =>
      if Ascii.eqb c d then EmptyString :: split_char d s'
      else match split_char d s' with
           | l :: ls => String c l :: ls
           | [] => [String c EmptyString]
           end
  end.

(** [s.split('\n')] *)
Definition split_nl (s : string) : list string := split_char "010"%char s.

(** The lines a chunk of text yields:
    [text.split('\n').filter((line) => line.trim())]. *)
Definition chunk_lines (text : string) : list string :=
  filter (fun l => truthy (trim l) = true) (split_nl text).

Fixpoint drop (n : nat) (s : string) : string :=
  match n, s with
  | S n', String _ s' => drop n' s'
  | _, _ => s
  end.

Fixpoint join (sep : string) (l : list string) : string :=
  match l with
  | [] => EmptyString
  | [x] => x
  | x :: rest => x ++ sep ++ join sep rest
  end.

(** [hay.includes(needle)] *)
Fixpoint includes (needle hay : string) : bool :=
  String.prefix needle hay
  || match hay with
     | EmptyString => false
     | String _ hay' => includes needle hay'
     end.

Definition lower_char (c : ascii) : ascii :=
  let n := nat_of_ascii c in
  if (65 <=? n)%nat && (n <=? 90)%nat then ascii_of_nat (n + 32) else c.

Fixpoint toLowerCase (s : string) : string :=
  match s with
  | EmptyString => EmptyString
  | String c s' => String (lower_char c) (toLowerCase s')
  end.

(** [n.toString()] for an integer. *)
Definition nat_toString (n : nat) : string :=
  NilZero.string_of_uint (Nat.to_uint n).

Definition Z_toString (z : Z) : string :=
  NilZero.string_of_int (Z.to_int z).

(** [parseInt(ds, 10)] on a run of decimal digits. *)
Fixpoint parse_digits (acc : Z) (ds : string) : Z :=
  match ds with
  | EmptyString => acc
  | String c ds' =>
      parse_digits (10 * acc + Z.of_nat (nat_of_ascii c - 48)) ds'
  end.

(** The longest prefix of characters satisfying [p], and the rest. *)
Fixpoint span (p : ascii -> bool) (s : string) : string * string :=
  match s with
  | EmptyString => (EmptyString, EmptyString)
  | String c s' =>
      if p c then let '(a, b) := span p s' in (String c a, b)
      else (EmptyString, s)
  end.

(** [buffer] bytes [[from, from + len)] of a text. *)
Definition slice (from len : nat) (s : string) : string :=
  String.substring from len s.

End Text.


(** ** The shared types ([dashboard/src/types/index.ts]) *)

Definition NL : string := String "010"%char EmptyString.

Inductive LoopMode := ModePlan | ModePlanSlc | ModePlanWork | ModeBuild.

(** The mode as the string the protocol and the command line carry. *)
Definition mode_name (m : LoopMode) : string :=
  match m with
  | ModePlan => "plan"
  | ModePlanSlc => "plan-slc"
  | ModePlanWork => "plan-work"
  | ModeBuild => "build"
  end.

Module LoopStatus.
Record t := mk {
  running : bool;
  mode : option LoopMode;
  iteration : Z;
  maxIterations : Z;
  workScope : option string;
  startedAt : option nat;
  pid : option nat
}.
End LoopStatus.

Inductive LogType := info | error | warning | success.

Module LogEntry.
Record t := mk { timestamp : nat; content : string; type : LogType }.
End LogEntry.

Module Task.
Record t := mk { id : string; content : string; completed : bool }.
End Task.

Module TasksState.
Record t := mk {
  tasks : list Task.t;
  completed : nat;
  total : nat;
  lastUpdated : option nat
}.
End TasksState.

Module GitCommit.
Record t := mk { hash : string; message : string; author : string; date : nat }.
End GitCommit.

Module GitStatus.
Record t := mk {
  branch : string;
  uncommittedCount : nat;
  commits : list GitCommit.t;
  lastUpdated : option nat;
  remoteUrl : option string;
  repoName : option string
}.
End GitStatus.

(** ** The file watcher ([dashboard/server/fileWatcher.ts]) *)

Module FileWatcher.

(** What the watcher hands to its listeners: [this.emit(name, value)]. *)
Inductive Emit :=
| EmitTasks (s : TasksState.t)
| EmitLog (e : LogEntry.t)
| EmitGit (g : GitStatus.t).

Record t := mk {
  tasks : TasksState.t;
  gitStatus : GitStatus.t;
  lastLogPosition : nat
}.

(** The fields as the class initialises them. *)
Definition init : t :=
  {| tasks := TasksState.mk [] 0 0 None;
     gitStatus := GitStatus.mk "main" 0 [] None None None;
     lastLogPosition := 0 |}.

Definition getTasks (w : t) : TasksState.t := tasks w.
Definition getGitStatus (w : t) : GitStatus.t := gitStatus w.

(** [.+$] from the current position: at least one character, none of
    them a line terminator, up to the end of the line. *)
Fixpoint all_dot (s : string) : bool :=
  match s with
  | EmptyString => true
  | String c s' => negb (Text.is_line_terminator c) && all_dot s'
  end.

Definition dot_plus_end (s : string) : option string :=
  if Text.truthy s && all_dot s then Some s else None.

(** [\s*(.+)$]: the greedy [\s*] takes white space as long as the rest can
    still match, and gives characters back one at a time otherwise. The
    result is the text of the group. *)
Fixpoint ws_then_text (s : string) : option string :=
  match s with
  | EmptyString => None
  | String c s' =>
      if Text.is_space c then
        match ws_then_text s' with
        | Some g => Some g
        | None => dot_plus_end s
        end
      else dot_plus_end s
  end.

(** The character class [[ xX]]. *)
Definition is_box_char (c : ascii) : bool :=
  (nat_of_ascii c =? 32)%nat || (nat_of_ascii c =? 120)%nat
  || (nat_of_ascii c =? 88)%nat.

(** [line.match(/^-\s*\[([ xX])\]\s*(.+)$/)]: the two groups. *)
Definition match_checkbox (line : string) : option (ascii * string) :=
  match line with
  | String "-"%char r =>
      match Text.trimStart r with
      | String "["%char (String c (String "]"%char rest)) =>
          if is_box_char c then
            match ws_then_text rest with
            | Some g => Some (c, g)
            | None => None
            end
          else None
      | _ => None
      end
  | _ => None
  end.

(** The body of [lines.forEach((line, index) => ...)], from index [i]. *)
Fixpoint collect_tasks (i : nat) (lines : list string) : list Task.t :=
  match lines with
  | [] => []
  | line :: rest =>
      match match_checkbox line with
      | Some (c, g) =>
          Task.mk ("task-" ++ Text.nat_toString i) (Text.trim g)
                  (String.eqb (Text.toLowerCase (String c EmptyString)) "x")
          :: collect_tasks (S i) rest
      | None => collect_tasks (S i) rest
      end
  end.

(** [parseTasks]: [file] is what [fs.readFile] finds at the plan's path,
    [None] when the read fails. *)
Definition parseTasks (file : option string) (now : nat) (w : t)
  : t * list Emit :=
  match file with
  | None => (w, [])
  | Some content =>
      let ts := collect_tasks 0 (Text.split_nl content) in
      let completed := length (filter (fun x => Task.completed x = true) ts) in
      let st := TasksState.mk ts completed (length ts) (Some now) in
      (mk st (gitStatus w) (lastLogPosition w), [EmitTasks st])
  end.

Definition classifyLogLine (line : string) : LogType :=
  let lower := Text.toLowerCase line in
  if Text.includes "error" lower || Text.includes "fail" lower
     || Text.includes "exception" lower then error
  else if Text.includes "warning" lower || Text.includes "warn" lower
  then warning
  else if Text.includes "success" lower || Text.includes "complete" lower
          || Text.includes "pass" lower then success
  else info.

Definition log_entry (now : nat) (line : string) : LogEntry.t :=
  LogEntry.mk now line (classifyLogLine line).

(** One event per line: the body of [lines.forEach((line) => ...)]. *)
Definition entries (now : nat) (lines : list string) : list Emit :=
  map (fun l => EmitLog (log_entry now l)) lines.

(** [tailLog]: [file] is the log as [fs.stat] and the read find it, [None]
    when [fs.stat] fails. *)
Definition tailLog (file : option string) (now : nat) (w : t)
  : t * list Emit :=
  match file with
  | None => (mk (tasks w) (gitStatus w) 0, [])
  | Some content =>
      let size := String.length content in
      if (lastLogPosition w <? size)%nat then
        let newContent :=
          Text.slice (lastLogPosition w) (size - lastLogPosition w) content in
        (mk (tasks w) (gitStatus w) size,
         entries now (Text.chunk_lines newContent))
      else (w, [])
  end.

(** [updateGitStatus]: the queries to git and the assembly of the record
    happen outside the model; [result] is the assembled status, [None]
    when a query throws. *)
Definition updateGitStatus (result : option GitStatus.t) (w : t)
  : t * list Emit :=
  match result with
  | None => (w, [])
  | Some g => (mk (tasks w) g (lastLogPosition w), [EmitGit g])
  end.

End FileWatcher.


(** ** Paths ([path], POSIX flavour) and the file system *)

Module Path.

Definition isAbsolute (p : string) : bool := String.prefix "/" p.

Definition ends_with_slash (p : string) : bool :=
  match Text.split_char "/"%char p with
  | [] => false
  | l => Text.truthy p && negb (Text.truthy (List.last l "x"))
  end.

(** [normalizeString]: the segments between slashes, read left to right
    onto a stack kept in reverse; empty segments and [.] are dropped, [..]
    removes the segment before it, and is kept (when the path is relative)
    where there is none to remove. *)
Fixpoint normalize_segments (allowAboveRoot : bool) (segs rev_out : list string)
  : list string :=
  match segs with
  | [] => rev rev_out
  | seg :: rest =>
      if String.eqb seg "" || String.eqb seg "." then
        normalize_segments allowAboveRoot rest rev_out
      else if String.eqb seg ".." then
        match rev_out with
        | top :: below =>
            if String.eqb top ".." then
              normalize_segments allowAboveRoot rest
                (if allowAboveRoot then ".." :: rev_out else rev_out)
            else normalize_segments allowAboveRoot rest below
        | [] =>
            normalize_segments allowAboveRoot rest
              (if allowAboveRoot then [".."] else [])
        end
      else normalize_segments allowAboveRoot rest (seg :: rev_out)
  end.

Definition normalize (p : string) : string :=
  if negb (Text.truthy p) then "."
  else
    let abs := isAbsolute p in
    let trailing := ends_with_slash p in
    let body :=
      Text.join "/" (normalize_segments (negb abs) (Text.split_char "/"%char p) []) in
    if negb (Text.truthy body) then
      if abs then "/" else if trailing then "./" else "."
    else
      let body := if trailing then body ++ "/" else body in
      if abs then "/" ++ body else body.

(** [path.join(a, b)] *)
Definition join (a b : string) : string :=
  match Text.truthy a, Text.truthy b with
  | false, false => "."
  | true, false => normalize a
  | false, true => normalize b
  | true, true => normalize (a ++ "/" ++ b)
  end.

Definition not_slash (c : ascii) : bool := negb (Ascii.eqb c "/"%char).
Definition is_slash (c : ascii) : bool := Ascii.eqb c "/"%char.

Fixpoint rev_string (s acc : string) : string :=
  match s with
  | EmptyString => acc
  | String c s' => rev_string s' (String c acc)
  end.

(** [path.dirname(p)]: scanning from the end and never looking at the first
    character, skip the trailing slashes and the last segment; what stands
    before the slash found there is the result. *)
Definition dirname (p : string) : string :=
  match p with
  | EmptyString => "."
  | String c0 rest =>
      let r := rev_string rest "" in
      let r := snd (Text.span is_slash r) in
      let r := snd (Text.span not_slash r) in
      match r with
      | EmptyString => if is_slash c0 then "/" else "."
      | String _ before =>
          if is_slash c0 && negb (Text.truthy before) then "//"
          else String c0 (rev_string before "")
      end
  end.

End Path.

Module Fs.

(** Files with their text, and the directories that exist. *)
Record t := mk { files : gmap string string; dirs : gset string }.

(** [fs.readFile(p, 'utf-8')]; [None] is a rejected promise. *)
Definition readFile (p : string) (fs : t) : option string := files fs !! p.

(** [fs.access(p)] resolves. *)
Definition access (p : string) (fs : t) : bool :=
  bool_decide (is_Some (files fs !! p)) || bool_decide (p ∈ dirs fs).

(** [(await fs.stat(p)).isDirectory()], [false] also when [fs.stat] fails. *)
Definition isDirectory (p : string) (fs : t) : bool := bool_decide (p ∈ dirs fs).

(** A directory and the directories above it, nearest first. *)
Fixpoint ancestors (fuel : nat) (d : string) : list string :=
  match fuel with
  | O => [d]
  | S fuel' =>
      let up := Path.dirname d in
      if String.eqb up d then [d] else d :: ancestors fuel' up
  end.

(** [fs.mkdir(d, { recursive: true })]: rejected when [d] or a directory
    above it is a file. *)
Definition mkdir_p (d : string) (fs : t) : option t :=
  let ds := ancestors (String.length d) d in
  if forallb (fun a => bool_decide (files fs !! a = None)) ds
  then Some (mk (files fs) (list_to_set ds ∪ dirs fs))
  else None.

(** [fs.writeFile(p, content, 'utf-8')]: rejected when [p] is a directory or
    the directory it lies in does not exist. *)
Definition writeFile (p content : string) (fs : t) : option t :=
  if bool_decide (p ∈ dirs fs) || negb (bool_decide (Path.dirname p ∈ dirs fs))
     || Path.ends_with_slash p
  then None
  else Some (mk (<[p := content]> (files fs)) (dirs fs)).

End Fs.

(** ** The loop controller ([dashboard/server/loopController.ts]) *)

Module LoopController.

Inductive Signal := SIGINT | SIGKILL.

(** A [ChildProcess] object, named by the order of creation. *)
Definition Handle := nat.

(** What a method does besides changing the fields: events handed to the
    listeners, and calls into the runtime. *)
Inductive Effect :=
| EmitLog (e : LogEntry.t)
| EmitStatus (s : LoopStatus.t)
| Spawn (h : Handle) (command : string) (args : list string)
        (cwd : string) (env : list (string * string))
| Kill (h : Handle) (sig : Signal)
| SetTimeout (delay : nat).

Record t := mk {
  projectPath : string;
  process : option Handle;
  status : LoopStatus.t;
  (** how many child processes have been created: the next handle *)
  spawned : nat
}.

Definition create (projectPath : string) : t :=
  {| projectPath := projectPath;
     process := None;
     status := LoopStatus.mk false None 0 0 None None None;
     spawned := 0 |}.

(** [getStatus] returns a copy of the record. *)
Definition getStatus (c : t) : LoopStatus.t := status c.

Record Options := mkOptions {
  mode : LoopMode;
  maxIterations : option Z;
  workScope : option string
}.

Definition emitLog (now : nat) (content : string) (type : LogType) : Effect :=
  EmitLog (LogEntry.mk now content type).

(** Truthiness of [maxIterations] and of [workScope]. *)
Definition truthy_number (n : option Z) : bool :=
  match n with Some z => negb (z =? 0)%Z | None => false end.

Definition truthy_text (s : option string) : bool :=
  match s with Some x => Text.truthy x | None => false end.

(** The arguments after the script's path: the [switch (mode)]. *)
Definition build_args (o : Options) : list string :=
  let limit :=
    match maxIterations o with
    | Some n => if truthy_number (Some n) then [Text.Z_toString n] else []
    | None => []
    end in
  match mode o with
  | ModePlan => "plan" :: limit
  | ModePlanSlc => "plan-slc" :: limit
  | ModePlanWork =>
      "plan-work" ::
      match workScope o with
      | Some w => if Text.truthy w then [w] else []
      | None => []
      end
  | ModeBuild => limit
  end.

(** [{ ...process.env, WORK_SCOPE: workScope || '' }]: what is laid over
    the server's own environment. *)
Definition env_overlay (o : Options) : list (string * string) :=
  [("WORK_SCOPE",
    match workScope o with
    | Some w => if Text.truthy w then w else ""
    | None => ""
    end)].

Definition start_message (o : Options) : string :=
  "Starting loop: " ++ mode_name (mode o) ++
  match maxIterations o with
  | Some n =>
      if truthy_number (Some n)
      then " (max " ++ Text.Z_toString n ++ " iterations)" else ""
  | None => ""
  end.

(** [start(options)]; [ospid] is the [pid] the new [ChildProcess] shows
    ([None] for [undefined], when the process could not be created). *)
Definition start (o : Options) (ospid : option nat) (now : nat) (c : t)
  : t * list Effect :=
  match process c with
  | Some _ => (c, [emitLog now "Loop already running" warning])
  | None =>
      let loopScript := Path.join (projectPath c) "loop.sh" in
      let h := spawned c in
      let st :=
        LoopStatus.mk true (Some (mode o)) 0
          (match maxIterations o with
           | Some n => if truthy_number (Some n) then n else 0%Z
           | None => 0%Z
           end)
          (workScope o) (Some now) ospid in
      (mk (projectPath c) (Some h) st (S (spawned c)),
       [emitLog now (start_message o) info;
        Spawn h "bash" (loopScript :: build_args o) (projectPath c) (env_overlay o);
        EmitStatus st])
  end.

(** [/LOOP\s+(\d+)/i] tried at the start of [s]: the value of the digits. *)
Definition marker_here (s : string) : option Z :=
  if String.eqb (Text.toLowerCase (String.substring 0 4 s)) "loop" then
    let '(ws, r) := Text.span Text.is_space (Text.drop 4 s) in
    let '(ds, _) := Text.span Text.is_digit r in
    if Text.truthy ws && Text.truthy ds then Some (Text.parse_digits 0 ds)
    else None
  else None.

(** [parseInt(line.match(/LOOP\s+(\d+)/i)[1], 10)]: the leftmost match. *)
Fixpoint iterMatch (line : string) : option Z :=
  match marker_here line with
  | Some n => Some n
  | None =>
      match line with
      | EmptyString => None
      | String _ line' => iterMatch line'
      end
  end.

Definition set_iteration (n : Z) (s : LoopStatus.t) : LoopStatus.t :=
  LoopStatus.mk (LoopStatus.running s) (LoopStatus.mode s) n
    (LoopStatus.maxIterations s) (LoopStatus.workScope s)
    (LoopStatus.startedAt s) (LoopStatus.pid s).

(** [{ ...this.status, running: false, pid: undefined }] *)
Definition stopped (s : LoopStatus.t) : LoopStatus.t :=
  LoopStatus.mk false (LoopStatus.mode s) (LoopStatus.iteration s)
    (LoopStatus.maxIterations s) (LoopStatus.workScope s)
    (LoopStatus.startedAt s) None.

(** One line of standard output. *)
Definition stdout_line (now : nat) (line : string) (c : t) : t * list Effect :=
  match iterMatch line with
  | Some n =>
      let st := set_iteration n (status c) in
      (mk (projectPath c) (process c) st (spawned c),
       [EmitStatus st; emitLog now line info])
  | None => (c, [emitLog now line info])
  end.

Fixpoint stdout_lines (now : nat) (lines : list string) (c : t)
  : t * list Effect :=
  match lines with
  | [] => (c, [])
  | l :: rest =>
      let '(c1, e1) := stdout_line now l c in
      let '(c2, e2) := stdout_lines now rest c1 in
      (c2, (e1 ++ e2)%list)
  end.

(** The listener of [stdout]'s [data]. *)
Definition onStdout (data : string) (now : nat) (c : t) : t * list Effect :=
  stdout_lines now (Text.chunk_lines data) c.

(** The listener of [stderr]'s [data]. *)
Definition onStderr (data : string) (now : nat) (c : t) : t * list Effect :=
  (c, map (fun l => emitLog now l error) (Text.chunk_lines data)).

(** [`${code}`] for an exit code, [null] when a signal ended the process. *)
Definition code_text (code : option Z) : string :=
  match code with Some z => Text.Z_toString z | None => "null" end.

(** The listener of the process's [close]. *)
Definition onClose (code : option Z) (now : nat) (c : t) : t * list Effect :=
  let st := stopped (status c) in
  (mk (projectPath c) None st (spawned c),
   [emitLog now ("Loop exited with code " ++ code_text code)
      (match code with Some 0%Z => success | _ => error end);
    EmitStatus st]).

(** The listener of the process's [error]. *)
Definition onError (message : string) (now : nat) (c : t) : t * list Effect :=
  let st := stopped (status c) in
  (mk (projectPath c) None st (spawned c),
   [emitLog now ("Loop error: " ++ message) error; EmitStatus st]).

(** The grace period of [stop], in milliseconds. *)
Definition GRACE : nat := 5000.

(** [stop()] *)
Definition stop (now : nat) (c : t) : t * list Effect :=
  match process c with
  | None => (c, [emitLog now "No loop running" warning])
  | Some h =>
      (c, [emitLog now "Stopping loop..." info; Kill h SIGINT; SetTimeout GRACE])
  end.

(** The function [stop] hands to [setTimeout], run when the timer fires. *)
Definition onGraceTimeout (now : nat) (c : t) : t * list Effect :=
  match process c with
  | Some h => (c, [emitLog now "Force killing loop..." warning; Kill h SIGKILL])
  | None => (c, [])
  end.

(** Handle and status in step: a handle is held exactly when the status
    says running. *)
Definition consistent (c : t) : Prop :=
  is_Some (process c) <-> LoopStatus.running (status c) = true.

End LoopController.

(** ** The configuration store ([dashboard/server/projectConfig.ts]) *)

Module ProjectConfig.
Record t := mk {
  projectPath : string;
  hasAgentsMd : bool;
  hasClaudeMd : bool;
  hasImplementationPlan : bool;
  hasSpecs : bool;
  hasCursorRules : bool;
  hasLoopSh : bool;
  enabledAgents : list string
}.
End ProjectConfig.

(** What an [async] method's promise settles to. *)
Inductive Failure :=
| InvalidFilename   (** [new Error('Invalid filename')] *)
| FsFailure.        (** a rejection that comes from [fs] *)

Inductive Result (A : Type) :=
| Resolved (a : A)
| Rejected (e : Failure).
Arguments Resolved {A} a.
Arguments Rejected {A} e.

Module ProjectConfigManager.

Definition ALL_AGENT_IDS : list string :=
  ["react-typescript-expert"; "accessibility-expert"; "qol-ux-expert"].

Record t := mk {
  projectPath : string;
  config : ProjectConfig.t;
  enabledAgents : list string
}.

(** The fields as the constructor sets them, before its [refresh]. *)
Definition create (projectPath : string) : t :=
  {| projectPath := projectPath;
     config := ProjectConfig.mk projectPath false false false false false false
                 ALL_AGENT_IDS;
     enabledAgents := ALL_AGENT_IDS |}.

Definition getConfig (m : t) : ProjectConfig.t := config m.

(** The guard of [readFile] and [writeFile]. *)
Definition invalid (filename : string) : bool :=
  Text.includes ".." filename || Path.isAbsolute filename.

Definition readFile (filename : string) (fs : Fs.t) (m : t) : Result string :=
  if invalid filename then Rejected InvalidFilename
  else
    match Fs.readFile (Path.join (projectPath m) filename) fs with
    | Some content => Resolved content
    | None => Rejected FsFailure
    end.

Definition fileExists (filename : string) (fs : Fs.t) (m : t) : bool :=
  Fs.access (Path.join (projectPath m) filename) fs.

Definition dirExists (dirname : string) (fs : Fs.t) (m : t) : bool :=
  Fs.isDirectory (Path.join (projectPath m) dirname) fs.

(** The text after the first occurrence of [needle]. *)
Fixpoint after_first (needle hay : string) : option string :=
  if String.prefix needle hay
  then Some (Text.drop (String.length needle) hay)
  else match hay with
       | EmptyString => None
       | String _ hay' => after_first needle hay'
       end.

(** [content.replace(/<!-- DISABLED: id[\s\S]*?-->/g, '')], [opening] being
    the text up to the id: each opening is cut out together with what
    follows it up to the nearest [-->]. *)
Fixpoint strip_disabled (fuel : nat) (opening s : string) : string :=
  match fuel with
  | O => s
  | S fuel' =>
      match s with
      | EmptyString => EmptyString
      | String c s' =>
          if String.prefix opening s then
            match after_first "-->" (Text.drop (String.length opening) s) with
            | Some rest => strip_disabled fuel' opening rest
            | None => String c (strip_disabled fuel' opening s')
            end
          else String c (strip_disabled fuel' opening s')
      end
  end.

Definition agent_enabled (content agentId : string) : bool :=
  let contentWithoutDisabled :=
    strip_disabled (S (String.length content))
      ("<!-- DISABLED: " ++ agentId) content in
  Text.includes ("`" ++ agentId ++ "`") contentWithoutDisabled.

Definition parseEnabledAgents (fs : Fs.t) (m : t) : list string :=
  match readFile "CLAUDE.md" fs m with
  | Resolved content =>
      filter (fun a => agent_enabled content a = true) ALL_AGENT_IDS
  | Rejected _ => ALL_AGENT_IDS
  end.

Definition refresh (fs : Fs.t) (m : t) : t :=
  let agents := parseEnabledAgents fs m in
  {| projectPath := projectPath m;
     config :=
       ProjectConfig.mk (projectPath m)
         (fileExists "AGENTS.md" fs m) (fileExists "CLAUDE.md" fs m)
         (fileExists "IMPLEMENTATION_PLAN.md" fs m) (dirExists "specs" fs m)
         (dirExists ".cursor/rules" fs m) (fileExists "loop.sh" fs m) agents;
     enabledAgents := agents |}.

(** [writeFile]: the promise's outcome, the file system and the manager
    afterwards. *)
Definition writeFile (filename content : string) (fs : Fs.t) (m : t)
  : Result unit * Fs.t * t :=
  if invalid filename then (Rejected InvalidFilename, fs, m)
  else
    let filePath := Path.join (projectPath m) filename in
    match Fs.mkdir_p (Path.dirname filePath) fs with
    | None => (Rejected FsFailure, fs, m)
    | Some fs1 =>
        match Fs.writeFile filePath content fs1 with
        | None => (Rejected FsFailure, fs1, m)
        | Some fs2 => (Resolved tt, fs2, refresh fs2 m)
        end
    end.

End ProjectConfigManager.

(** ** The hub ([dashboard/server/index.ts]) *)

Module Server.

(** [WebSocket.readyState] *)
Inductive ReadyState := CONNECTING | OPEN | CLOSING | CLOSED.

Definition is_open (r : ReadyState) : bool :=
  match r with OPEN => true | _ => false end.

(** A socket of the server, named by the order of acceptance. *)
Record Client := mkClient { ws : nat; readyState : ReadyState }.

(** Messages to an observer, by their [type]. *)
Inductive Message :=
| LoopStatusMsg (s : LoopStatus.t)                (** ['loop:status'] *)
| LoopLogMsg (e : LogEntry.t)                     (** ['loop:log'] *)
| TasksUpdateMsg (s : TasksState.t)               (** ['tasks:update'] *)
| GitUpdateMsg (g : GitStatus.t)                  (** ['git:update'] *)
| ConfigUpdateMsg (c : ProjectConfig.t)           (** ['config:update'] *)
| ConfigContentMsg (file content : string)        (** ['config:content'] *)
| ConfigSavedMsg (file : string).                 (** ['config:saved'] *)

(** Messages from an observer that concern the supervised process and the
    named documents; the other types go to collaborators outside this
    development. *)
Inductive Command :=
| LoopStart (o : LoopController.Options)          (** ['loop:start'] *)
| LoopStop                                        (** ['loop:stop'] *)
| ConfigRead (file : string)                      (** ['config:read'] *)
| ConfigWrite (file content : string).            (** ['config:write'] *)

(** The request/response surface. *)
Inductive Request :=
| GetStatus                                       (** [GET /api/status] *)
| GetConfig (file : string)                       (** [GET /api/config/:file] *)
| PostConfig (file content : string)              (** [POST /api/config/:file] *)
| PostLoopStart (o : LoopController.Options)      (** [POST /api/loop/start] *)
| PostLoopStop.                                   (** [POST /api/loop/stop] *)

Inductive Body :=
| StatusBody (loop : LoopStatus.t) (tasks : TasksState.t)
             (git : GitStatus.t) (config : ProjectConfig.t)
| ContentBody (content : string)
| SuccessBody                                     (** [{ success: true }] *)
| ErrorBody (error : string).

(** What the server does that the outside can see. *)
Inductive Output :=
| Send (ws : nat) (m : Message)       (** [ws.send(JSON.stringify(m))] *)
| Respond (code : nat) (b : Body)     (** [res.status(code).json(b)] *)
| SpawnChild (h : LoopController.Handle) (command : string)
             (args : list string) (cwd : string) (env : list (string * string))
| KillChild (h : LoopController.Handle) (sig : LoopController.Signal)
| Console (text : string).

Record t := mk {
  (** the clock, in milliseconds *)
  now : nat;
  (** the process id the operating system gives to each child *)
  os : LoopController.Handle -> option nat;
  fs : Fs.t;
  projectConfig : ProjectConfigManager.t;
  fileWatcher : FileWatcher.t;
  loopController : LoopController.t;
  (** the [Set] of sockets, in insertion order *)
  clients : list Client;
  (** deadlines of the armed grace timers, in the order of arming *)
  timers : list nat;
  (** how many sockets have been accepted: the next socket *)
  accepted : nat
}.

Definition set_loopController (c : LoopController.t) (s : t) : t :=
  mk (now s) (os s) (fs s) (projectConfig s) (fileWatcher s) c
     (clients s) (timers s) (accepted s).

Definition set_fileWatcher (w : FileWatcher.t) (s : t) : t :=
  mk (now s) (os s) (fs s) (projectConfig s) w (loopController s)
     (clients s) (timers s) (accepted s).

Definition set_clients (cs : list Client) (s : t) : t :=
  mk (now s) (os s) (fs s) (projectConfig s) (fileWatcher s) (loopController s)
     cs (timers s) (accepted s).

Definition set_timers (ts : list nat) (s : t) : t :=
  mk (now s) (os s) (fs s) (projectConfig s) (fileWatcher s) (loopController s)
     (clients s) ts (accepted s).

Definition set_now (n : nat) (s : t) : t :=
  mk n (os s) (fs s) (projectConfig s) (fileWatcher s) (loopController s)
     (clients s) (timers s) (accepted s).

Definition set_store (f : Fs.t) (m : ProjectConfigManager.t) (s : t) : t :=
  mk (now s) (os s) f m (fileWatcher s) (loopController s)
     (clients s) (timers s) (accepted s).

(** The services as the module creates them, over the file system found
    at start; the [refresh] the configuration manager's constructor starts
    is taken to have settled before the first event. *)
Definition init (PROJECT_PATH : string) (os : nat -> option nat) (fs : Fs.t) : t :=
  {| now := 0;
     os := os;
     fs := fs;
     projectConfig :=
       ProjectConfigManager.refresh fs (ProjectConfigManager.create PROJECT_PATH);
     fileWatcher := FileWatcher.init;
     loopController := LoopController.create PROJECT_PATH;
     clients := [];
     timers := [];
     accepted := 0 |}.

(** [broadcast(message)]: one [send] per socket of the set that is [OPEN],
    in the set's order; the set itself is not touched. *)
Definition broadcast (m : Message) (cs : list Client) : list Output :=
  map (fun c => Send (ws c) m) (filter (fun c => is_open (readyState c) = true) cs).

(** [clients.add(ws)] and [clients.delete(ws)] *)
Definition clients_add (c : Client) (cs : list Client) : list Client :=
  if existsb (fun x => (ws x =? ws c)%nat) cs then cs else (cs ++ [c])%list.

Definition clients_delete (w : nat) (cs : list Client) : list Client :=
  filter (fun x => ws x ≠ w) cs.

(** The listeners on the file watcher's events. *)
Definition on_watcher_emit (cs : list Client) (e : FileWatcher.Emit) : list Output :=
  match e with
  | FileWatcher.EmitTasks ts => broadcast (TasksUpdateMsg ts) cs
  | FileWatcher.EmitLog entry => broadcast (LoopLogMsg entry) cs
  | FileWatcher.EmitGit g => broadcast (GitUpdateMsg g) cs
  end.

(** The listeners on the loop controller's events, and the runtime's side
    of its calls; an armed timer joins the state. *)
Definition on_controller_effect (s : t) (e : LoopController.Effect)
  : t * list Output :=
  match e with
  | LoopController.EmitLog entry => (s, broadcast (LoopLogMsg entry) (clients s))
  | LoopController.EmitStatus st => (s, broadcast (LoopStatusMsg st) (clients s))
  | LoopController.Spawn h cmd args cwd env => (s, [SpawnChild h cmd args cwd env])
  | LoopController.Kill h sig => (s, [KillChild h sig])
  | LoopController.SetTimeout d => (set_timers (timers s ++ [now s + d])%list s, [])
  end.

Fixpoint on_controller_effects (s : t) (es : list LoopController.Effect)
  : t * list Output :=
  match es with
  | [] => (s, [])
  | e :: rest =>
      let '(s1, o1) := on_controller_effect s e in
      let '(s2, o2) := on_controller_effects s1 rest in
      (s2, (o1 ++ o2)%list)
  end.

(** Run a method of the loop controller and let its events flow out. *)
Definition with_controller
  (f : nat -> LoopController.t -> LoopController.t * list LoopController.Effect)
  (s : t) : t * list Output :=
  let '(c, es) := f (now s) (loopController s) in
  on_controller_effects (set_loopController c s) es.

Definition with_watcher
  (f : nat -> FileWatcher.t -> FileWatcher.t * list FileWatcher.Emit)
  (s : t) : t * list Output :=
  let '(w, es) := f (now s) (fileWatcher s) in
  (set_fileWatcher w s, concat (map (on_watcher_emit (clients s)) es)).

Definition loop_start (o : LoopController.Options) (s : t) : t * list Output :=
  with_controller
    (LoopController.start o (os s (LoopController.spawned (loopController s)))) s.

Definition loop_stop (s : t) : t * list Output :=
  with_controller LoopController.stop s.

(** The [wss] listener of ['connection']: the new socket joins the set and
    is sent the retained state. *)
Definition on_connection (s : t) : t * list Output :=
  let w := accepted s in
  let cs := clients_add (mkClient w OPEN) (clients s) in
  (mk (now s) (os s) (fs s) (projectConfig s) (fileWatcher s) (loopController s)
      cs (timers s) (S w),
   [Console ("Client connected. Total clients: " ++ Text.nat_toString (length cs));
    Send w (LoopStatusMsg (LoopController.getStatus (loopController s)));
    Send w (TasksUpdateMsg (FileWatcher.getTasks (fileWatcher s)));
    Send w (GitUpdateMsg (FileWatcher.getGitStatus (fileWatcher s)));
    Send w (ConfigUpdateMsg (ProjectConfigManager.getConfig (projectConfig s)))]).

(** The socket's listener of ['message']; [None] is text that
    [JSON.parse] rejects. An error thrown on the way is caught and
    written to the console. *)
Definition on_message (w : nat) (cmd : option Command) (s : t) : t * list Output :=
  match cmd with
  | None => (s, [Console "Error handling message:"])
  | Some (LoopStart o) => loop_start o s
  | Some LoopStop => loop_stop s
  | Some (ConfigRead file) =>
      match ProjectConfigManager.readFile file (fs s) (projectConfig s) with
      | Resolved content => (s, [Send w (ConfigContentMsg file content)])
      | Rejected _ => (s, [Console "Error handling message:"])
      end
  | Some (ConfigWrite file content) =>
      match ProjectConfigManager.writeFile file content (fs s) (projectConfig s) with
      | (Resolved _, f, m) => (set_store f m s, [Send w (ConfigSavedMsg file)])
      | (Rejected _, f, m) => (set_store f m s, [Console "Error handling message:"])
      end
  end.

(** The socket's listener of ['close']. *)
Definition on_close (w : nat) (s : t) : t * list Output :=
  let cs := clients_delete w (clients s) in
  (set_clients cs s,
   [Console ("Client disconnected. Total clients: " ++ Text.nat_toString (length cs))]).

(** The routes of the request/response surface. *)
Definition on_request (r : Request) (s : t) : t * list Output :=
  match r with
  | GetStatus =>
      (s, [Respond 200 (StatusBody (LoopController.getStatus (loopController s))
                          (FileWatcher.getTasks (fileWatcher s))
                          (FileWatcher.getGitStatus (fileWatcher s))
                          (ProjectConfigManager.getConfig (projectConfig s)))])
  | GetConfig file =>
      match ProjectConfigManager.readFile file (fs s) (projectConfig s) with
      | Resolved content => (s, [Respond 200 (ContentBody content)])
      | Rejected _ => (s, [Respond 404 (ErrorBody "File not found")])
      end
  | PostConfig file content =>
      match ProjectConfigManager.writeFile file content (fs s) (projectConfig s) with
      | (Resolved _, f, m) => (set_store f m s, [Respond 200 SuccessBody])
      | (Rejected _, f, m) =>
          (set_store f m s, [Respond 500 (ErrorBody "Failed to save file")])
      end
  | PostLoopStart o =>
      let '(s1, out) := loop_start o s in (s1, (out ++ [Respond 200 SuccessBody])%list)
  | PostLoopStop =>
      let '(s1, out) := loop_stop s in (s1, (out ++ [Respond 200 SuccessBody])%list)
  end.

Definition planPath (s : t) : string :=
  Path.join (LoopController.projectPath (loopController s)) "IMPLEMENTATION_PLAN.md".

Definition logPath (s : t) : string :=
  Path.join (LoopController.projectPath (loopController s)) "ralph.log".

(** The armed timers that are due by [limit] fire in the order of arming,
    each at its deadline; the others stay armed. *)
Fixpoint fire_timers (limit : nat) (ts : list nat) (s : t) : t * list Output :=
  match ts with
  | [] => (set_timers [] s, [])
  | d :: rest =>
      if (d <=? limit)%nat then
        let '(s1, o1) :=
          with_controller LoopController.onGraceTimeout (set_now d s) in
        let '(s2, o2) := fire_timers limit rest s1 in
        (s2, (o1 ++ o2)%list)
      else
        let '(s2, o2) := fire_timers limit rest s in
        (set_timers (d :: timers s2) s2, o2)
  end.

(** What happens to the server. *)
Inductive Event :=
| Connection                                   (** a socket is accepted *)
| WsMessage (w : nat) (cmd : option Command)   (** a socket receives text *)
| WsClosing (w : nat)                          (** a socket starts to close *)
| WsClose (w : nat)                            (** a socket emits ['close'] *)
| Http (r : Request)
| PlanChanged                                  (** the plan was added or changed *)
| LogChanged                                   (** the log was added or changed *)
| GitTick (result : option GitStatus.t)        (** a poll of the repository *)
| ChildStdout (data : string)
| ChildStderr (data : string)
| ChildClose (code : option Z)
| ChildError (message : string)
| Outside (f : Fs.t)          (** the files change under the server *)
| Advance (ms : nat).         (** time passes *)

Definition has_client (w : nat) (s : t) : bool :=
  existsb (fun c => (ws c =? w)%nat) (clients s).

(** Listeners on a child exist once a child has been created. *)
Definition has_child (s : t) : bool :=
  (0 <? LoopController.spawned (loopController s))%nat.

Definition step (s : t) (e : Event) : t * list Output :=
  match e with
  | Connection => on_connection s
  | WsMessage w cmd => if has_client w s then on_message w cmd s else (s, [])
  | WsClosing w =>
      (set_clients
         (map (fun c => if (ws c =? w)%nat then mkClient w CLOSING else c) (clients s)) s,
       [])
  | WsClose w => if has_client w s then on_close w s else (s, [])
  | Http r => on_request r s
  | PlanChanged =>
      with_watcher (FileWatcher.parseTasks (Fs.readFile (planPath s) (fs s))) s
  | LogChanged =>
      with_watcher (FileWatcher.tailLog (Fs.readFile (logPath s) (fs s))) s
  | GitTick result =>
      with_watcher (fun _ => FileWatcher.updateGitStatus result) s
  | ChildStdout data =>
      if has_child s then with_controller (LoopController.onStdout data) s else (s, [])
  | ChildStderr data =>
      if has_child s then with_controller (LoopController.onStderr data) s else (s, [])
  | ChildClose code =>
      if has_child s then with_controller (LoopController.onClose code) s else (s, [])
  | ChildError message =>
      if has_child s then with_controller (LoopController.onError message) s else (s, [])
  | Outside f => (set_store f (projectConfig s) s, [])
  | Advance ms =>
      let limit := now s + ms in
      let '(s1, out) := fire_timers limit (timers s) s in
      (set_now limit s1, out)
  end.

(** A run: the outputs of the events, in order. *)
Fixpoint run (s : t) (es : list Event) : t * list Output :=
  match es with
  | [] => (s, [])
  | e :: rest =>
      let '(s1, o1) := step s e in
      let '(s2, o2) := run s1 rest in
      (s2, (o1 ++ o2)%list)
  end.

(** The signals among the outputs. *)
Definition kills (out : list Output)
  : list (LoopController.Handle * LoopController.Signal) :=
  omap (fun o => match o with KillChild h sig => Some (h, sig) | _ => None end) out.

(** The processes created among the outputs. *)
Definition spawns (out : list Output) : list Output :=
  omap (fun o => match o with SpawnChild _ _ _ _ _ => Some o | _ => None end) out.

(** Every [send] among the outputs is on a socket below [n]. *)
Definition sends_below (n : nat) (out : list Output) : Prop :=
  Forall (fun o => match o with Send w _ => w < n | _ => True end) out.

(** The sockets of the set are accepted ones, each is there once, and the
    controller holds a process handle exactly when its status says
    running. *)
Definition wf (s : t) : Prop :=
  Forall (fun c => ws c < accepted s) (clients s)
  /\ NoDup (map ws (clients s))
  /\ LoopController.consistent (loopController s).

(** What has been sent to one socket. *)
Definition sent_to (w : nat) (out : list Output) : list Message :=
  omap (fun o => match o with
                 | Send w' m => if (w' =? w)%nat then Some m else None
                 | _ => None
                 end) out.

End Server.

(** ** The project scanner ([ProjectScanner], in [dashboard/server/fileWatcher.ts]) *)

(** A parsed [package.json], as far as the scanner reads it.  A field is
    [None] when the object has no such member; the members of [scripts],
    [dependencies] and [devDependencies] are strings. *)
Module PackageJson.
Record t := mk {
  name : option string;
  scripts : option (gmap string string);
  dependencies : option (gmap string string);
  devDependencies : option (gmap string string)
}.
End PackageJson.

Module ProjectScanner.

Inductive PackageManager := npm | yarn | pnpm | bun.

Inductive Language := typescript | javascript | python | go | mixed | unknown.

(** The loops of [detectPackageManager] and [detectLanguage]: the answer
    of the first check whose file [fs.access] finds. *)
Fixpoint first_accessible {A : Type} (projectPath : string) (fs : Fs.t)
  (checks : list (string * A)) : option A :=
  match checks with
  | [] => None
  | (file, a) :: rest =>
      if Fs.access (Path.join projectPath file) fs then Some a
      else first_accessible projectPath fs rest
  end.

Definition manager_checks : list (string * PackageManager) :=
  [("bun.lockb", bun); ("pnpm-lock.yaml", pnpm); ("yarn.lock", yarn);
   ("package-lock.json", npm)].

Definition detectPackageManager (projectPath : string) (fs : Fs.t)
  : option PackageManager :=
  match first_accessible projectPath fs manager_checks with
  | Some m => Some m
  | None =>
      if Fs.access (Path.join projectPath "package.json") fs then Some npm
      else None
  end.

Definition language_checks : list (string * Language) :=
  [("tsconfig.json", typescript); ("go.mod", go); ("pyproject.toml", python);
   ("requirements.txt", python); ("Pipfile", python)].

Definition detectLanguage (projectPath : string) (fs : Fs.t) : Language :=
  match first_accessible projectPath fs language_checks with
  | Some l => l
  | None =>
      if Fs.access (Path.join projectPath "package.json") fs then javascript
      else unknown
  end.

(** [{ ...(dependencies || {}), ...(devDependencies || {}) }]: where both
    name a package, the later spread wins. *)
Definition deps_of (p : PackageJson.t) : gmap string string :=
  default ∅ (PackageJson.devDependencies p) ∪ default ∅ (PackageJson.dependencies p).

(** [obj[key]] where the code tests it for truthiness: the member, when
    there is one and it is not the empty string. *)
Definition truthy_entry (obj : gmap string string) (key : string) : option string :=
  match obj !! key with
  | Some v => if Text.truthy v then Some v else None
  | None => None
  end.

(** [s.replace(c, '')] for a one-character [c]: the first one goes. *)
Fixpoint remove_first (c : ascii) (s : string) : string :=
  match s with
  | EmptyString => EmptyString
  | String x s' => if Ascii.eqb x c then s' else String x (remove_first c s')
  end.

(** [version.replace(/^\^|~/, '')]: the leftmost match is a caret in the
    first place, and otherwise the first tilde anywhere. *)
Definition strip_range (version : string) : string :=
  match version with
  | String "^" rest => rest
  | _ => remove_first "~" version
  end.

(** [version.split('.')[0]] *)
Definition majorVersion (version : string) : string :=
  hd EmptyString (Text.split_char "." version).

Definition frameworks : list (string * string) :=
  [("next", "Next.js"); ("@remix-run/react", "Remix"); ("nuxt", "Nuxt");
   ("astro", "Astro"); ("svelte", "Svelte"); ("vue", "Vue"); ("vite", "Vite");
   ("react", "React"); ("express", "Express"); ("fastify", "Fastify");
   ("hono", "Hono"); ("electron", "Electron")].

(** The loop of [detectFramework]. *)
Fixpoint first_framework (deps : gmap string string) (fws : list (string * string))
  : option string :=
  match fws with
  | [] => None
  | (dep, name) :: rest =>
      match truthy_entry deps dep with
      | Some v => Some (name ++ " " ++ majorVersion (strip_range v))
      | None => first_framework deps rest
      end
  end.

Definition detectFramework (packageJson : option PackageJson.t) : option string :=
  match packageJson with
  | None => None
  | Some p => first_framework (deps_of p) frameworks
  end.

Inductive CommandType := build | dev | test | lint | typecheck.

#[global] Instance CommandType_eq_dec : EqDecision CommandType.
Proof. solve_decision. Defined.

(** [ProjectScan['detectedCommands']]: each member may be missing. *)
Module Commands.
Record t := mk {
  build : option string;
  dev : option string;
  test : option string;
  lint : option string;
  typecheck : option string
}.
End Commands.

Definition no_commands : Commands.t := Commands.mk None None None None None.

(** [commands[commandType]] *)
Definition get (k : CommandType) (c : Commands.t) : option string :=
  match k with
  | build => Commands.build c
  | dev => Commands.dev c
  | test => Commands.test c
  | lint => Commands.lint c
  | typecheck => Commands.typecheck c
  end.

(** [commands[commandType] = v] *)
Definition set (k : CommandType) (v : string) (c : Commands.t) : Commands.t :=
  match k with
  | build => Commands.mk (Some v) (Commands.dev c) (Commands.test c) (Commands.lint c) (Commands.typecheck c)
  | dev => Commands.mk (Commands.build c) (Some v) (Commands.test c) (Commands.lint c) (Commands.typecheck c)
  | test => Commands.mk (Commands.build c) (Commands.dev c) (Some v) (Commands.lint c) (Commands.typecheck c)
  | lint => Commands.mk (Commands.build c) (Commands.dev c) (Commands.test c) (Some v) (Commands.typecheck c)
  | typecheck => Commands.mk (Commands.build c) (Commands.dev c) (Commands.test c) (Commands.lint c) (Some v)
  end.

(** [!commands[commandType]] *)
Definition unset (k : CommandType) (c : Commands.t) : bool :=
  match get k c with
  | Some v => negb (Text.truthy v)
  | None => true
  end.

(** [pm === 'npm' ? 'npm run' : pm] *)
Definition run_of (pm : PackageManager) : string :=
  match pm with
  | npm => "npm run"
  | yarn => "yarn"
  | pnpm => "pnpm"
  | bun => "bun"
  end.

(** The entries of [scriptMappings], in the order of the object literal,
    which is the order [Object.entries] gives them in. *)
Definition scriptMappings : list (string * CommandType) :=
  [("build", build); ("dev", dev); ("start", dev); ("develop", dev);
   ("test", test); ("test:unit", test); ("test:e2e", test);
   ("lint", lint); ("lint:fix", lint);
   ("typecheck", typecheck); ("type-check", typecheck); ("tsc", typecheck)].

(** One turn of the loop over [scriptMappings]. *)
Definition add_script (run : string) (scripts : gmap string string)
  (commands : Commands.t) (entry : string * CommandType) : Commands.t :=
  let '(scriptName, commandType) := entry in
  match truthy_entry scripts scriptName with
  | Some _ =>
      if unset commandType commands
      then set commandType (run ++ " " ++ scriptName) commands
      else commands
  | None => commands
  end.

Definition extractCommands (packageJson : option PackageJson.t)
  (packageManager : option PackageManager) : Commands.t :=
  match packageJson, packageManager with
  | Some p, Some pm =>
      match PackageJson.scripts p with
      | None => no_commands
      | Some scripts =>
          let commands :=
            fold_left (add_script (run_of pm) scripts) scriptMappings no_commands in
          if unset typecheck commands then
            match truthy_entry (deps_of p) "typescript" with
            | Some _ => set typecheck "npx tsc --noEmit" commands
            | None => commands
            end
          else commands
      end
  | _, _ => no_commands
  end.

(** [ProjectScan['hasRalphConfig']] *)
Module RalphConfig.
Record t := mk {
  agentsMd : bool;
  claudeMd : bool;
  implementationPlan : bool;
  loopSh : bool;
  specsDir : bool;
  cursorRules : bool
}.
End RalphConfig.

Definition TEMPLATE_MARK : string := "[Replace with your project-specific".

Definition checkRalphConfig (projectPath : string) (fs : Fs.t) : RalphConfig.t :=
  let found (filePath : string) := Fs.access (Path.join projectPath filePath) fs in
  let agentsMd :=
    if found "AGENTS.md" then
      match Fs.readFile (Path.join projectPath "AGENTS.md") fs with
      | Some content => negb (Text.includes TEMPLATE_MARK content)
      | None => true
      end
    else false in
  RalphConfig.mk agentsMd (found "CLAUDE.md") (found "IMPLEMENTATION_PLAN.md")
    (found "loop.sh") (found "specs") (found ".cursor/rules").

End ProjectScanner.

(** ** The documents of the PRD generator ([dashboard/server/prdGenerator.ts]) *)

Module PRDGenerator.

(** [([\s\S]*?)\s*END] tried at the head of [s]: the group grows one
    character at a time until white space and then [END] follow it.  The
    marker [END] does not begin with white space, so where [END] does not
    follow all the white space there is, it follows no part of it. *)
Fixpoint lazy_group (END s : string) : option string :=
  if String.prefix END (Text.trimStart s) then Some EmptyString
  else
    match s with
    | EmptyString => None
    | String c s' => option_map (String c) (lazy_group END s')
    end.

(** [START\s*([\s\S]*?)\s*END] tried at the head of [s]; the group.
    The first [\s*] takes all the white space after [START]: what it could
    give back would only be put in front of the group, and the group ends
    where it would have ended. *)
Definition match_here (START END s : string) : option string :=
  if String.prefix START s
  then lazy_group END (Text.trimStart (Text.drop (String.length START) s))
  else None.

(** [output.match(/START\s*([\s\S]*?)\s*END/)]: the group of the leftmost
    match. *)
Fixpoint exec (START END s : string) : option string :=
  match match_here START END s with
  | Some g => Some g
  | None =>
      match s with
      | EmptyString => None
      | String _ s' => exec START END s'
      end
  end.

Module Documents.
Record t := mk { prd : string; audience : string }.
End Documents.

Definition parseDocuments (output : string) : Documents.t :=
  Documents.mk
    match exec "===PRD_START===" "===PRD_END===" output with
    | Some g => Text.trim g
    | None => output
    end
    match exec "===AUDIENCE_START===" "===AUDIENCE_END===" output with
    | Some g => Text.trim g
    | None => EmptyString
    end.

End PRDGenerator.

(** ** The repository name ([updateGitStatus] in [dashboard/server/fileWatcher.ts]) *)

Module GitRemote.

(** [(.+?)(?:\.git)?$] tried at the head of [s]: the shortest text of one
    character or more, free of line terminators, after which the text
    ends, with [.git] or without. *)
Fixpoint lazy_name (s : string) : option string :=
  match s with
  | EmptyString => None
  | String c s' =>
      if Text.is_line_terminator c then None
      else if String.eqb s' ".git" || String.eqb s' "" then Some (String c EmptyString)
      else option_map (String c) (lazy_name s')
  end.

(** [github\.com[:/](.+?)(?:\.git)?$] tried at the head of [s]. *)
Definition match_here (s : string) : option string :=
  if String.prefix "github.com" s then
    match Text.drop 10 s with
    | String c rest =>
        if Ascii.eqb c ":" || Ascii.eqb c "/" then lazy_name rest else None
    | EmptyString => None
    end
  else None.

(** [remoteUrl.match(/github\.com[:/](.+?)(?:\.git)?$/)]: the group of the
    leftmost match. *)
Fixpoint exec (s : string) : option string :=
  match match_here s with
  | Some g => Some g
  | None =>
      match s with
      | EmptyString => None
      | String _ s' => exec s'
      end
  end.

(** [repoName], from [remoteUrl]; [None] is [undefined]. *)
Definition repoName (remoteUrl : option string) : option string :=
  match remoteUrl with
  | Some url => if Text.truthy url then exec url else None
  | None => None
  end.

End GitRemote.

(** ** Switching agents on and off ([toggleAgent] in
       [dashboard/server/projectConfig.ts]) *)

Module ProjectConfigAgents.

(** [s.replace(re, ...)] for a global [re] that matches no empty text.
    For the text that begins at a place, [m] gives what is put for the
    match that begins there and the length of that match; the search goes
    on behind the match. *)
Fixpoint replace_all (m : string -> option (string * nat)) (skip : nat) (s : string)
  : string :=
  match s with
  | EmptyString => EmptyString
  | String c s' =>
      match skip with
      | S k => replace_all m k s'
      | O =>
          match m s with
          | Some (put, n) => put ++ replace_all m (n - 1) s'
          | None => String c (replace_all m 0 s')
          end
      end
  end.

(** The text before the first occurrence of [needle]. *)
Fixpoint before_first (needle hay : string) : option string :=
  if String.prefix needle hay then Some EmptyString
  else match hay with
       | EmptyString => None
       | String c hay' => option_map (String c) (before_first needle hay')
       end.

Fixpoint ends_with_space (s : string) : bool :=
  match s with
  | EmptyString => false
  | String c EmptyString => Ascii.eqb c " "
  | String _ s' => ends_with_space s'
  end.

(** [\| [^|]+ \| `id` \|] tried at the head of [s]; the text matched.
    [[^|]+] takes all there is up to the next bar and has to give back the
    space that the pattern wants before that bar. *)
Definition match_row (agentId s : string) : option string :=
  if String.prefix "| " s then
    let '(run, rest) :=
      Text.span (fun c => negb (Ascii.eqb c "|")) (Text.drop 2 s) in
    if (2 <=? String.length run)%nat && ends_with_space run
       && String.prefix ("| `" ++ agentId ++ "` |") rest
    then Some ("| " ++ run ++ "| `" ++ agentId ++ "` |")
    else None
  else None.

(** [(?:- [^\n]+\n)+] tried at the head of [s], as far as it goes: the
    lines matched, none when the first does not fit. *)
Fixpoint bullets (fuel : nat) (s : string) : string :=
  match fuel with
  | O => EmptyString
  | S fuel' =>
      if String.prefix "- " s then
        let '(body, rest) :=
          Text.span (fun c => negb (Ascii.eqb c "010")) (Text.drop 2 s) in
        match body, rest with
        | String _ _, String _ rest' => "- " ++ body ++ NL ++ bullets fuel' rest'
        | _, _ => EmptyString
        end
      else EmptyString
  end.

(** [\*\*Delegate to `id` when:\*\*\n(?:- [^\n]+\n)+] tried at the head of
    [s]; the text matched. *)
Definition match_delegate (agentId s : string) : option string :=
  let header := "**Delegate to `" ++ agentId ++ "` when:**" ++ NL in
  if String.prefix header s then
    let lines := bullets (String.length s) (Text.drop (String.length header) s) in
    if Text.truthy lines then Some (header ++ lines) else None
  else None.

(** The first [replace] of [disableAgentInContent], at one place. *)
Definition wrap_row (agentId s : string) : option (string * nat) :=
  match match_row agentId s with
  | Some found =>
      Some ("<!-- DISABLED: " ++ agentId ++ NL ++ found ++ NL ++ "-->",
            String.length found)
  | None => None
  end.

(** The second [replace] of [disableAgentInContent], at one place. *)
Definition wrap_delegate (agentId s : string) : option (string * nat) :=
  match match_delegate agentId s with
  | Some found =>
      Some ("<!-- DISABLED: " ++ agentId ++ NL ++ found ++ "-->" ++ NL,
            String.length found)
  | None => None
  end.

Definition disableAgentInContent (content agentId : string) : string :=
  replace_all (wrap_delegate agentId) 0 (replace_all (wrap_row agentId) 0 content).

(** [<!-- DISABLED: id\n([\s\S]*?)-->\n?] tried at the head of [s]: the
    group, which is what is put for the match, and the length of the
    match. *)
Definition unwrap (agentId s : string) : option (string * nat) :=
  let opening := "<!-- DISABLED: " ++ agentId ++ NL in
  if String.prefix opening s then
    let body := Text.drop (String.length opening) s in
    match before_first "-->" body, ProjectConfigManager.after_first "-->" body with
    | Some group, Some rest =>
        Some (group,
              String.length opening + String.length group + 3
              + (if String.prefix NL rest then 1 else 0))
    | _, _ => None
    end
  else None.

(** The [replace] of the branch of [toggleAgent] that enables. *)
Definition enableAgentInContent (content agentId : string) : string :=
  replace_all (unwrap agentId) 0 content.

Inductive Thrown :=
| UnknownAgent                 (** [new Error(`Unknown agent: ${agentId}`)] *)
| Store (e : Failure).         (** what [readFile] or [writeFile] rejected with *)

Inductive Outcome :=
| Agents (enabledAgents : list string)
| Throws (e : Thrown).

(** [toggleAgent], for an [agentId] among [ALL_AGENT_IDS] (none of which
    holds a character that means something in a pattern): the outcome,
    the file system and the manager afterwards. *)
Definition toggleAgent (agentId : string) (enabled : bool) (fs : Fs.t)
  (m : ProjectConfigManager.t) : Outcome * Fs.t * ProjectConfigManager.t :=
  if negb (bool_decide (agentId ∈ ProjectConfigManager.ALL_AGENT_IDS))
  then (Throws UnknownAgent, fs, m)
  else
    match ProjectConfigManager.readFile "CLAUDE.md" fs m with
    | Rejected e => (Throws (Store e), fs, m)
    | Resolved content =>
        let content :=
          if enabled then enableAgentInContent content agentId
          else disableAgentInContent content agentId in
        match ProjectConfigManager.writeFile "CLAUDE.md" content fs m with
        | (Resolved _, fs', m') =>
            (Agents (ProjectConfigManager.enabledAgents m'), fs', m')
        | (Rejected e, fs', m') => (Throws (Store e), fs', m')
        end
    end.

End ProjectConfigAgents.

(** ** Notions used to state further properties

    None of these is code of the server: they read off its outputs, or
    drive it through a sequence of notifications. *)

Module Derived.

(** Every character of a text satisfies [p]. *)
Fixpoint all (p : ascii -> bool) (s : string) : bool :=
  match s with
  | EmptyString => true
  | String c s' => p c && all p s'
  end.

(** The log entries and the statuses among a controller's effects. *)
Definition logs_of (es : list LoopController.Effect) : list LogEntry.t :=
  omap (fun e => match e with LoopController.EmitLog x => Some x | _ => None end) es.

Definition statuses_of (es : list LoopController.Effect) : list LoopStatus.t :=
  omap (fun e => match e with LoopController.EmitStatus x => Some x | _ => None end) es.

(** The effects that reach the runtime rather than the listeners. *)
Definition calls_of (es : list LoopController.Effect) : list LoopController.Effect :=
  omap (fun e => match e with
                 | LoopController.EmitLog _ | LoopController.EmitStatus _ => None
                 | _ => Some e
                 end) es.

(** The iteration numbers announced by the lines of a chunk, in order. *)
Definition markers (lines : list string) : list Z :=
  omap LoopController.iterMatch lines.

(** The lines among a watcher's events. *)
Definition lines_of (es : list FileWatcher.Emit) : list string :=
  omap (fun e => match e with
                 | FileWatcher.EmitLog x => Some (LogEntry.content x)
                 | _ => None
                 end) es.



(** The carriage return, which ends the lines of a text with CRLF line
    ends once it is split at the line feeds. *)
Definition CR : string := String "013"%char EmptyString.


(** The events whose handling answers one socket rather than all. *)
Definition is_unicast (e : Server.Event) : bool :=
  match e with
  | Server.Connection => true
  | Server.WsMessage _ (Some (Server.ConfigRead _)) => true
  | Server.WsMessage _ (Some (Server.ConfigWrite _ _)) => true
  | _ => false
  end.

(** Outputs made of broadcasts over the sockets [cs] and of outputs that
    are not sends. *)
Inductive fanned (cs : list Server.Client) : list Server.Output -> Prop :=
| fanned_nil : fanned cs []
| fanned_broadcast (m : Server.Message) (out : list Server.Output) :
    fanned cs out -> fanned cs (Server.broadcast m cs ++ out)
| fanned_other (o : Server.Output) (out : list Server.Output) :
    (forall w m, o <> Server.Send w m) -> fanned cs out -> fanned cs (o :: out).

(** The segments of a path that count: neither empty nor [.]. *)
Definition clean_segments (segs : list string) : list string :=
  List.filter (fun seg => negb (String.eqb seg "" || String.eqb seg ".")) segs.


(** The first script, in the order of the entries [l], that stands for the
    command [k] and that [package.json] has. *)
Definition first_script_in (scripts : gmap string string)
  (k : ProjectScanner.CommandType) (l : list (string * ProjectScanner.CommandType))
  : option string :=
  fst <$> List.find
            (fun e => bool_decide (snd e = k)
                      && bool_decide (is_Some (ProjectScanner.truthy_entry scripts (fst e))))
            l.

Definition first_script (scripts : gmap string string)
  (k : ProjectScanner.CommandType) : option string :=
  first_script_in scripts k ProjectScanner.scriptMappings.

(** No entry of [fws] names a package that [deps] has. *)
Definition none_present (deps : gmap string string) (fws : list (string * string))
  : bool :=
  forallb (fun e => bool_decide (ProjectScanner.truthy_entry deps (fst e) = None)) fws.

(** A text without its last character. *)
Fixpoint init (s : string) : string :=
  match s with
  | EmptyString => EmptyString
  | String c EmptyString => EmptyString
  | String c s' => String c (init s')
  end.

(** The marker [M] begins somewhere inside [pre], whatever follows [pre]
    when [M] itself does. *)
Definition begins_in (M pre : string) : bool := Text.includes M (pre ++ init M).

(** A character that is no bar, star, angle bracket or backquote. *)
Definition plain (c : ascii) : bool :=
  negb (Ascii.eqb c "|") && negb (Ascii.eqb c "*") && negb (Ascii.eqb c "<")
  && negb (Ascii.eqb c ">") && negb (Ascii.eqb c "`").

(** The text does not hold the character [h]. *)
Definition free_of (h : ascii) (s : string) : bool :=
  all (fun c => negb (Ascii.eqb c h)) s.

(** The row of the table of agents for one agent. *)
Definition agent_row (agentId name : string) : string :=
  "| " ++ name ++ " | `" ++ agentId ++ "` |".

Fixpoint bullet_lines (items : list string) : string :=
  match items with
  | [] => EmptyString
  | i :: rest => "- " ++ i ++ NL ++ bullet_lines rest
  end.

(** The section that says when to delegate to one agent. *)
Definition delegate_section (agentId : string) (items : list string) : string :=
  "**Delegate to `" ++ agentId ++ "` when:**" ++ NL ++ bullet_lines items.

(** An item of a list: not empty, on one line, of plain characters. *)
Definition item_ok (i : string) : bool :=
  Text.truthy i && all plain i && free_of "010" i.

(** A [CLAUDE.md] that names one agent, in a row of the table and in
    a section of its own. *)
Definition agents_doc (agentId name : string) (items : list string)
  (pre mid post : string) : string :=
  pre ++ agent_row agentId name ++ NL ++ mid ++ delegate_section agentId items ++ post.

(** The same document with the row and the section of the agent each in a
    comment. *)
Definition disabled_doc (agentId name : string) (items : list string)
  (pre mid post : string) : string :=
  pre ++ ("<!-- DISABLED: " ++ agentId ++ NL ++ agent_row agentId name ++ NL ++ "-->")
      ++ NL ++ mid
      ++ ("<!-- DISABLED: " ++ agentId ++ NL ++ delegate_section agentId items
            ++ "-->" ++ NL)
      ++ post.

(** The commands set so far are not empty texts. *)
Definition set_truthy (c : ProjectScanner.Commands.t) : Prop :=
  forall k v, ProjectScanner.get k c = Some v -> Text.truthy v = true.

(** What the fields of a controller have to do with one another. *)
Definition coherent (c : LoopController.t) : Prop :=
  let st := LoopController.status c in
  (is_Some (LoopController.process c) <-> LoopStatus.running st = true)
  /\ (LoopStatus.running st = false -> LoopStatus.pid st = None)
  /\ (LoopStatus.running st = true ->
      is_Some (LoopStatus.mode st) /\ is_Some (LoopStatus.startedAt st))
  /\ (0 <= LoopStatus.iteration st)%Z
  /\ (forall h, LoopController.process c = Some h -> h < LoopController.spawned c).

End Derived.

(** ** Concrete situations used below *)

Module Scenario.

Definition old_log : string := "old line one" ++ NL ++ "old line two" ++ NL.

(** The watcher after it has tailed [old_log] from the start. *)
Definition tailed_old : FileWatcher.t :=
  fst (FileWatcher.tailLog (Some old_log) 0 FileWatcher.init).

(** The operating system numbers the children from 4000. *)
Definition os (h : LoopController.Handle) : option nat := Some (4000 + h).

(** The server just started in an empty project directory. *)
Definition fresh : Server.t := Server.init "/srv/project" os (Fs.mk ∅ ∅).

Definition build : LoopController.Options :=
  LoopController.mkOptions ModeBuild None None.

Definition scoped : LoopController.Options :=
  LoopController.mkOptions ModePlanWork None (Some "login page; rm -rf /").

(** One observer is connected. *)
Definition observed : Server.t := fst (Server.run fresh [Server.Connection]).

(** Two observers are connected and the first has started a build. *)
Definition running : Server.t :=
  fst (Server.run fresh
         [Server.Connection; Server.Connection;
          Server.WsMessage 0 (Some (Server.LoopStart build))]).

(** Two observers are connected and the first has begun to close. *)
Definition closing : Server.t :=
  fst (Server.run fresh [Server.Connection; Server.Connection; Server.WsClosing 0]).

(** A run is started and stopped, the child exits one second after the
    stop, a new run is started one second later, and three more seconds
    pass. *)
Definition restart_in_grace : list Server.Event :=
  [Server.Http (Server.PostLoopStart build);
   Server.Http Server.PostLoopStop;
   Server.Advance 1000;
   Server.ChildClose None;
   Server.Advance 1000;
   Server.Http (Server.PostLoopStart build);
   Server.Advance 3000].

(** A run is started and stopped twice within a second, and the child has
    not exited six seconds later. *)
Definition stop_twice : list Server.Event :=
  [Server.Http (Server.PostLoopStart build);
   Server.Http Server.PostLoopStop;
   Server.Advance 500;
   Server.Http Server.PostLoopStop;
   Server.Advance 6000].

Definition git_main : GitStatus.t := GitStatus.mk "main" 2 [] (Some 9) None None.

(** The scripts and the packages of a front end built with Vite. *)
Definition vite_scripts : gmap string string :=
  {[ "start" := "node server.js"; "dev" := "vite"; "test:unit" := "vitest run";
     "lint:fix" := "eslint --fix ." ]}.

(** An answer of the model in the format the prompt asks for. *)
Definition answer_prd : string := NL ++ "# PRD" ++ NL ++ "a == b" ++ NL ++ NL.
Definition answer_audience : string := " # Audience" ++ NL.

(** A [CLAUDE.md] that hands work on the interface to one agent. *)
Definition ux_items : list string := ["loading states"; "keyboard shortcuts"].

Definition ux_claude_md : string :=
  Derived.agents_doc "qol-ux-expert" "UX polish" ux_items
    ("# Agents" ++ NL ++ NL) NL (NL ++ "Ask when in doubt." ++ NL).

Definition ux_project : Fs.t :=
  Fs.mk {[ "/srv/project/CLAUDE.md" := ux_claude_md ]} {[ "/srv/project"; "/srv"; "/" ]}.

Definition vite_app : PackageJson.t :=
  PackageJson.mk (Some "front-end") (Some vite_scripts)
    (Some {[ "react" := "^18.2.0"; "vite" := "" ]})
    (Some {[ "typescript" := "~5.4.2" ]}).

End Scenario.

(** * Properties *)

(** ** Text *)

Section TextFacts.

Lemma trimStart_space (c : ascii) (s : string) :
  Text.is_space c = true -> Text.trim (String c s) = Text.trim s.
Proof. intros H. unfold Text.trim. simpl. now rewrite H. Qed.

(** A text is its leading white space followed by what [trimStart] keeps. *)
Lemma trimStart_split (s : string) :
  exists ws, s = ws ++ Text.trimStart s /\ Text.trimStart ws = "".
Proof.
  induction s as [|c s [ws [E W]]].
  - exists "". split; reflexivity.
  - simpl. destruct (Text.is_space c) eqn:Hc.
    + exists (String c ws). split.
      * change (String c s = String c (ws ++ Text.trimStart s)). now f_equal.
      * simpl. now rewrite Hc.
    + exists "". split; reflexivity.
Qed.

Lemma split_char_nonempty (d : ascii) (s : string) : Text.split_char d s <> [].
Proof.
  induction s as [|c s IH]; simpl; [discriminate|].
  destruct (Ascii.eqb c d); [discriminate|].
  destruct (Text.split_char d s); [contradiction|discriminate].
Qed.

(** [split] at a separator: the pieces before it, then the pieces after. *)
Lemma split_char_app (d : ascii) (a b : string) :
  Text.split_char d (a ++ String d b)
  = (Text.split_char d a ++ Text.split_char d b)%list.
Proof.
  induction a as [|c a IH]; simpl.
  - now rewrite Ascii.eqb_refl.
  - destruct (Ascii.eqb c d); rewrite IH.
    + reflexivity.
    + destruct (Text.split_char d a) eqn:E; [|reflexivity].
      now apply split_char_nonempty in E.
Qed.

Lemma chunk_lines_app (a b : string) :
  Text.chunk_lines (a ++ NL ++ b)
  = (Text.chunk_lines a ++ Text.chunk_lines b)%list.
Proof.
  unfold Text.chunk_lines, Text.split_nl.
  change (NL ++ b) with (String "010"%char b).
  rewrite split_char_app. apply filter_app.
Qed.

Lemma chunk_lines_empty : Text.chunk_lines "" = [].
Proof. reflexivity. Qed.

Lemma string_app_nil (s : string) : s ++ "" = s.
Proof. induction s; simpl; congruence. Qed.

Lemma string_app_assoc (a b c : string) : (a ++ b) ++ c = a ++ (b ++ c).
Proof. induction a; simpl; congruence. Qed.

Lemma string_app_length (a b : string) :
  String.length (a ++ b) = String.length a + String.length b.
Proof. induction a; simpl; congruence. Qed.

Lemma substring_all (s : string) : String.substring 0 (String.length s) s = s.
Proof. induction s; simpl; congruence. Qed.

Lemma slice_app (p a : string) :
  Text.slice (String.length p) (String.length a) (p ++ a) = a.
Proof.
  unfold Text.slice. induction p; simpl; [apply substring_all|assumption].
Qed.

(** Reading from an offset to the end is dropping the offset. *)
Lemma slice_drop (n : nat) (s : string) :
  Text.slice n (String.length s - n) s = Text.drop n s.
Proof.
  unfold Text.slice. revert n. induction s as [|c s IH]; intros [|n]; simpl;
    try reflexivity.
  - f_equal. apply substring_all.
  - apply IH.
Qed.

Lemma drop_all (n : nat) (s : string) :
  String.length s <= n -> Text.drop n s = "".
Proof.
  revert n. induction s as [|c s IH]; intros [|n] H; simpl in *;
    try reflexivity; try lia.
  apply IH. lia.
Qed.

End TextFacts.

(** ** The checklist *)

Section Checklist.

Ltac ascii_cases c := destruct c as [[] [] [] [] [] [] [] []].

(** The group of [\s*(.+)$] is the rest of the line less some leading white
    space, so trimming it is trimming the rest of the line. *)
Lemma ws_then_text_trim (s g : string) :
  FileWatcher.ws_then_text s = Some g -> Text.trim g = Text.trim s.
Proof.
  induction s as [|c s IH]; simpl; [discriminate|].
  unfold FileWatcher.dot_plus_end.
  destruct (Text.is_space c) eqn:Hc.
  - destruct (FileWatcher.ws_then_text s) as [g0|].
    + intros [= <-]. rewrite trimStart_space by assumption. now apply IH.
    + destruct (_ && _); [intros [= <-]; reflexivity | discriminate].
  - destruct (_ && _); [intros [= <-]; reflexivity | discriminate].
Qed.

Lemma box_char_cases (c : ascii) :
  FileWatcher.is_box_char c = true -> (c = " " \/ c = "x" \/ c = "X")%char.
Proof.
  ascii_cases c; vm_compute; intros H; try discriminate H;
    first [left; reflexivity | right; left; reflexivity | right; right; reflexivity].
Qed.

Lemma box_char_done (c : ascii) :
  FileWatcher.is_box_char c = true ->
  String.eqb (Text.toLowerCase (String c "")) "x" = true
  <-> (c = "x" \/ c = "X")%char.
Proof.
  intros H. destruct (box_char_cases c H) as [-> | [-> | ->]]; vm_compute;
    split; intros K; try discriminate K; try reflexivity; auto;
    destruct K as [K | K]; discriminate K.
Qed.

(** A line that matches is a dash, white space, a box with one of the three
    characters, and a rest. *)
Lemma match_checkbox_shape (line : string) (c : ascii) (g : string) :
  FileWatcher.match_checkbox line = Some (c, g) ->
  exists ws rest,
    line = String "-" (ws ++ String "[" (String c (String "]" rest)))
    /\ Text.trimStart ws = ""
    /\ FileWatcher.is_box_char c = true
    /\ Text.trim g = Text.trim rest.
Proof.
  destruct line as [|a r]; [discriminate|].
  ascii_cases a; try discriminate.
  unfold FileWatcher.match_checkbox.
  destruct (trimStart_split r) as [ws [E W]].
  destruct (Text.trimStart r) as [|b r1]; [discriminate|].
  ascii_cases b; try discriminate.
  destruct r1 as [|c' r2]; [discriminate|].
  destruct r2 as [|e rest]; [discriminate|].
  ascii_cases e; try discriminate.
  destruct (FileWatcher.is_box_char c') eqn:Hbox; [|discriminate].
  destruct (FileWatcher.ws_then_text rest) as [g'|] eqn:Hg; [|discriminate].
  intros [= <- <-]. exists ws, rest. repeat split; try assumption.
  - now rewrite E at 1.
  - now apply ws_then_text_trim.
Qed.

(** Every item comes from a matching line, and carries that line's index. *)
Lemma collect_tasks_from (i : nat) (lines : list string) (t : Task.t) :
  In t (FileWatcher.collect_tasks i lines) ->
  exists k line c g,
    lines !! k = Some line
    /\ FileWatcher.match_checkbox line = Some (c, g)
    /\ t = Task.mk ("task-" ++ Text.nat_toString (i + k)) (Text.trim g)
             (String.eqb (Text.toLowerCase (String c "")) "x").
Proof.
  revert i. induction lines as [|l rest IH]; intros i; simpl; [contradiction|].
  destruct (FileWatcher.match_checkbox l) as [[c g]|] eqn:Hm.
  - intros [<- | Hin].
    + exists 0, l, c, g. rewrite Nat.add_0_r. auto.
    + destruct (IH _ Hin) as (k & line & c' & g' & Hk & Hl & ->).
      exists (S k), line, c', g'. rewrite Nat.add_succ_r. auto.
  - intros Hin. destruct (IH _ Hin) as (k & line & c' & g' & Hk & Hl & ->).
    exists (S k), line, c', g'. rewrite Nat.add_succ_r. auto.
Qed.

(** C9. Parsing the text of two items, one open and one done, gives the
    two items with their texts, one of two done; and for every text, the
    parse replaces the retained state by a snapshot whose [total] is the
    number of items, whose [completed] is the number of done items, and
    each of whose items comes from a line of the form dash, white space,
    bracketed character, rest: its id is made of the line's index, its
    text is the trimmed rest, and it is done exactly when the bracketed
    character is [x] or [X]. *)
Theorem parse_checklist (content : string) (now : nat) (w : FileWatcher.t) :
  FileWatcher.parseTasks
    (Some ("- [ ] write tests" ++ NL ++ "- [x] build core" ++ NL)) now w
  = (let st := TasksState.mk
                 [Task.mk "task-0" "write tests" false;
                  Task.mk "task-1" "build core" true] 1 2 (Some now) in
     (FileWatcher.mk st (FileWatcher.gitStatus w) (FileWatcher.lastLogPosition w),
      [FileWatcher.EmitTasks st]))
  /\ exists st,
       FileWatcher.parseTasks (Some content) now w
       = (FileWatcher.mk st (FileWatcher.gitStatus w) (FileWatcher.lastLogPosition w),
          [FileWatcher.EmitTasks st])
       /\ TasksState.total st = length (TasksState.tasks st)
       /\ TasksState.completed st
          = length (filter (fun t => Task.completed t = true) (TasksState.tasks st))
       /\ forall t, In t (TasksState.tasks st) ->
            exists i line ws c rest,
              Text.split_nl content !! i = Some line
              /\ line = String "-" (ws ++ String "[" (String c (String "]" rest)))
              /\ Text.trimStart ws = ""
              /\ Task.id t = "task-" ++ Text.nat_toString i
              /\ Task.content t = Text.trim rest
              /\ (Task.completed t = true <-> (c = "x" \/ c = "X")%char).
Proof.
  split; [reflexivity|].
  eexists. split; [reflexivity|]. simpl. repeat split.
  intros t Hin.
  destruct (collect_tasks_from 0 _ t Hin) as (k & line & c & g & Hk & Hm & ->).
  destruct (match_checkbox_shape _ _ _ Hm) as (ws & rest & -> & W & Hbox & Htrim).
  eexists k, _, ws, c, rest. simpl. repeat split; eauto.
  - apply box_char_done; assumption.
  - apply box_char_done; assumption.
Qed.

End Checklist.

(** ** The log tailer *)

Section Tailer.

(** A notification with the log at [size] above the retained offset reads
    the bytes from the offset on, and moves the offset to the size. *)
Lemma tailLog_grown (w : FileWatcher.t) (content : string) (now : nat) :
  FileWatcher.lastLogPosition w < String.length content ->
  FileWatcher.tailLog (Some content) now w
  = (FileWatcher.mk (FileWatcher.tasks w) (FileWatcher.gitStatus w)
       (String.length content),
     FileWatcher.entries now (Text.chunk_lines (Text.drop (FileWatcher.lastLogPosition w) content))).
Proof.
  intros H. unfold FileWatcher.tailLog.
  destruct (Nat.ltb_spec (FileWatcher.lastLogPosition w) (String.length content));
    [|lia].
  now rewrite slice_drop.
Qed.

(** A notification with the log no longer than the retained offset does
    nothing at all. *)
Lemma tailLog_not_grown (w : FileWatcher.t) (content : string) (now : nat) :
  String.length content <= FileWatcher.lastLogPosition w ->
  FileWatcher.tailLog (Some content) now w = (w, []).
Proof.
  intros H. unfold FileWatcher.tailLog.
  destruct (Nat.ltb_spec (FileWatcher.lastLogPosition w) (String.length content));
    [lia|reflexivity].
Qed.

Lemma drop_app (p a : string) : Text.drop (String.length p) (p ++ a) = a.
Proof. induction p; simpl; [now destruct a|assumption]. Qed.

(** C3, as the code has it. When the log is shorter than the retained
    offset at a notification, the tailer does nothing: the offset is kept
    and no line is emitted. Hence, after a truncation and a rewrite, the
    next notification emits the lines of the new content that lie beyond
    the old offset, none when the new content is no longer than that, and
    the offset becomes the larger of the old offset and the new size. *)
Theorem tailLog_shrunk (w : FileWatcher.t) (content new : string) (now now' : nat) :
  String.length content < FileWatcher.lastLogPosition w ->
  FileWatcher.tailLog (Some content) now w = (w, [])
  /\ FileWatcher.tailLog (Some new) now' (fst (FileWatcher.tailLog (Some content) now w))
     = (FileWatcher.mk (FileWatcher.tasks w) (FileWatcher.gitStatus w)
          (Nat.max (FileWatcher.lastLogPosition w) (String.length new)),
        FileWatcher.entries now'
          (Text.chunk_lines (Text.drop (FileWatcher.lastLogPosition w) new))).
Proof.
  intros H. rewrite tailLog_not_grown by lia. split; [reflexivity|].
  cbn [fst].
  destruct (Nat.lt_ge_cases (FileWatcher.lastLogPosition w) (String.length new)) as [L|L].
  - rewrite tailLog_grown by assumption. now rewrite Nat.max_r by lia.
  - rewrite tailLog_not_grown by assumption.
    rewrite drop_all by assumption. rewrite Nat.max_l by assumption.
    now destruct w.
Qed.

(** C4, as the code has it. From an offset at the end of what was there,
    two appended writes seen by one notification each make the tailer emit
    the lines of the first write, then the lines of the second, the offset
    being the size of the file after each; and when the first write is
    empty or ends in a newline, the lines of the two writes together are
    the lines of the two writes read as one text. *)
Theorem tailLog_two_writes (w : FileWatcher.t) (P A B : string) (now1 now2 : nat) :
  FileWatcher.lastLogPosition w = String.length P ->
  exists w1 w2,
    FileWatcher.tailLog (Some (P ++ A)) now1 w
    = (w1, FileWatcher.entries now1 (Text.chunk_lines A))
    /\ FileWatcher.lastLogPosition w1 = String.length (P ++ A)
    /\ FileWatcher.tailLog (Some (P ++ A ++ B)) now2 w1
       = (w2, FileWatcher.entries now2 (Text.chunk_lines B))
    /\ FileWatcher.lastLogPosition w2 = String.length (P ++ A ++ B)
    /\ ((A = "" \/ exists A', A = A' ++ NL) ->
        (Text.chunk_lines A ++ Text.chunk_lines B)%list = Text.chunk_lines (A ++ B)).
Proof.
  intros HP.
  assert (step : forall (v : FileWatcher.t) (Q D : string) (now : nat),
             FileWatcher.lastLogPosition v = String.length Q ->
             exists v', FileWatcher.tailLog (Some (Q ++ D)) now v
                        = (v', FileWatcher.entries now (Text.chunk_lines D))
                        /\ FileWatcher.lastLogPosition v' = String.length (Q ++ D)).
  { intros v Q D now Hv. destruct D as [|d D].
    - exists v. rewrite string_app_nil. split; [|assumption].
      rewrite tailLog_not_grown by lia. reflexivity.
    - eexists. rewrite tailLog_grown.
      + rewrite Hv, drop_app. split; reflexivity.
      + rewrite Hv, string_app_length. simpl. lia. }
  destruct (step w P A now1 HP) as [w1 [E1 L1]].
  destruct (step w1 (P ++ A) B now2 L1) as [w2 [E2 L2]].
  rewrite string_app_assoc in E2, L2.
  exists w1, w2. repeat split; try assumption.
  intros [-> | [A' ->]].
  - reflexivity.
  - rewrite string_app_assoc, chunk_lines_app.
    replace (A' ++ NL) with (A' ++ NL ++ "") by now rewrite string_app_nil.
    now rewrite chunk_lines_app, chunk_lines_empty, app_nil_r.
Qed.

End Tailer.

Section TailerCases.

(** C3, the claim as stated fails: after [old_log] has been tailed the
    offset is 26; the log is then replaced by a shorter text; at the
    notification nothing is emitted and the offset is still 26, while the
    new content read from offset 0 holds the line [new]. *)
Lemma tailLog_shrunk_counterexample :
  FileWatcher.lastLogPosition Scenario.tailed_old = 26
  /\ String.length ("new" ++ NL) = 4
  /\ FileWatcher.tailLog (Some ("new" ++ NL)) 1 Scenario.tailed_old
     = (Scenario.tailed_old, [])
  /\ FileWatcher.entries 1 (Text.chunk_lines ("new" ++ NL))
     = [FileWatcher.EmitLog (LogEntry.mk 1 "new" info)]
  /\ FileWatcher.lastLogPosition
       (fst (FileWatcher.tailLog (Some ("new" ++ NL)) 1 Scenario.tailed_old)) <> 0.
Proof. repeat split; try reflexivity. vm_compute. discriminate. Qed.

Lemma tailLog_shrunk_witness :
  FileWatcher.tailLog (Some "") 1 Scenario.tailed_old = (Scenario.tailed_old, [])
  /\ FileWatcher.tailLog (Some ("a new and much longer line" ++ NL ++ "next" ++ NL)) 2
       (fst (FileWatcher.tailLog (Some "") 1 Scenario.tailed_old))
     = (FileWatcher.mk (FileWatcher.tasks Scenario.tailed_old)
          (FileWatcher.gitStatus Scenario.tailed_old)
          (Nat.max (FileWatcher.lastLogPosition Scenario.tailed_old)
             (String.length ("a new and much longer line" ++ NL ++ "next" ++ NL))),
        FileWatcher.entries 2
          (Text.chunk_lines
             (Text.drop (FileWatcher.lastLogPosition Scenario.tailed_old)
                ("a new and much longer line" ++ NL ++ "next" ++ NL)))).
Proof.
  apply (tailLog_shrunk Scenario.tailed_old ""
           ("a new and much longer line" ++ NL ++ "next" ++ NL) 1 2).
  vm_compute. lia.
Defined.

(** C4, the claim as stated fails: a line written in two pieces, [hel] and
    then [lo] with its newline, is emitted as the two pieces, while the
    final content read from offset 0 holds the one line [hello]. *)
Lemma tailLog_two_writes_counterexample :
  exists w1 w2,
    FileWatcher.tailLog (Some "hel") 0 FileWatcher.init
    = (w1, [FileWatcher.EmitLog (LogEntry.mk 0 "hel" info)])
    /\ FileWatcher.tailLog (Some ("hel" ++ "lo" ++ NL)) 1 w1
       = (w2, [FileWatcher.EmitLog (LogEntry.mk 1 "lo" info)])
    /\ Text.chunk_lines ("hel" ++ "lo" ++ NL) = ["hello"]
    /\ (Text.chunk_lines "hel" ++ Text.chunk_lines ("lo" ++ NL))%list
       <> Text.chunk_lines ("hel" ++ "lo" ++ NL).
Proof.
  eexists _, _. repeat split; try reflexivity. vm_compute. discriminate.
Qed.

Lemma tailLog_two_writes_witness :
  exists w1 w2,
    FileWatcher.tailLog (Some (Scenario.old_log ++ "third" ++ NL)) 1 Scenario.tailed_old
    = (w1, FileWatcher.entries 1 (Text.chunk_lines ("third" ++ NL)))
    /\ FileWatcher.lastLogPosition w1 = String.length (Scenario.old_log ++ "third" ++ NL)
    /\ FileWatcher.tailLog (Some (Scenario.old_log ++ ("third" ++ NL) ++ "fourth" ++ NL)) 2 w1
       = (w2, FileWatcher.entries 2 (Text.chunk_lines ("fourth" ++ NL)))
    /\ FileWatcher.lastLogPosition w2
       = String.length (Scenario.old_log ++ ("third" ++ NL) ++ "fourth" ++ NL)
    /\ (("third" ++ NL = "" \/ exists A', "third" ++ NL = A' ++ NL) ->
        (Text.chunk_lines ("third" ++ NL) ++ Text.chunk_lines ("fourth" ++ NL))%list
        = Text.chunk_lines (("third" ++ NL) ++ "fourth" ++ NL)).
Proof.
  apply (tailLog_two_writes Scenario.tailed_old Scenario.old_log
           ("third" ++ NL) ("fourth" ++ NL) 1 2).
  reflexivity.
Defined.

End TailerCases.

(** ** The server *)

Section ServerFacts.

Lemma set_loopController_same (s : Server.t) :
  Server.set_loopController (Server.loopController s) s = s.
Proof. now destruct s. Qed.

Lemma set_fileWatcher_same (s : Server.t) :
  Server.set_fileWatcher (Server.fileWatcher s) s = s.
Proof. now destruct s. Qed.

Lemma set_store_same (s : Server.t) :
  Server.set_store (Server.fs s) (Server.projectConfig s) s = s.
Proof. now destruct s. Qed.

(** The controller's events reach the sockets and the runtime; of the
    state they touch the armed timers only. *)
Lemma on_controller_effects_frame (es : list LoopController.Effect) (s : Server.t) :
  let s' := fst (Server.on_controller_effects s es) in
  Server.clients s' = Server.clients s
  /\ Server.accepted s' = Server.accepted s
  /\ Server.loopController s' = Server.loopController s
  /\ Server.fileWatcher s' = Server.fileWatcher s
  /\ Server.projectConfig s' = Server.projectConfig s
  /\ Server.fs s' = Server.fs s.
Proof.
  revert s. induction es as [|e es IH]; intros s; simpl; [tauto|].
  destruct (Server.on_controller_effect s e) as [s1 o1] eqn:E1.
  specialize (IH s1).
  destruct (Server.on_controller_effects s1 es) as [s2 o2]. simpl in *.
  assert (Server.clients s1 = Server.clients s
          /\ Server.accepted s1 = Server.accepted s
          /\ Server.loopController s1 = Server.loopController s
          /\ Server.fileWatcher s1 = Server.fileWatcher s
          /\ Server.projectConfig s1 = Server.projectConfig s
          /\ Server.fs s1 = Server.fs s) as H1.
  { destruct e; simpl in E1; injection E1 as <- _; simpl; tauto. }
  destruct IH as (? & ? & ? & ? & ? & ?), H1 as (? & ? & ? & ? & ? & ?).
  repeat split; congruence.
Qed.

(** Without a call to [setTimeout] the state is not touched at all, and
    each event is one broadcast, each call one output. *)
Lemma on_controller_effects_log (s : Server.t) (e : LogEntry.t) :
  Server.on_controller_effects s [LoopController.EmitLog e]
  = (s, Server.broadcast (Server.LoopLogMsg e) (Server.clients s)).
Proof. simpl. now rewrite app_nil_r. Qed.

(** C10. When the plan cannot be read at a change notification, the
    parse leaves the watcher as it is and emits nothing, and the server as
    a whole is unchanged and sends nothing: no observer is shown an empty
    snapshot on account of the failed read. *)
Theorem parseTasks_read_failure (s : Server.t) (now : nat) (w : FileWatcher.t) :
  Fs.readFile (Server.planPath s) (Server.fs s) = None ->
  FileWatcher.parseTasks None now w = (w, [])
  /\ Server.step s Server.PlanChanged = (s, [])
  /\ FileWatcher.getTasks (Server.fileWatcher (fst (Server.step s Server.PlanChanged)))
     = FileWatcher.getTasks (Server.fileWatcher s).
Proof.
  intros H. split; [reflexivity|].
  assert (Server.step s Server.PlanChanged = (s, [])) as E.
  { simpl. rewrite H. unfold Server.with_watcher. simpl.
    now rewrite set_fileWatcher_same. }
  now rewrite E.
Qed.

Lemma parseTasks_read_failure_witness :
  FileWatcher.parseTasks None 7 FileWatcher.init = (FileWatcher.init, [])
  /\ Server.step Scenario.observed Server.PlanChanged = (Scenario.observed, [])
  /\ FileWatcher.getTasks
       (Server.fileWatcher (fst (Server.step Scenario.observed Server.PlanChanged)))
     = FileWatcher.getTasks (Server.fileWatcher Scenario.observed).
Proof.
  apply (parseTasks_read_failure Scenario.observed 7 FileWatcher.init).
  vm_compute. reflexivity.
Defined.

(** C2, as the code has it. A start requested while a child process handle
    exists makes the controller emit one log entry, of type [warning],
    which goes to every open socket; nothing else is sent, no process is
    created, and the whole state, the status of the loop included, is as
    before. The request/response surface answers with success as for any
    start. *)
Theorem start_while_running
  (s : Server.t) (o : LoopController.Options) (h : LoopController.Handle) (w : nat) :
  LoopController.process (Server.loopController s) = Some h ->
  let notice :=
    Server.broadcast
      (Server.LoopLogMsg (LogEntry.mk (Server.now s) "Loop already running" warning))
      (Server.clients s) in
  Server.loop_start o s = (s, notice)
  /\ (Server.has_client w s = true ->
      Server.step s (Server.WsMessage w (Some (Server.LoopStart o))) = (s, notice))
  /\ Server.step s (Server.Http (Server.PostLoopStart o))
     = (s, (notice ++ [Server.Respond 200 Server.SuccessBody])%list)
  /\ Server.spawns notice = []
  /\ (forall st, ~ In (Server.LoopStatusMsg st) (Server.sent_to w notice)).
Proof.
  intros H notice.
  assert (Server.loop_start o s = (s, notice)) as E.
  { unfold Server.loop_start, Server.with_controller, LoopController.start.
    rewrite H. rewrite set_loopController_same.
    apply on_controller_effects_log. }
  split; [exact E|]. split; [|split; [|split]].
  - intros Hc. simpl. now rewrite Hc.
  - simpl. now rewrite E.
  - subst notice. unfold Server.broadcast.
    induction (filter _ (Server.clients s)); [reflexivity|assumption].
  - intros st. subst notice. unfold Server.broadcast.
    induction (filter _ (Server.clients s)) as [|c l IH]; simpl; [tauto|].
    destruct (Server.ws c =? w)%nat; simpl; [|assumption].
    intros [K | K]; [discriminate K | tauto].
Qed.

Lemma start_while_running_witness :
  Server.loop_start Scenario.build Scenario.running
  = (Scenario.running,
     [Server.Send 0 (Server.LoopLogMsg (LogEntry.mk 0 "Loop already running" warning));
      Server.Send 1 (Server.LoopLogMsg (LogEntry.mk 0 "Loop already running" warning))]).
Proof.
  apply (proj1 (start_while_running Scenario.running Scenario.build 0 0 eq_refl)).
Defined.

(** C2, the claim as stated fails: with two observers connected and a run
    active, a start requested by the first observer puts the notice on
    the second observer's socket as well. *)
Lemma start_while_running_counterexample :
  LoopController.process (Server.loopController Scenario.running) = Some 0
  /\ snd (Server.step Scenario.running
            (Server.WsMessage 0 (Some (Server.LoopStart Scenario.build))))
     = [Server.Send 0 (Server.LoopLogMsg (LogEntry.mk 0 "Loop already running" warning));
        Server.Send 1 (Server.LoopLogMsg (LogEntry.mk 0 "Loop already running" warning))]
  /\ Server.sent_to 1
       (snd (Server.step Scenario.running
               (Server.WsMessage 0 (Some (Server.LoopStart Scenario.build))))) <> [].
Proof. repeat split; try reflexivity. vm_compute. discriminate. Qed.

(** C6, as the code has it. A document name that contains [..] or is an
    absolute path is rejected by [readFile] and [writeFile] before any
    access to the file system, which stays as it was together with the
    whole state of the server. On the request/response surface the caller
    gets an error body, with code 404 for a read and 500 for a write; on
    an observer's socket the error is caught and written to the server's
    console, and nothing is sent. *)
Theorem invalid_document_name (s : Server.t) (file content : string) (w : nat) :
  Text.includes ".." file = true \/ Path.isAbsolute file = true ->
  ProjectConfigManager.readFile file (Server.fs s) (Server.projectConfig s)
  = Rejected InvalidFilename
  /\ ProjectConfigManager.writeFile file content (Server.fs s) (Server.projectConfig s)
     = (Rejected InvalidFilename, Server.fs s, Server.projectConfig s)
  /\ Server.step s (Server.Http (Server.GetConfig file))
     = (s, [Server.Respond 404 (Server.ErrorBody "File not found")])
  /\ Server.step s (Server.Http (Server.PostConfig file content))
     = (s, [Server.Respond 500 (Server.ErrorBody "Failed to save file")])
  /\ (Server.has_client w s = true ->
      Server.step s (Server.WsMessage w (Some (Server.ConfigRead file)))
      = (s, [Server.Console "Error handling message:"])
      /\ Server.step s (Server.WsMessage w (Some (Server.ConfigWrite file content)))
         = (s, [Server.Console "Error handling message:"])).
Proof.
  intros H.
  assert (ProjectConfigManager.invalid file = true) as Hi.
  { unfold ProjectConfigManager.invalid. destruct H as [-> | ->];
      [reflexivity | apply orb_true_r]. }
  assert (ProjectConfigManager.readFile file (Server.fs s) (Server.projectConfig s)
          = Rejected InvalidFilename) as Er.
  { unfold ProjectConfigManager.readFile. now rewrite Hi. }
  assert (ProjectConfigManager.writeFile file content (Server.fs s) (Server.projectConfig s)
          = (Rejected InvalidFilename, Server.fs s, Server.projectConfig s)) as Ew.
  { unfold ProjectConfigManager.writeFile. now rewrite Hi. }
  split; [exact Er|]. split; [exact Ew|]. split; [|split].
  - simpl. now rewrite Er.
  - simpl. rewrite Ew. now rewrite set_store_same.
  - intros Hw. split; simpl; rewrite Hw; simpl.
    + now rewrite Er.
    + rewrite Ew. now rewrite set_store_same.
Qed.

Lemma invalid_document_name_witness :
  Server.step Scenario.observed
    (Server.WsMessage 0 (Some (Server.ConfigWrite "../outside.md" "text")))
  = (Scenario.observed, [Server.Console "Error handling message:"]).
Proof.
  apply (invalid_document_name Scenario.observed "../outside.md" "text" 0
           (or_introl eq_refl)).
  reflexivity.
Defined.

(** C6, the claim as stated fails: an observer that asks to write a
    document outside the project, or to read one by an absolute path, is
    sent nothing at all. *)
Lemma invalid_document_name_counterexample :
  Server.has_client 0 Scenario.observed = true
  /\ Server.sent_to 0
       (snd (Server.step Scenario.observed
               (Server.WsMessage 0 (Some (Server.ConfigWrite "../outside.md" "text")))))
     = []
  /\ Server.sent_to 0
       (snd (Server.step Scenario.observed
               (Server.WsMessage 0 (Some (Server.ConfigRead "/etc/passwd")))))
     = []
  /\ snd (Server.step Scenario.observed
            (Server.WsMessage 0 (Some (Server.ConfigRead "/etc/passwd"))))
     = [Server.Console "Error handling message:"].
Proof. repeat split; reflexivity. Qed.

End ServerFacts.

(** ** Invariants of the server *)

Section Invariants.

Lemma with_controller_frame
  (f : nat -> LoopController.t -> LoopController.t * list LoopController.Effect)
  (s : Server.t) :
  let s' := fst (Server.with_controller f s) in
  Server.clients s' = Server.clients s
  /\ Server.accepted s' = Server.accepted s
  /\ Server.loopController s' = fst (f (Server.now s) (Server.loopController s)).
Proof.
  unfold Server.with_controller.
  destruct (f (Server.now s) (Server.loopController s)) as [c es]. simpl.
  destruct (on_controller_effects_frame es (Server.set_loopController c s))
    as (? & ? & ? & _).
  repeat split; assumption.
Qed.

Lemma with_watcher_frame
  (f : nat -> FileWatcher.t -> FileWatcher.t * list FileWatcher.Emit)
  (s : Server.t) :
  let s' := fst (Server.with_watcher f s) in
  Server.clients s' = Server.clients s
  /\ Server.accepted s' = Server.accepted s
  /\ Server.loopController s' = Server.loopController s.
Proof.
  unfold Server.with_watcher.
  destruct (f (Server.now s) (Server.fileWatcher s)) as [w es]. simpl. tauto.
Qed.

Lemma fire_timers_frame (limit : nat) (ts : list nat) (s : Server.t) :
  let s' := fst (Server.fire_timers limit ts s) in
  Server.clients s' = Server.clients s
  /\ Server.accepted s' = Server.accepted s
  /\ Server.loopController s' = Server.loopController s.
Proof.
  revert s. induction ts as [|d ts IH]; intros s; simpl; [tauto|].
  destruct (d <=? limit)%nat.
  - pose proof (with_controller_frame LoopController.onGraceTimeout (Server.set_now d s))
      as (C & A & L).
    destruct (Server.with_controller LoopController.onGraceTimeout (Server.set_now d s))
      as [s1 o1].
    specialize (IH s1). destruct (Server.fire_timers limit ts s1) as [s2 o2].
    simpl in *. destruct IH as (C2 & A2 & L2).
    repeat split; try congruence.
    rewrite L2, L. unfold LoopController.onGraceTimeout.
    now destruct (LoopController.process (Server.loopController s)).
  - specialize (IH s). destruct (Server.fire_timers limit ts s) as [s2 o2].
    simpl in *. tauto.
Qed.

Lemma with_controller_hub
  (f : nat -> LoopController.t -> LoopController.t * list LoopController.Effect)
  (s : Server.t) :
  Server.clients (fst (Server.with_controller f s)) = Server.clients s
  /\ Server.accepted (fst (Server.with_controller f s)) = Server.accepted s.
Proof. destruct (with_controller_frame f s) as (? & ? & ?). now split. Qed.

Lemma with_watcher_hub
  (f : nat -> FileWatcher.t -> FileWatcher.t * list FileWatcher.Emit)
  (s : Server.t) :
  Server.clients (fst (Server.with_watcher f s)) = Server.clients s
  /\ Server.accepted (fst (Server.with_watcher f s)) = Server.accepted s.
Proof. destruct (with_watcher_frame f s) as (? & ? & ?). now split. Qed.

(** Which events touch the set of sockets, and how. *)
Lemma step_hub (s : Server.t) (e : Server.Event) :
  let s' := fst (Server.step s e) in
  match e with
  | Server.Connection =>
      Server.clients s'
      = Server.clients_add (Server.mkClient (Server.accepted s) Server.OPEN)
          (Server.clients s)
      /\ Server.accepted s' = S (Server.accepted s)
  | Server.WsClosing w =>
      Server.clients s'
      = map (fun c => if (Server.ws c =? w)%nat
                      then Server.mkClient w Server.CLOSING else c)
          (Server.clients s)
      /\ Server.accepted s' = Server.accepted s
  | Server.WsClose w =>
      Server.clients s' = Server.clients_delete w (Server.clients s)
      /\ Server.accepted s' = Server.accepted s
  | _ =>
      Server.clients s' = Server.clients s
      /\ Server.accepted s' = Server.accepted s
  end.
Proof.
  destruct e as [|w cmd|w|w|r| | |g|d|d|code|msg|f|ms]; simpl.
  - split; reflexivity.
  - destruct (Server.has_client w s); [|split; reflexivity].
    destruct cmd as [[o| |file|file content]|]; simpl.
    + apply with_controller_hub.
    + apply with_controller_hub.
    + destruct (ProjectConfigManager.readFile _ _ _); split; reflexivity.
    + destruct (ProjectConfigManager.writeFile _ _ _ _) as [[[]] ?]; split; reflexivity.
    + split; reflexivity.
  - split; reflexivity.
  - destruct (Server.has_client w s) eqn:H; simpl; [split; reflexivity|].
    split; [|reflexivity]. unfold Server.clients_delete, Server.has_client in *.
    induction (Server.clients s) as [|c l IH]; [reflexivity|].
    simpl in H. apply orb_false_elim in H as [H1 H2].
    rewrite filter_cons. destruct (decide (Server.ws c ≠ w)) as [_|K].
    + f_equal. now apply IH.
    + apply Nat.eqb_neq in H1. contradiction.
  - destruct r as [|file|file content|o|]; simpl.
    + split; reflexivity.
    + destruct (ProjectConfigManager.readFile _ _ _); split; reflexivity.
    + destruct (ProjectConfigManager.writeFile _ _ _ _) as [[[]] ?]; split; reflexivity.
    + pose proof (with_controller_frame
                    (LoopController.start o
                       (Server.os s (LoopController.spawned (Server.loopController s)))) s)
        as H.
      unfold Server.loop_start. destruct (Server.with_controller _ s). simpl in *. tauto.
    + pose proof (with_controller_frame LoopController.stop s) as H.
      unfold Server.loop_stop. destruct (Server.with_controller _ s). simpl in *. tauto.
  - apply with_watcher_hub.
  - apply with_watcher_hub.
  - apply (with_watcher_hub (fun _ => FileWatcher.updateGitStatus g)).
  - destruct (Server.has_child s); [apply with_controller_hub | split; reflexivity].
  - destruct (Server.has_child s); [apply with_controller_hub | split; reflexivity].
  - destruct (Server.has_child s); [apply with_controller_hub | split; reflexivity].
  - destruct (Server.has_child s); [apply with_controller_hub | split; reflexivity].
  - split; reflexivity.
  - pose proof (fire_timers_frame (Server.now s + ms) (Server.timers s) s) as H.
    destruct (Server.fire_timers _ _ s). simpl in *. tauto.
Qed.

Lemma sends_below_mono (n m : nat) (out : list Server.Output) :
  n <= m -> Server.sends_below n out -> Server.sends_below m out.
Proof.
  intros L H. unfold Server.sends_below in *.
  eapply Forall_impl; [exact H|]. intros [] ?; try exact I. simpl in *. lia.
Qed.

Lemma broadcast_below (n : nat) (m : Server.Message) (cs : list Server.Client) :
  Forall (fun c => Server.ws c < n) cs -> Server.sends_below n (Server.broadcast m cs).
Proof.
  unfold Server.broadcast, Server.sends_below. intros H.
  induction H as [|c l Hc Hl IH]; [constructor|].
  rewrite filter_cons. destruct (decide _); simpl; [constructor|]; assumption.
Qed.

Lemma on_controller_effects_below
  (n : nat) (es : list LoopController.Effect) (s : Server.t) :
  Forall (fun c => Server.ws c < n) (Server.clients s) ->
  Server.sends_below n (snd (Server.on_controller_effects s es)).
Proof.
  revert s. induction es as [|e es IH]; intros s H; simpl; [constructor|].
  destruct (Server.on_controller_effect s e) as [s1 o1] eqn:E1.
  assert (Server.clients s1 = Server.clients s /\ Server.sends_below n o1) as [C B].
  { destruct e; simpl in E1; injection E1 as <- <-; simpl; split; try reflexivity;
      try (apply broadcast_below; assumption);
      unfold Server.sends_below; repeat constructor. }
  specialize (IH s1). rewrite C in IH. specialize (IH H).
  destruct (Server.on_controller_effects s1 es) as [s2 o2]. simpl in *.
  apply Forall_app. now split.
Qed.

Lemma with_controller_below
  (n : nat)
  (f : nat -> LoopController.t -> LoopController.t * list LoopController.Effect)
  (s : Server.t) :
  Forall (fun c => Server.ws c < n) (Server.clients s) ->
  Server.sends_below n (snd (Server.with_controller f s)).
Proof.
  intros H. unfold Server.with_controller.
  destruct (f (Server.now s) (Server.loopController s)) as [c es].
  now apply on_controller_effects_below.
Qed.

Lemma with_watcher_below
  (n : nat)
  (f : nat -> FileWatcher.t -> FileWatcher.t * list FileWatcher.Emit)
  (s : Server.t) :
  Forall (fun c => Server.ws c < n) (Server.clients s) ->
  Server.sends_below n (snd (Server.with_watcher f s)).
Proof.
  intros H. unfold Server.with_watcher.
  destruct (f (Server.now s) (Server.fileWatcher s)) as [w es]. simpl.
  induction es as [|e es IH]; simpl; [constructor|].
  apply Forall_app. split; [|exact IH].
  destruct e; simpl; now apply broadcast_below.
Qed.

Lemma fire_timers_below (n limit : nat) (ts : list nat) (s : Server.t) :
  Forall (fun c => Server.ws c < n) (Server.clients s) ->
  Server.sends_below n (snd (Server.fire_timers limit ts s)).
Proof.
  revert s. induction ts as [|d ts IH]; intros s H; simpl; [constructor|].
  destruct (d <=? limit)%nat.
  - pose proof (with_controller_below n LoopController.onGraceTimeout (Server.set_now d s) H)
      as B.
    pose proof (with_controller_hub LoopController.onGraceTimeout (Server.set_now d s))
      as [C _].
    destruct (Server.with_controller LoopController.onGraceTimeout (Server.set_now d s))
      as [s1 o1].
    simpl in *. specialize (IH s1). rewrite C in IH. specialize (IH H).
    destruct (Server.fire_timers limit ts s1) as [s2 o2]. simpl in *.
    apply Forall_app. now split.
  - specialize (IH s H). destruct (Server.fire_timers limit ts s) as [s2 o2].
    exact IH.
Qed.

Lemma has_client_below (n w : nat) (s : Server.t) :
  Forall (fun c => Server.ws c < n) (Server.clients s) ->
  Server.has_client w s = true -> w < n.
Proof.
  unfold Server.has_client. intros H. induction H as [|c l Hc Hl IH]; simpl;
    [discriminate|].
  intros K. apply orb_true_iff in K as [K | K]; [|now apply IH].
  apply Nat.eqb_eq in K. lia.
Qed.

(** Every [send] of a step is on a socket accepted by the end of it. *)
Lemma step_below (s : Server.t) (e : Server.Event) :
  Forall (fun c => Server.ws c < Server.accepted s) (Server.clients s) ->
  Server.sends_below (Server.accepted s) (snd (Server.step s e))
  \/ (e = Server.Connection
      /\ Server.sends_below (S (Server.accepted s)) (snd (Server.step s e))).
Proof.
  intros H.
  destruct e as [|w cmd|w|w|r| | |g|d|d|code|msg|f|ms]; simpl.
  - right. split; [reflexivity|]. unfold Server.sends_below.
    repeat constructor.
  - left. destruct (Server.has_client w s) eqn:Hw; [|constructor].
    pose proof (has_client_below _ _ _ H Hw) as Lw.
    destruct cmd as [[o| |file|file content]|]; simpl.
    + now apply with_controller_below.
    + now apply with_controller_below.
    + destruct (ProjectConfigManager.readFile _ _ _); repeat constructor. exact Lw.
    + destruct (ProjectConfigManager.writeFile _ _ _ _) as [[[]] ?];
        repeat constructor. exact Lw.
    + repeat constructor.
  - left. constructor.
  - left. destruct (Server.has_client w s); repeat constructor.
  - left. destruct r as [|file|file content|o|]; simpl.
    + repeat constructor.
    + destruct (ProjectConfigManager.readFile _ _ _); repeat constructor.
    + destruct (ProjectConfigManager.writeFile _ _ _ _) as [[[]] ?]; repeat constructor.
    + pose proof (with_controller_below (Server.accepted s)
                    (LoopController.start o
                       (Server.os s (LoopController.spawned (Server.loopController s)))) s H)
        as B.
      unfold Server.loop_start. destruct (Server.with_controller _ s). simpl in *.
      apply Forall_app. split; [exact B | repeat constructor].
    + pose proof (with_controller_below (Server.accepted s) LoopController.stop s H) as B.
      unfold Server.loop_stop. destruct (Server.with_controller _ s). simpl in *.
      apply Forall_app. split; [exact B | repeat constructor].
  - left. now apply with_watcher_below.
  - left. now apply with_watcher_below.
  - left. now apply (with_watcher_below _ (fun _ => FileWatcher.updateGitStatus g)).
  - left. destruct (Server.has_child s); [now apply with_controller_below | constructor].
  - left. destruct (Server.has_child s); [now apply with_controller_below | constructor].
  - left. destruct (Server.has_child s); [now apply with_controller_below | constructor].
  - left. destruct (Server.has_child s); [now apply with_controller_below | constructor].
  - left. constructor.
  - left. pose proof (fire_timers_below (Server.accepted s) (Server.now s + ms)
                        (Server.timers s) s H) as B.
    destruct (Server.fire_timers _ _ s). exact B.
Qed.

Lemma stdout_lines_keeps (now : nat) (lines : list string) (c : LoopController.t) :
  LoopController.process (fst (LoopController.stdout_lines now lines c))
  = LoopController.process c
  /\ LoopStatus.running
       (LoopController.status (fst (LoopController.stdout_lines now lines c)))
     = LoopStatus.running (LoopController.status c).
Proof.
  revert c. induction lines as [|l lines IH]; intros c; simpl; [tauto|].
  destruct (LoopController.stdout_line now l c) as [c1 e1] eqn:E1.
  specialize (IH c1). destruct (LoopController.stdout_lines now lines c1) as [c2 e2].
  simpl in *. unfold LoopController.stdout_line in E1.
  destruct (LoopController.iterMatch l); injection E1 as <- _; simpl in IH; exact IH.
Qed.

(** Every method of the controller keeps handle and status in step. *)
Lemma controller_methods_ok (c : LoopController.t) :
  LoopController.consistent c ->
  (forall o p now, LoopController.consistent (fst (LoopController.start o p now c)))
  /\ (forall now, LoopController.consistent (fst (LoopController.stop now c)))
  /\ (forall now, LoopController.consistent (fst (LoopController.onGraceTimeout now c)))
  /\ (forall d now, LoopController.consistent (fst (LoopController.onStdout d now c)))
  /\ (forall d now, LoopController.consistent (fst (LoopController.onStderr d now c)))
  /\ (forall code now, LoopController.consistent (fst (LoopController.onClose code now c)))
  /\ (forall m now, LoopController.consistent (fst (LoopController.onError m now c))).
Proof.
  intros H.
  assert (forall st n, LoopController.consistent
                         (LoopController.mk (LoopController.projectPath c) None
                            (LoopController.stopped st) n)) as Hstopped.
  { intros st n. unfold LoopController.consistent. simpl. split.
    - intros [x K]. discriminate K.
    - discriminate. }
  split; [|split; [|split; [|split; [|split; [|split]]]]].
  - intros o p now. unfold LoopController.start.
    destruct (LoopController.process c); simpl; [exact H|].
    unfold LoopController.consistent. simpl. split; [reflexivity | eauto].
  - intros now. unfold LoopController.stop.
    destruct (LoopController.process c); exact H.
  - intros now. unfold LoopController.onGraceTimeout.
    destruct (LoopController.process c); exact H.
  - intros d now. unfold LoopController.onStdout, LoopController.consistent.
    destruct (stdout_lines_keeps now (Text.chunk_lines d) c) as [-> ->]. exact H.
  - intros d now. exact H.
  - intros code now. apply Hstopped.
  - intros m now. apply Hstopped.
Qed.

Lemma step_controller_ok (s : Server.t) (e : Server.Event) :
  LoopController.consistent (Server.loopController s) ->
  LoopController.consistent (Server.loopController (fst (Server.step s e))).
Proof.
  intros H.
  destruct (controller_methods_ok _ H) as (Hstart & Hstop & Hgrace & Hout & Herr & Hclose & Herror).
  assert (forall f, LoopController.consistent
                      (fst (f (Server.now s) (Server.loopController s))) ->
                    LoopController.consistent
                      (Server.loopController (fst (Server.with_controller f s)))) as Hc.
  { intros f K. destruct (with_controller_frame f s) as (_ & _ & ->). exact K. }
  assert (forall f, LoopController.consistent
                      (Server.loopController (fst (Server.with_watcher f s)))) as Hw.
  { intros f. destruct (with_watcher_frame f s) as (_ & _ & ->). exact H. }
  destruct e as [|w cmd|w|w|r| | |g|d|d|code|msg|f|ms]; simpl; try exact H;
    try apply Hw.
  - destruct (Server.has_client w s); [|exact H].
    destruct cmd as [[o| |file|file content]|]; simpl; try exact H.
    + apply Hc, Hstart.
    + apply Hc, Hstop.
    + destruct (ProjectConfigManager.readFile _ _ _); exact H.
    + destruct (ProjectConfigManager.writeFile _ _ _ _) as [[[]] ?]; exact H.
  - destruct (Server.has_client w s); exact H.
  - destruct r as [|file|file content|o|]; simpl; try exact H.
    + destruct (ProjectConfigManager.readFile _ _ _); exact H.
    + destruct (ProjectConfigManager.writeFile _ _ _ _) as [[[]] ?]; exact H.
    + pose proof (Hc (LoopController.start o
                            (Server.os s (LoopController.spawned (Server.loopController s))))
                    (Hstart o _ _)) as K.
      unfold Server.loop_start. destruct (Server.with_controller _ s). exact K.
    + pose proof (Hc LoopController.stop (Hstop _)) as K.
      unfold Server.loop_stop. destruct (Server.with_controller _ s). exact K.
  - destruct (Server.has_child s); [apply Hc, Hout | exact H].
  - destruct (Server.has_child s); [apply Hc, Herr | exact H].
  - destruct (Server.has_child s); [apply Hc, Hclose | exact H].
  - destruct (Server.has_child s); [apply Hc, Herror | exact H].
  - pose proof (fire_timers_frame (Server.now s + ms) (Server.timers s) s) as (_ & _ & K).
    destruct (Server.fire_timers _ _ s). simpl in *. now rewrite K.
Qed.

Lemma clients_delete_wf (n w : nat) (cs : list Server.Client) :
  Forall (fun c => Server.ws c < n) cs -> NoDup (map Server.ws cs) ->
  Forall (fun c => Server.ws c < n) (Server.clients_delete w cs)
  /\ NoDup (map Server.ws (Server.clients_delete w cs))
  /\ ~ In w (map Server.ws (Server.clients_delete w cs))
  /\ (forall x, In x (map Server.ws (Server.clients_delete w cs)) ->
      In x (map Server.ws cs)).
Proof.
  unfold Server.clients_delete. intros HF.
  induction HF as [|c l Hc Hl IH]; simpl; intros HN.
  - repeat split; [constructor | constructor | tauto | tauto].
  - apply NoDup_cons in HN as [Hnotin HN]. destruct (IH HN) as (F & N & D & S).
    rewrite filter_cons. destruct (decide (Server.ws c ≠ w)) as [K|K]; simpl.
    + repeat split.
      * now constructor.
      * apply NoDup_cons. split; [|assumption].
        intros Hin. apply Hnotin. apply list_elem_of_In. apply S.
        now apply list_elem_of_In.
      * intros [E | Hin]; [congruence | tauto].
      * intros x [E | Hin]; [now left | right; now apply S].
    + repeat split; try assumption. intros x Hin. right. now apply S.
Qed.

(** The invariant holds at the start and is kept by every event. *)
Lemma init_wf (pp : string) (os : nat -> option nat) (fs : Fs.t) :
  Server.wf (Server.init pp os fs).
Proof.
  repeat split; simpl; try constructor.
  - intros [x K]. discriminate K.
  - discriminate.
Qed.

Lemma step_wf (s : Server.t) (e : Server.Event) :
  Server.wf s -> Server.wf (fst (Server.step s e)).
Proof.
  intros (HF & HN & HC). split; [|split]; [| |now apply step_controller_ok].
  - pose proof (step_hub s e) as H.
    destruct e; lazy beta iota zeta in H; destruct H as [-> ->]; try assumption.
    + unfold Server.clients_add.
      replace (existsb _ (Server.clients s)) with false.
      * apply Forall_app. split.
        -- eapply Forall_impl; [exact HF|]. simpl. intros; lia.
        -- repeat constructor.
      * symmetry. apply not_true_is_false. intros K.
        pose proof (has_client_below _ (Server.accepted s) s HF K). lia.
    + clear HN. induction HF as [|c l Hc Hl IH]; simpl; constructor; [|assumption].
      destruct (Server.ws c =? w)%nat eqn:E; [|assumption].
      apply Nat.eqb_eq in E. simpl. lia.
    + now apply (clients_delete_wf (Server.accepted s) w (Server.clients s)).
  - pose proof (step_hub s e) as H.
    destruct e; lazy beta iota zeta in H; destruct H as [-> _]; try assumption.
    + unfold Server.clients_add.
      replace (existsb _ (Server.clients s)) with false.
      * rewrite map_app. simpl. apply NoDup_app. repeat split.
        -- assumption.
        -- intros x Hx Hx'. apply list_elem_of_In in Hx'. destruct Hx' as [E2 | []].
           apply list_elem_of_In, in_map_iff in Hx. destruct Hx as (c & E & Hin).
           rewrite List.Forall_forall in HF. apply HF in Hin. lia.
        -- apply NoDup_singleton.
      * symmetry. apply not_true_is_false. intros K.
        pose proof (has_client_below _ (Server.accepted s) s HF K). lia.
    + replace (map Server.ws (map _ (Server.clients s)))
        with (map Server.ws (Server.clients s)); [assumption|].
      rewrite map_map. apply map_ext. intros c.
      destruct (Server.ws c =? w)%nat eqn:E; [|reflexivity].
      apply Nat.eqb_eq in E. now simpl.
    + now apply (clients_delete_wf (Server.accepted s) w (Server.clients s)).
Qed.

Lemma run_app (s : Server.t) (es1 es2 : list Server.Event) :
  Server.run s (es1 ++ es2)
  = (fst (Server.run (fst (Server.run s es1)) es2),
     (snd (Server.run s es1) ++ snd (Server.run (fst (Server.run s es1)) es2))%list).
Proof.
  revert s. induction es1 as [|e es1 IH]; intros s; simpl.
  - now destruct (Server.run s es2).
  - destruct (Server.step s e) as [s1 o1]. rewrite IH.
    destruct (Server.run s1 es1) as [s2 o2]. simpl.
    now rewrite app_assoc.
Qed.

Lemma run_wf (s : Server.t) (es : list Server.Event) :
  Server.wf s -> Server.wf (fst (Server.run s es)).
Proof.
  revert s. induction es as [|e es IH]; intros s H; simpl; [exact H|].
  pose proof (step_wf s e H) as H1. destruct (Server.step s e) as [s1 o1].
  specialize (IH s1 H1). now destruct (Server.run s1 es).
Qed.

(** Every state reached from the start satisfies the invariant. *)
Lemma reachable_wf (pp : string) (os : nat -> option nat) (fs : Fs.t)
  (es : list Server.Event) :
  Server.wf (fst (Server.run (Server.init pp os fs) es)).
Proof. apply run_wf, init_wf. Qed.

Lemma step_accepted (s : Server.t) (e : Server.Event) :
  Server.accepted s <= Server.accepted (fst (Server.step s e)).
Proof.
  pose proof (step_hub s e) as H.
  destruct e; lazy beta iota zeta in H; destruct H as [_ ->]; lia.
Qed.

(** Up to any moment, nothing has been sent on a socket not yet accepted. *)
Lemma run_below (s : Server.t) (es : list Server.Event) :
  Server.wf s ->
  Server.accepted s <= Server.accepted (fst (Server.run s es))
  /\ Server.sends_below (Server.accepted (fst (Server.run s es))) (snd (Server.run s es)).
Proof.
  revert s. induction es as [|e es IH]; intros s H; simpl.
  - split; [lia | constructor].
  - pose proof (step_wf s e H) as H1.
    pose proof (step_accepted s e) as A1.
    pose proof (step_below s e (proj1 H)) as B1.
    pose proof (step_hub s e) as Hhub.
    destruct (Server.step s e) as [s1 o1]. simpl in *.
    destruct (IH s1 H1) as [A2 B2].
    destruct (Server.run s1 es) as [s2 o2]. simpl in *.
    split; [lia|]. apply Forall_app. split; [|exact B2].
    destruct B1 as [B1 | [-> B1]].
    + eapply sends_below_mono; [|exact B1]. lia.
    + eapply sends_below_mono; [|exact B1]. destruct Hhub as [_ Ha]. lia.
Qed.

Lemma sent_to_app (w : nat) (a b : list Server.Output) :
  Server.sent_to w (a ++ b) = (Server.sent_to w a ++ Server.sent_to w b)%list.
Proof. unfold Server.sent_to. apply omap_app. Qed.

Lemma sent_to_below (n w : nat) (out : list Server.Output) :
  Server.sends_below n out -> n <= w -> Server.sent_to w out = [].
Proof.
  intros H L. induction H as [|o l Ho Hl IH]; [reflexivity|].
  unfold Server.sent_to in *. simpl. destruct o; try exact IH.
  destruct (Nat.eqb_spec ws w); [lia | exact IH].
Qed.

Lemma sent_to_cons (w w' : nat) (m : Server.Message) (out : list Server.Output) :
  Server.sent_to w (Server.Send w' m :: out)
  = if (w' =? w)%nat then m :: Server.sent_to w out else Server.sent_to w out.
Proof. unfold Server.sent_to. simpl. now destruct (w' =? w)%nat. Qed.

Lemma broadcast_cons (m : Server.Message) (c : Server.Client) (l : list Server.Client) :
  Server.broadcast m (c :: l)
  = if Server.is_open (Server.readyState c)
    then Server.Send (Server.ws c) m :: Server.broadcast m l
    else Server.broadcast m l.
Proof.
  unfold Server.broadcast. rewrite filter_cons.
  destruct (decide _) as [-> | H]; [reflexivity|].
  now destruct (Server.is_open (Server.readyState c)).
Qed.

Lemma sent_to_absent (w : nat) (m : Server.Message) (cs : list Server.Client) :
  ~ In w (map Server.ws cs) ->
  Server.sent_to w (Server.broadcast m cs) = [].
Proof.
  induction cs as [|c l IH]; simpl; intros H; [reflexivity|].
  rewrite broadcast_cons. destruct (Server.is_open _).
  - rewrite sent_to_cons.
    destruct (Nat.eqb_spec (Server.ws c) w); [tauto | apply IH; tauto].
  - apply IH; tauto.
Qed.

(** A broadcast puts the message once on each open socket of the set, and
    not on the others. *)
Lemma broadcast_sent (m : Server.Message) (cs : list Server.Client) (c : Server.Client) :
  NoDup (map Server.ws cs) -> In c cs ->
  Server.sent_to (Server.ws c) (Server.broadcast m cs)
  = if Server.is_open (Server.readyState c) then [m] else [].
Proof.
  induction cs as [|c0 l IH]; simpl; intros HN Hin; [contradiction|].
  apply NoDup_cons in HN as [Hnotin HN].
  assert (~ In (Server.ws c0) (map Server.ws l)) as Hnot'.
  { intros K. apply Hnotin. now apply list_elem_of_In. }
  rewrite broadcast_cons.
  destruct Hin as [-> | Hin].
  - destruct (Server.is_open (Server.readyState c)).
    + rewrite sent_to_cons, Nat.eqb_refl. now rewrite sent_to_absent.
    + now rewrite sent_to_absent.
  - assert (Server.ws c0 <> Server.ws c) as Hne.
    { intros E. apply Hnot'. rewrite E. now apply in_map. }
    destruct (Server.is_open (Server.readyState c0)).
    + rewrite sent_to_cons.
      destruct (Nat.eqb_spec (Server.ws c0) (Server.ws c)); [contradiction|].
      now apply IH.
    + now apply IH.
Qed.

End Invariants.

(** ** Fan-out and reconciliation *)

Section Hub.

(** C5, as the code has it. In a state of the server where each socket of
    the set is there once, a broadcast sends the message once on every
    socket that is open and on no other, whatever the state of the rest;
    the set changes only when a socket is accepted, starts to close or
    emits its close event, so no event of a producer removes a socket; and
    the close event of a socket removes it. *)
Theorem broadcast_skips_closed (s : Server.t) (m : Server.Message) (e : Server.Event) :
  Server.wf s ->
  (forall c, In c (Server.clients s) ->
     Server.sent_to (Server.ws c) (Server.broadcast m (Server.clients s))
     = if Server.is_open (Server.readyState c) then [m] else [])
  /\ match e with
     | Server.Connection | Server.WsClosing _ | Server.WsClose _ => True
     | _ => Server.clients (fst (Server.step s e)) = Server.clients s
     end
  /\ (forall w, ~ In w (map Server.ws (Server.clients (fst (Server.step s (Server.WsClose w)))))).
Proof.
  intros (HF & HN & _). split; [|split].
  - intros c Hin. now apply broadcast_sent.
  - pose proof (step_hub s e) as H.
    destruct e; lazy beta iota zeta in H; try exact I; apply H.
  - intros w. destruct (step_hub s (Server.WsClose w)) as [-> _].
    now apply (clients_delete_wf (Server.accepted s) w (Server.clients s)).
Qed.

Lemma broadcast_skips_closed_witness :
  (forall c, In c (Server.clients Scenario.closing) ->
     Server.sent_to (Server.ws c)
       (Server.broadcast (Server.GitUpdateMsg Scenario.git_main)
          (Server.clients Scenario.closing))
     = if Server.is_open (Server.readyState c)
       then [Server.GitUpdateMsg Scenario.git_main] else [])
  /\ Server.clients
       (fst (Server.step Scenario.closing (Server.GitTick (Some Scenario.git_main))))
     = Server.clients Scenario.closing
  /\ (forall w, ~ In w (map Server.ws
                         (Server.clients
                            (fst (Server.step Scenario.closing (Server.WsClose w)))))).
Proof.
  apply (broadcast_skips_closed Scenario.closing
           (Server.GitUpdateMsg Scenario.git_main)
           (Server.GitTick (Some Scenario.git_main))).
  apply (reachable_wf "/srv/project" Scenario.os (Fs.mk ∅ ∅)
           [Server.Connection; Server.Connection; Server.WsClosing 0]).
Defined.

(** C5, the claim as stated fails: the first of two sockets has begun to
    close when the repository status is broadcast; the message goes to
    the second socket, and the first is still in the set afterwards. *)
Lemma broadcast_skips_closed_counterexample :
  Server.clients Scenario.closing
  = [Server.mkClient 0 Server.CLOSING; Server.mkClient 1 Server.OPEN]
  /\ snd (Server.step Scenario.closing (Server.GitTick (Some Scenario.git_main)))
     = [Server.Send 1 (Server.GitUpdateMsg Scenario.git_main)]
  /\ Server.clients
       (fst (Server.step Scenario.closing (Server.GitTick (Some Scenario.git_main))))
     = [Server.mkClient 0 Server.CLOSING; Server.mkClient 1 Server.OPEN]
  /\ In 0 (map Server.ws
             (Server.clients
                (fst (Server.step Scenario.closing
                        (Server.GitTick (Some Scenario.git_main)))))).
Proof. repeat split; try reflexivity. left. reflexivity. Qed.

(** C7. At whatever moment of a run of the server a socket is accepted,
    nothing has been sent on it before; the connection itself sends on it
    the status of the loop, the checklist, the repository status and the
    configuration as they are at that moment, in this order; so these are
    the first messages of all that the socket ever carries. The status
    sent is the one the controller holds, iteration count included, and
    it says running whenever a process handle is held at that moment. *)
Theorem connect_snapshots
  (pp : string) (os : nat -> option nat) (fs : Fs.t) (before after : list Server.Event) :
  let s := fst (Server.run (Server.init pp os fs) before) in
  let w := Server.accepted s in
  let snapshots :=
    [Server.LoopStatusMsg (LoopController.getStatus (Server.loopController s));
     Server.TasksUpdateMsg (FileWatcher.getTasks (Server.fileWatcher s));
     Server.GitUpdateMsg (FileWatcher.getGitStatus (Server.fileWatcher s));
     Server.ConfigUpdateMsg (ProjectConfigManager.getConfig (Server.projectConfig s))] in
  Server.sent_to w (snd (Server.run (Server.init pp os fs) before)) = []
  /\ Server.sent_to w (snd (Server.step s Server.Connection)) = snapshots
  /\ (exists rest,
        Server.sent_to w
          (snd (Server.run (Server.init pp os fs) (before ++ Server.Connection :: after)))
        = (snapshots ++ rest)%list)
  /\ (is_Some (LoopController.process (Server.loopController s)) ->
      LoopStatus.running (LoopController.getStatus (Server.loopController s)) = true).
Proof.
  intros s w snapshots.
  pose proof (reachable_wf pp os fs before) as Hwf. fold s in Hwf.
  destruct (run_below (Server.init pp os fs) before (init_wf pp os fs)) as [_ B].
  fold s in B. fold w in B.
  assert (Server.sent_to w (snd (Server.run (Server.init pp os fs) before)) = []) as E0.
  { eapply sent_to_below; [exact B | lia]. }
  assert (Server.sent_to w (snd (Server.step s Server.Connection)) = snapshots) as E1.
  { simpl. unfold Server.sent_to. simpl. fold w. now rewrite Nat.eqb_refl. }
  split; [exact E0|]. split; [exact E1|]. split.
  - rewrite run_app. fold s. cbn [snd]. rewrite sent_to_app, E0.
    change (Server.run s (Server.Connection :: after))
      with (let '(s1, o1) := Server.step s Server.Connection in
            let '(s2, o2) := Server.run s1 after in (s2, (o1 ++ o2)%list)).
    destruct (Server.step s Server.Connection) as [s1 o1] eqn:Es.
    destruct (Server.run s1 after) as [s2 o2]. cbn [snd fst] in *.
    rewrite sent_to_app, E1. eexists. reflexivity.
  - intros Hp. destruct Hwf as (_ & _ & Hc). now apply Hc.
Qed.

End Hub.

(** ** The command line and the grace timer *)

Section Supervisor.

(** C8, as the code has it. A start with no process handle held creates
    one child, [bash] on the project's [loop.sh]; the arguments after the
    script and the environment overlay are the values of [build_args] and
    [env_overlay], functions of the mode, the iteration limit and the
    scope alone. The overlay sets [WORK_SCOPE] to the scope, empty when
    there is none. In the mode that takes a scope, a non-empty scope is
    also the positional argument after [plan-work]; in the other modes
    the arguments do not depend on the scope. *)
Theorem start_command
  (c : LoopController.t) (o : LoopController.Options) (ospid : option nat) (now : nat) :
  LoopController.process c = None ->
  (exists st,
     snd (LoopController.start o ospid now c)
     = [LoopController.emitLog now (LoopController.start_message o) info;
        LoopController.Spawn (LoopController.spawned c) "bash"
          (Path.join (LoopController.projectPath c) "loop.sh"
             :: LoopController.build_args o)
          (LoopController.projectPath c) (LoopController.env_overlay o);
        LoopController.EmitStatus st])
  /\ LoopController.env_overlay o
     = [("WORK_SCOPE",
         match LoopController.workScope o with Some w => w | None => "" end)]
  /\ (forall w, LoopController.mode o = ModePlanWork ->
       LoopController.workScope o = Some w -> w <> "" ->
       LoopController.build_args o = ["plan-work"; w])
  /\ (LoopController.mode o <> ModePlanWork ->
      LoopController.build_args o
      = LoopController.build_args
          (LoopController.mkOptions (LoopController.mode o)
             (LoopController.maxIterations o) None)).
Proof.
  intros H. split; [|split; [|split]].
  - unfold LoopController.start. rewrite H. eexists. reflexivity.
  - unfold LoopController.env_overlay.
    destruct (LoopController.workScope o) as [[|a w]|]; reflexivity.
  - intros w Hm Hw Hne. unfold LoopController.build_args. rewrite Hm, Hw.
    destruct w; [contradiction | reflexivity].
  - intros Hm. unfold LoopController.build_args.
    destruct (LoopController.mode o); [reflexivity | reflexivity | contradiction | reflexivity].
Qed.

Lemma start_command_witness :
  exists st,
    snd (LoopController.start Scenario.scoped (Some 4000) 0
           (LoopController.create "/srv/project"))
    = [LoopController.emitLog 0 "Starting loop: plan-work" info;
       LoopController.Spawn 0 "bash"
         ["/srv/project/loop.sh"; "plan-work"; "login page; rm -rf /"]
         "/srv/project" [("WORK_SCOPE", "login page; rm -rf /")];
       LoopController.EmitStatus st].
Proof.
  apply (proj1 (start_command (LoopController.create "/srv/project") Scenario.scoped
                  (Some 4000) 0 eq_refl)).
Defined.

(** C8, the claim as stated fails: started in the mode that takes a scope,
    the child gets the scope text as its third argument, besides the
    variable of the environment. *)
Lemma start_command_counterexample :
  LoopController.build_args Scenario.scoped = ["plan-work"; "login page; rm -rf /"]
  /\ In "login page; rm -rf /" (LoopController.build_args Scenario.scoped)
  /\ Server.spawns
       (snd (Server.step Scenario.fresh
               (Server.Http (Server.PostLoopStart Scenario.scoped))))
     = [Server.SpawnChild 0 "bash"
          ["/srv/project/loop.sh"; "plan-work"; "login page; rm -rf /"]
          "/srv/project" [("WORK_SCOPE", "login page; rm -rf /")]].
Proof. repeat split; try reflexivity. right. left. reflexivity. Qed.

(** C1, the code at the failing input: a run is stopped, its process
    exits within the grace period, and a new run is started before the
    timer fires. The timer is still armed; when it fires it finds a
    process handle, that of the new run, and the forced-termination
    signal goes to the new process. And a second stop within the grace
    period arms a second timer, so a process that has not exited gets the
    forced-termination signal twice. *)
Theorem stale_grace_timer :
  Server.kills (snd (Server.run Scenario.fresh Scenario.restart_in_grace))
  = [(0, LoopController.SIGINT); (1, LoopController.SIGKILL)]
  /\ Server.spawns (snd (Server.run Scenario.fresh Scenario.restart_in_grace))
     = [Server.SpawnChild 0 "bash" ["/srv/project/loop.sh"] "/srv/project"
          [("WORK_SCOPE", "")];
        Server.SpawnChild 1 "bash" ["/srv/project/loop.sh"] "/srv/project"
          [("WORK_SCOPE", "")]]
  /\ Server.now (fst (Server.run Scenario.fresh Scenario.restart_in_grace)) = 5000
  /\ Server.kills (snd (Server.run Scenario.fresh Scenario.stop_twice))
     = [(0, LoopController.SIGINT); (0, LoopController.SIGINT);
        (0, LoopController.SIGKILL); (0, LoopController.SIGKILL)].
Proof. repeat split; vm_compute; reflexivity. Qed.

Lemma kills_app (a b : list Server.Output) :
  Server.kills (a ++ b) = (Server.kills a ++ Server.kills b)%list.
Proof. unfold Server.kills. apply omap_app. Qed.

Lemma kills_sends (m : Server.Message) (l : list Server.Client) :
  Server.kills (map (fun c => Server.Send (Server.ws c) m) l) = [].
Proof. unfold Server.kills. induction l; [reflexivity|assumption]. Qed.

Lemma kills_broadcast (m : Server.Message) (cs : list Server.Client) :
  Server.kills (Server.broadcast m cs) = [].
Proof.
  unfold Server.broadcast, Server.kills.
  induction (filter _ cs); [reflexivity|assumption].
Qed.

Lemma stop_step (s : Server.t) (h : LoopController.Handle) :
  LoopController.process (Server.loopController s) = Some h ->
  Server.loop_stop s
  = (Server.set_timers (Server.timers s ++ [Server.now s + LoopController.GRACE])%list s,
     (Server.broadcast
        (Server.LoopLogMsg (LogEntry.mk (Server.now s) "Stopping loop..." info))
        (Server.clients s)
      ++ [Server.KillChild h LoopController.SIGINT])%list).
Proof.
  intros H. unfold Server.loop_stop, Server.with_controller, LoopController.stop.
  rewrite H. rewrite set_loopController_same. simpl. reflexivity.
Qed.

Lemma grace_step (s : Server.t) (h : LoopController.Handle) (d : nat) :
  LoopController.process (Server.loopController s) = Some h ->
  Server.with_controller LoopController.onGraceTimeout (Server.set_now d s)
  = (Server.set_now d s,
     (Server.broadcast
        (Server.LoopLogMsg (LogEntry.mk d "Force killing loop..." warning))
        (Server.clients s)
      ++ [Server.KillChild h LoopController.SIGKILL])%list).
Proof.
  intros H. unfold Server.with_controller, LoopController.onGraceTimeout.
  destruct s; simpl in *. rewrite H. reflexivity.
Qed.

Lemma grace_step_idle (s : Server.t) (d : nat) :
  LoopController.process (Server.loopController s) = None ->
  Server.with_controller LoopController.onGraceTimeout (Server.set_now d s)
  = (Server.set_now d s, []).
Proof.
  intros H. unfold Server.with_controller, LoopController.onGraceTimeout.
  destruct s; simpl in *. rewrite H. reflexivity.
Qed.

#[local] Opaque LoopController.GRACE.

(** X3.  One stop of a running process with no timer armed: the interrupt goes
    out at once, and the forced termination goes out once, when the grace
    period has passed and not before, if the process has not exited. *)
Lemma grace_timer_fires_once (s : Server.t) (h : LoopController.Handle) (d : nat) :
  LoopController.process (Server.loopController s) = Some h ->
  Server.timers s = [] ->
  Server.kills (snd (Server.run s [Server.Http Server.PostLoopStop; Server.Advance d]))
  = if (LoopController.GRACE <=? d)%nat
    then [(h, LoopController.SIGINT); (h, LoopController.SIGKILL)]
    else [(h, LoopController.SIGINT)].
Proof.
  intros H T.
  cbn [Server.run Server.step Server.on_request].
  rewrite (stop_step s h H), T.
  cbn [app fst snd Server.timers Server.set_timers Server.now Server.fire_timers].
  destruct (Nat.leb_spec LoopController.GRACE d) as [L | L].
  - destruct (Nat.leb_spec (Server.now s + LoopController.GRACE) (Server.now s + d));
      [|lia].
    rewrite (grace_step _ h) by (destruct s; exact H).
    cbn. rewrite !kills_app, ?kills_broadcast, ?kills_sends. reflexivity.
  - destruct (Nat.leb_spec (Server.now s + LoopController.GRACE) (Server.now s + d));
      [lia|].
    cbn. rewrite !kills_app, ?kills_broadcast, ?kills_sends. reflexivity.
Qed.

(** X4.  When the exit of the process is handled within the grace period and
    no new run is started, the timer finds no handle and sends nothing. *)
Lemma grace_timer_after_exit
  (s : Server.t) (h : LoopController.Handle) (code : option Z) (d1 d2 : nat) :
  LoopController.process (Server.loopController s) = Some h ->
  Server.timers s = [] ->
  Server.has_child s = true ->
  d1 < LoopController.GRACE ->
  Server.kills
    (snd (Server.run s [Server.Http Server.PostLoopStop; Server.Advance d1;
                        Server.ChildClose code; Server.Advance d2]))
  = [(h, LoopController.SIGINT)].
Proof.
  intros H T C L.
  destruct s as [now0 os0 fs0 cfg fw [pp proc st n] cs ts acc].
  unfold Server.has_child in C. cbn in H, T, C. subst proc ts.
  destruct n as [|n]; [discriminate C|]. clear C.
  cbn.
  destruct (Nat.leb_spec (now0 + LoopController.GRACE) (now0 + d1)); [lia|].
  cbn.
  destruct (Nat.leb_spec (now0 + LoopController.GRACE) (now0 + d1 + d2)).
  - cbn. rewrite !kills_app, ?kills_sends. reflexivity.
  - cbn. rewrite !kills_app, ?kills_sends. reflexivity.
Qed.

End Supervisor.

(** ** Worked examples *)

Section Examples.

Example trim_example : Text.trim "  write  tests   " = "write  tests".
Proof. reflexivity. Qed.

Example split_example : Text.split_nl ("a" ++ NL ++ "b" ++ NL) = ["a"; "b"; ""].
Proof. reflexivity. Qed.

Example path_example :
  Path.join "/srv/project" "loop.sh" = "/srv/project/loop.sh"
  /\ Path.join "/srv/project" "a/../b/./c.md" = "/srv/project/b/c.md"
  /\ Path.join "project" "../../x" = "../x"
  /\ Path.dirname "/srv/project/docs/a.md" = "/srv/project/docs"
  /\ Path.dirname "/srv" = "/"
  /\ Path.dirname "a" = ".".
Proof. repeat split; reflexivity. Qed.

Example classify_example :
  FileWatcher.classifyLogLine "Error: connection failed" = error
  /\ FileWatcher.classifyLogLine "WARNING: retrying" = warning
  /\ FileWatcher.classifyLogLine "All tests passed" = success
  /\ FileWatcher.classifyLogLine "warning: 1 test failed" = error
  /\ FileWatcher.classifyLogLine "starting step 3" = info.
Proof. repeat split; reflexivity. Qed.

Example marker_example :
  LoopController.iterMatch "======== LOOP 12 ========" = Some 12%Z
  /\ LoopController.iterMatch "loop	7 of 9" = Some 7%Z
  /\ LoopController.iterMatch "LOOP12" = None
  /\ LoopController.iterMatch "looping 3 times" = None.
Proof. repeat split; reflexivity. Qed.

Example checkbox_example :
  FileWatcher.match_checkbox "- [x] build core" = Some ("x"%char, "build core")
  /\ FileWatcher.match_checkbox "-[X]done  " = Some ("X"%char, "done  ")
  /\ FileWatcher.match_checkbox "- [ ]   " = Some (" "%char, " ")
  /\ FileWatcher.match_checkbox "- [-] skipped" = None
  /\ FileWatcher.match_checkbox "  - [ ] indented" = None
  /\ FileWatcher.match_checkbox "- [ ]" = None.
Proof. repeat split; reflexivity. Qed.

(** An observer that connects after the third iteration has begun is sent
    the status with [running] and iteration 3 at once. *)
Example connect_mid_run_example :
  Server.sent_to 0
    (snd (Server.run Scenario.fresh
            [Server.Http (Server.PostLoopStart Scenario.build);
             Server.ChildStdout ("======== LOOP 3 ========" ++ NL);
             Server.Advance 250;
             Server.Connection]))
  = [Server.LoopStatusMsg
       (LoopStatus.mk true (Some ModeBuild) 3 0 None (Some 0) (Some 4000));
     Server.TasksUpdateMsg (TasksState.mk [] 0 0 None);
     Server.GitUpdateMsg (GitStatus.mk "main" 0 [] None None None);
     Server.ConfigUpdateMsg
       (ProjectConfig.mk "/srv/project" false false false false false false
          ProjectConfigManager.ALL_AGENT_IDS)].
Proof. vm_compute. reflexivity. Qed.

End Examples.

(** * Further properties of the code *)

(** ** Standard output of the supervised process *)

Section Stdout.

Lemma span_spec (p : ascii -> bool) (s : string) :
  s = fst (Text.span p s) ++ snd (Text.span p s)
  /\ Derived.all p (fst (Text.span p s)) = true
  /\ fst (Text.span p (snd (Text.span p s))) = "".
Proof.
  induction s as [|c s IH]; simpl; [repeat split|].
  destruct (p c) eqn:Hc.
  - destruct (Text.span p s) as [a b]. simpl in *.
    destruct IH as (E & A & R). repeat split.
    + now f_equal.
    + now rewrite Hc.
    + exact R.
  - simpl. now rewrite Hc.
Qed.

Lemma span_app (p : ascii -> bool) (a b : string) :
  Derived.all p a = true ->
  Text.span p (a ++ b) = (a ++ fst (Text.span p b), snd (Text.span p b)).
Proof.
  induction a as [|c a IH]; simpl; intros H.
  - now destruct (Text.span p b).
  - apply andb_true_iff in H as [Hc Ha]. rewrite Hc, (IH Ha). reflexivity.
Qed.

Lemma take_drop (n : nat) (s : string) :
  s = String.substring 0 n s ++ Text.drop n s.
Proof.
  revert n. induction s as [|c s IH]; intros [|n]; simpl; try reflexivity.
  f_equal. apply IH.
Qed.




(** Where [marker_here] finds a marker, the text starts with the word, white
    space and digits. *)
Lemma marker_here_shape (s : string) (n : Z) :
  LoopController.marker_here s = Some n ->
  exists kw ws ds post,
    s = kw ++ ws ++ ds ++ post
    /\ Text.toLowerCase kw = "loop"
    /\ ws <> "" /\ Derived.all Text.is_space ws = true
    /\ ds <> "" /\ Derived.all Text.is_digit ds = true
    /\ fst (Text.span Text.is_digit post) = ""
    /\ n = Text.parse_digits 0 ds.
Proof.
  unfold LoopController.marker_here.
  destruct (String.eqb_spec (Text.toLowerCase (String.substring 0 4 s)) "loop")
    as [Hkw|]; [|discriminate].
  pose proof (span_spec Text.is_space (Text.drop 4 s)) as (E1 & A1 & _).
  destruct (Text.span Text.is_space (Text.drop 4 s)) as [ws r]. simpl in *.
  pose proof (span_spec Text.is_digit r) as (E2 & A2 & R2).
  destruct (Text.span Text.is_digit r) as [ds post]. simpl in *.
  destruct ws as [|w ws]; [discriminate|]. destruct ds as [|d ds]; [discriminate|].
  simpl. intros [= <-].
  exists (String.substring 0 4 s), (String w ws), (String d ds), post.
  repeat split; try assumption; try discriminate.
  rewrite <- E2, <- E1. apply take_drop.
Qed.


(** A number found in a line is that of a marker in it. *)
Lemma iterMatch_found (line : string) (n : Z) :
  LoopController.iterMatch line = Some n ->
  exists pre kw ws ds post,
    line = pre ++ kw ++ ws ++ ds ++ post
    /\ Text.toLowerCase kw = "loop"
    /\ ws <> "" /\ Derived.all Text.is_space ws = true
    /\ ds <> "" /\ Derived.all Text.is_digit ds = true
    /\ fst (Text.span Text.is_digit post) = ""
    /\ n = Text.parse_digits 0 ds.
Proof.
  revert n. induction line as [|c line IH]; intros n; simpl.
  - intros H. discriminate H.
  - destruct (LoopController.marker_here (String c line)) eqn:E.
    + intros [= <-]. destruct (marker_here_shape _ _ E) as (kw & ws & ds & post & H).
      exists "", kw, ws, ds, post. exact H.
    + intros H. destruct (IH n H) as (pre & kw & ws & ds & post & -> & K).
      exists (String c pre), kw, ws, ds, post. split; [reflexivity | exact K].
Qed.


Lemma set_iteration_same (st : LoopStatus.t) :
  LoopController.set_iteration (LoopStatus.iteration st) st = st.
Proof. now destruct st. Qed.

Lemma set_iteration_twice (n m : Z) (st : LoopStatus.t) :
  LoopController.set_iteration m (LoopController.set_iteration n st)
  = LoopController.set_iteration m st.
Proof. reflexivity. Qed.

Lemma last_default (A : Type) (l : list A) (a b : A) :
  l <> [] -> List.last l a = List.last l b.
Proof.
  induction l as [|x l IH]; [contradiction|]. intros _.
  destruct l as [|y l]; [reflexivity|]. simpl in *. apply IH. discriminate.
Qed.

Lemma stdout_lines_spec (now : nat) (lines : list string) (c : LoopController.t) :
  let r := LoopController.stdout_lines now lines c in
  fst r
  = LoopController.mk (LoopController.projectPath c) (LoopController.process c)
      (LoopController.set_iteration
         (List.last (Derived.markers lines) (LoopStatus.iteration (LoopController.status c)))
         (LoopController.status c))
      (LoopController.spawned c)
  /\ Derived.logs_of (snd r) = map (fun l => LogEntry.mk now l info) lines
  /\ map LoopStatus.iteration (Derived.statuses_of (snd r)) = Derived.markers lines
  /\ Derived.calls_of (snd r) = [].
Proof.
  revert c. induction lines as [|l lines IH]; intros c; simpl.
  - rewrite set_iteration_same. now destruct c.
  - unfold LoopController.stdout_line, Derived.markers. simpl.
    destruct (LoopController.iterMatch l) as [n|] eqn:E.
    + specialize (IH (LoopController.mk (LoopController.projectPath c)
                        (LoopController.process c)
                        (LoopController.set_iteration n (LoopController.status c))
                        (LoopController.spawned c))).
      destruct (LoopController.stdout_lines now lines _) as [c2 e2].
      simpl in *. destruct IH as (E1 & E2 & E3 & E4).
      fold (Derived.markers lines) in *. repeat split.
      * rewrite E1. f_equal.
        destruct (Derived.markers lines) as [|m ms] eqn:Em; [reflexivity|].
        change (List.last (n :: m :: ms) (LoopStatus.iteration (LoopController.status c)))
          with (List.last (m :: ms) (LoopStatus.iteration (LoopController.status c))).
        rewrite (last_default _ (m :: ms) n (LoopStatus.iteration (LoopController.status c)));
          [reflexivity | discriminate].
      * unfold Derived.logs_of in *. simpl. now f_equal.
      * unfold Derived.statuses_of in *. simpl. now f_equal.
      * exact E4.
    + specialize (IH c).
      destruct (LoopController.stdout_lines now lines c) as [c2 e2].
      simpl in *. destruct IH as (E1 & E2 & E3 & E4).
      fold (Derived.markers lines) in *. repeat split.
      * exact E1.
      * unfold Derived.logs_of in *. simpl. now f_equal.
      * exact E3.
      * exact E4.
Qed.

(** X2.  A chunk of standard output: every non-blank line is logged, in order,
    with type [info]; a status is emitted for each line that announces an
    iteration, carrying that number; afterwards the iteration count is the
    number of the last such line, or as before when there is none; nothing
    else of the controller changes, and no process is created or
    signalled and no timer armed. *)
Theorem stdout_chunk (data : string) (now : nat) (c : LoopController.t) :
  let lines := Text.chunk_lines data in
  let r := LoopController.onStdout data now c in
  fst r
  = LoopController.mk (LoopController.projectPath c) (LoopController.process c)
      (LoopController.set_iteration
         (List.last (Derived.markers lines) (LoopStatus.iteration (LoopController.status c)))
         (LoopController.status c))
      (LoopController.spawned c)
  /\ Derived.logs_of (snd r) = map (fun l => LogEntry.mk now l info) lines
  /\ map LoopStatus.iteration (Derived.statuses_of (snd r)) = Derived.markers lines
  /\ Derived.calls_of (snd r) = [].
Proof. intros lines r. apply stdout_lines_spec. Qed.

End Stdout.

(** ** The life cycle of the supervised process *)

Section LifeCycle.

Lemma grace_timer_fires_once_witness :
  Server.kills
    (snd (Server.run Scenario.running
            [Server.Http Server.PostLoopStop; Server.Advance 5000]))
  = if (LoopController.GRACE <=? 5000)%nat
    then [(0, LoopController.SIGINT); (0, LoopController.SIGKILL)]
    else [(0, LoopController.SIGINT)].
Proof.
  apply (grace_timer_fires_once Scenario.running 0 5000); reflexivity.
Defined.

Lemma grace_timer_after_exit_witness :
  Server.kills
    (snd (Server.run Scenario.running
            [Server.Http Server.PostLoopStop; Server.Advance 1200;
             Server.ChildClose (Some 130%Z); Server.Advance 9000]))
  = [(0, LoopController.SIGINT)].
Proof.
  apply (grace_timer_after_exit Scenario.running 0 (Some 130%Z) 1200 9000);
    try reflexivity.
  vm_compute. lia.
Defined.

(** A property of controllers that each of its methods keeps is kept by
    every event of the server. *)
Lemma step_controller_keeps (P : LoopController.t -> Prop) :
  (forall c, P c ->
     (forall o p now, P (fst (LoopController.start o p now c)))
     /\ (forall now, P (fst (LoopController.stop now c)))
     /\ (forall now, P (fst (LoopController.onGraceTimeout now c)))
     /\ (forall d now, P (fst (LoopController.onStdout d now c)))
     /\ (forall d now, P (fst (LoopController.onStderr d now c)))
     /\ (forall code now, P (fst (LoopController.onClose code now c)))
     /\ (forall m now, P (fst (LoopController.onError m now c)))) ->
  forall s e, P (Server.loopController s) ->
              P (Server.loopController (fst (Server.step s e))).
Proof.
  intros HP s e H.
  destruct (HP _ H) as (Hstart & Hstop & Hgrace & Hout & Herr & Hclose & Herror).
  assert (forall f, P (fst (f (Server.now s) (Server.loopController s))) ->
                    P (Server.loopController (fst (Server.with_controller f s)))) as Hc.
  { intros f K. destruct (with_controller_frame f s) as (_ & _ & ->). exact K. }
  assert (forall f, P (Server.loopController (fst (Server.with_watcher f s)))) as Hw.
  { intros f. destruct (with_watcher_frame f s) as (_ & _ & ->). exact H. }
  destruct e as [|w cmd|w|w|r| | |g|d|d|code|msg|f|ms]; simpl; try exact H;
    try apply Hw.
  - destruct (Server.has_client w s); [|exact H].
    destruct cmd as [[o| |file|file content]|]; simpl; try exact H.
    + apply Hc, Hstart.
    + apply Hc, Hstop.
    + destruct (ProjectConfigManager.readFile _ _ _); exact H.
    + destruct (ProjectConfigManager.writeFile _ _ _ _) as [[[]] ?]; exact H.
  - destruct (Server.has_client w s); exact H.
  - destruct r as [|file|file content|o|]; simpl; try exact H.
    + destruct (ProjectConfigManager.readFile _ _ _); exact H.
    + destruct (ProjectConfigManager.writeFile _ _ _ _) as [[[]] ?]; exact H.
    + pose proof (Hc (LoopController.start o
                        (Server.os s (LoopController.spawned (Server.loopController s))))
                    (Hstart o _ _)) as K.
      unfold Server.loop_start. destruct (Server.with_controller _ s). exact K.
    + pose proof (Hc LoopController.stop (Hstop _)) as K.
      unfold Server.loop_stop. destruct (Server.with_controller _ s). exact K.
  - destruct (Server.has_child s); [apply Hc, Hout | exact H].
  - destruct (Server.has_child s); [apply Hc, Herr | exact H].
  - destruct (Server.has_child s); [apply Hc, Hclose | exact H].
  - destruct (Server.has_child s); [apply Hc, Herror | exact H].
  - pose proof (fire_timers_frame (Server.now s + ms) (Server.timers s) s) as (_ & _ & K).
    destruct (Server.fire_timers _ _ s). simpl in *. now rewrite K.
Qed.

Lemma parse_digits_nonneg (ds : string) (acc : Z) :
  (0 <= acc)%Z -> (0 <= Text.parse_digits acc ds)%Z.
Proof.
  revert acc. induction ds as [|c ds IH]; intros acc H; simpl; [exact H|].
  apply IH. lia.
Qed.

Lemma iterMatch_nonneg (line : string) (n : Z) :
  LoopController.iterMatch line = Some n -> (0 <= n)%Z.
Proof.
  intros H. destruct (iterMatch_found line n H)
    as (pre & kw & ws & ds & post & _ & _ & _ & _ & _ & _ & _ & ->).
  now apply parse_digits_nonneg.
Qed.

Lemma markers_nonneg (lines : list string) : Forall (fun n => (0 <= n)%Z) (Derived.markers lines).
Proof.
  unfold Derived.markers. induction lines as [|l lines IH]; simpl; [constructor|].
  destruct (LoopController.iterMatch l) eqn:E; simpl; [|exact IH].
  constructor; [now apply (iterMatch_nonneg l) | exact IH].
Qed.

Lemma last_Forall (A : Type) (P : A -> Prop) (l : list A) (d : A) :
  Forall P l -> P d -> P (List.last l d).
Proof.
  intros H Hd. induction H as [|x l Hx Hl IH]; [exact Hd|].
  destruct l; [exact Hx | exact IH].
Qed.

Lemma coherent_methods (c : LoopController.t) :
  Derived.coherent c ->
  (forall o p now, Derived.coherent (fst (LoopController.start o p now c)))
  /\ (forall now, Derived.coherent (fst (LoopController.stop now c)))
  /\ (forall now, Derived.coherent (fst (LoopController.onGraceTimeout now c)))
  /\ (forall d now, Derived.coherent (fst (LoopController.onStdout d now c)))
  /\ (forall d now, Derived.coherent (fst (LoopController.onStderr d now c)))
  /\ (forall code now, Derived.coherent (fst (LoopController.onClose code now c)))
  /\ (forall m now, Derived.coherent (fst (LoopController.onError m now c))).
Proof.
  intros H.
  assert (forall st n, (0 <= LoopStatus.iteration st)%Z ->
            Derived.coherent
              (LoopController.mk (LoopController.projectPath c) None
                 (LoopController.stopped st) n)) as Hstopped.
  { intros st n Hi. unfold Derived.coherent. simpl. repeat split; try discriminate.
    - intros [x K]. discriminate K.
    - exact Hi. }
  split; [|split; [|split; [|split; [|split; [|split]]]]].
  - intros o p now. unfold LoopController.start.
    destruct (LoopController.process c); simpl; [exact H|].
    unfold Derived.coherent. simpl. repeat split; eauto; try discriminate; try lia.
    intros h [= <-]. lia.
  - intros now. unfold LoopController.stop.
    destruct (LoopController.process c); exact H.
  - intros now. unfold LoopController.onGraceTimeout.
    destruct (LoopController.process c); exact H.
  - intros d now. unfold LoopController.onStdout.
    destruct (stdout_lines_spec now (Text.chunk_lines d) c) as (-> & _).
    destruct H as (H1 & H2 & H3 & H4 & H5).
    unfold Derived.coherent. simpl. repeat split; try apply H1; try apply H2;
      try apply H3; try assumption.
    apply last_Forall; [apply markers_nonneg | exact H4].
  - intros d now. exact H.
  - intros code now. apply Hstopped. apply H.
  - intros m now. apply Hstopped. apply H.
Qed.

(** X6.  At every moment of every run of the server: a process handle is held
    exactly when the status says running; a status that does not say
    running shows no process id; a status that says running has a mode
    and a start time; the iteration count is not negative; and the handle
    held is one of a child the controller created. *)
Theorem reachable_coherent
  (pp : string) (os : nat -> option nat) (fs : Fs.t) (es : list Server.Event) :
  Derived.coherent (Server.loopController (fst (Server.run (Server.init pp os fs) es))).
Proof.
  assert (forall s, Derived.coherent (Server.loopController s) ->
                    Derived.coherent (Server.loopController (fst (Server.run s es)))) as K.
  { induction es as [|e es IH]; intros s H; simpl; [exact H|].
    pose proof (step_controller_keeps Derived.coherent coherent_methods s e H) as H1.
    destruct (Server.step s e) as [s1 o1]. specialize (IH s1 H1).
    now destruct (Server.run s1 es). }
  apply K. unfold Derived.coherent. simpl. repeat split; try discriminate; try lia.
  intros [x E]. discriminate E.
Qed.










End LifeCycle.

(** ** The checklist and the log, further *)

Section Watcher.

Lemma nat_toString_inj (a b : nat) :
  Text.nat_toString a = Text.nat_toString b -> a = b.
Proof.
  unfold Text.nat_toString. intros H.
  assert (forall n, Nat.to_uint n <> Decimal.Nil) as Hn.
  { intros n. rewrite <- (DecimalNat.Unsigned.of_to n) at 1.
    rewrite DecimalNat.Unsigned.to_of. apply DecimalFacts.unorm_nonnil. }
  apply DecimalNat.Unsigned.to_uint_inj.
  pose proof (NilZero.usu _ (Hn a)) as Ha. pose proof (NilZero.usu _ (Hn b)) as Hb.
  rewrite H in Ha. congruence.
Qed.

Lemma collect_tasks_ids (i : nat) (lines : list string) :
  NoDup (map Task.id (FileWatcher.collect_tasks i lines))
  /\ (forall x, In x (map Task.id (FileWatcher.collect_tasks i lines)) ->
       exists k, i <= k /\ x = "task-" ++ Text.nat_toString k)
  /\ length (FileWatcher.collect_tasks i lines) <= length lines.
Proof.
  revert i. induction lines as [|l lines IH]; intros i; simpl.
  - repeat split; [constructor | contradiction | lia].
  - destruct (IH (S i)) as (N & K & L).
    destruct (FileWatcher.match_checkbox l) as [[c g]|]; simpl.
    + repeat split.
      * apply NoDup_cons. split; [|exact N].
        intros Hin. apply list_elem_of_In in Hin.
        destruct (K _ Hin) as (k & Lk & E).
        simpl in E. injection E as E. apply nat_toString_inj in E. lia.
      * intros x [<- | Hin]; [exists i; split; [lia | reflexivity]|].
        destruct (K _ Hin) as (k & Lk & E). exists k. split; [lia | exact E].
      * lia.
    + repeat split; [exact N | | lia].
      intros x Hin. destruct (K _ Hin) as (k & Lk & E). exists k. split; [lia | exact E].
Qed.

Lemma filter_length_le (A : Type) (P : A -> Prop) `{forall x, Decision (P x)} (l : list A) :
  length (filter P l) <= length l.
Proof.
  induction l as [|x l IH]; [reflexivity|].
  rewrite filter_cons. destruct (decide (P x)); simpl; lia.
Qed.

(** X7.  Within one parse the ids of the items are pairwise different; there
    are no more items than lines, and no more done items than items. *)
Theorem parse_ids_unique (content : string) (now : nat) (w : FileWatcher.t) :
  let st := FileWatcher.tasks (fst (FileWatcher.parseTasks (Some content) now w)) in
  NoDup (map Task.id (TasksState.tasks st))
  /\ TasksState.total st <= length (Text.split_nl content)
  /\ TasksState.completed st <= TasksState.total st.
Proof.
  simpl. destruct (collect_tasks_ids 0 (Text.split_nl content)) as (N & _ & L).
  repeat split; [exact N | exact L | apply filter_length_le].
Qed.

Ltac ascii_split c := destruct c as [[] [] [] [] [] [] [] []].

Lemma trimStart_app_ws (ws s : string) :
  Text.trimStart ws = "" -> Text.trimStart (ws ++ s) = Text.trimStart s.
Proof.
  induction ws as [|c ws IH]; simpl; [reflexivity|].
  destruct (Text.is_space c); [exact IH | discriminate].
Qed.

Lemma trimStart_app_cases (r t : string) :
  Text.trimStart (r ++ t)
  = match Text.trimStart r with
    | EmptyString => Text.trimStart t
    | String c r' => String c (r' ++ t)
    end.
Proof.
  induction r as [|c r IH]; simpl; [now destruct (Text.trimStart t)|].
  destruct (Text.is_space c); [exact IH | reflexivity].
Qed.

Lemma ws_then_text_total (s : string) :
  s <> "" -> FileWatcher.all_dot s = true ->
  exists g, FileWatcher.ws_then_text s = Some g.
Proof.
  destruct s as [|c s]; [contradiction|]. intros _ H. simpl.
  unfold FileWatcher.dot_plus_end. rewrite H. simpl.
  destruct (Text.is_space c); [|eauto].
  destruct (FileWatcher.ws_then_text s); eauto.
Qed.

Lemma collect_tasks_complete (i k : nat) (lines : list string) (line : string)
  (c : ascii) (g : string) :
  lines !! k = Some line ->
  FileWatcher.match_checkbox line = Some (c, g) ->
  In (Task.mk ("task-" ++ Text.nat_toString (i + k)) (Text.trim g)
        (String.eqb (Text.toLowerCase (String c "")) "x"))
     (FileWatcher.collect_tasks i lines).
Proof.
  revert i k. induction lines as [|l lines IH]; intros i [|k] Hk Hm;
    try discriminate Hk; simpl in *.
  - injection Hk as ->. rewrite Hm, Nat.add_0_r. now left.
  - specialize (IH (S i) k Hk Hm). rewrite Nat.add_succ_r.
    destruct (FileWatcher.match_checkbox l) as [[]|]; [now right | exact IH].
Qed.

(** X8.  Every line that is a dash, white space, a box holding a space, [x] or
    [X], and a non-empty rest free of carriage returns gives an item: its
    id is made of the index of the line, its text is the trimmed rest. *)
Theorem checkbox_line_parsed
  (content : string) (k : nat) (ws : string) (c : ascii) (text : string)
  (now : nat) (w : FileWatcher.t) :
  Text.split_nl content !! k
  = Some (String "-" (ws ++ String "[" (String c (String "]" text)))) ->
  Text.trimStart ws = "" ->
  FileWatcher.is_box_char c = true ->
  text <> "" ->
  FileWatcher.all_dot text = true ->
  In (Task.mk ("task-" ++ Text.nat_toString k) (Text.trim text)
        (String.eqb (Text.toLowerCase (String c "")) "x"))
     (TasksState.tasks
        (FileWatcher.tasks (fst (FileWatcher.parseTasks (Some content) now w)))).
Proof.
  intros Hk Hws Hc Ht Hd. simpl.
  destruct (ws_then_text_total text Ht Hd) as [g Hg].
  rewrite <- (ws_then_text_trim _ _ Hg).
  apply (collect_tasks_complete 0 k _ _ c g Hk).
  unfold FileWatcher.match_checkbox. rewrite trimStart_app_ws by assumption.
  simpl. now rewrite Hc, Hg.
Qed.

Lemma checkbox_line_parsed_witness :
  In (Task.mk "task-2" "ship it" true)
     (TasksState.tasks
        (FileWatcher.tasks
           (fst (FileWatcher.parseTasks
                   (Some ("# Plan" ++ NL ++ NL ++ "-  [X]   ship it  " ++ NL))
                   5 FileWatcher.init)))).
Proof.
  apply (checkbox_line_parsed ("# Plan" ++ NL ++ NL ++ "-  [X]   ship it  " ++ NL)
           2 "  " "X"%char "   ship it  " 5 FileWatcher.init);
    try reflexivity.
  discriminate.
Defined.

Lemma all_dot_cr (s : string) : FileWatcher.all_dot (s ++ Derived.CR) = false.
Proof.
  induction s as [|c s IH]; simpl; [reflexivity|]. rewrite IH. apply andb_false_r.
Qed.

Lemma ws_then_text_cr (s : string) : FileWatcher.ws_then_text (s ++ Derived.CR) = None.
Proof.
  induction s as [|c s IH]; [reflexivity|].
  change (String c s ++ Derived.CR) with (String c (s ++ Derived.CR)).
  simpl. rewrite IH. unfold FileWatcher.dot_plus_end. simpl.
  rewrite all_dot_cr, andb_false_r. now destruct (Text.is_space c).
Qed.

(** X9.  A line that ends in a carriage return gives no item, whatever it
    holds: of a plan with CRLF line ends only a last line without line
    end can be parsed. *)
Theorem checkbox_line_cr (line : string) :
  FileWatcher.match_checkbox (line ++ Derived.CR) = None.
Proof.
  destruct line as [|a r]; [reflexivity|].
  change (String a r ++ Derived.CR) with (String a (r ++ Derived.CR)).
  ascii_split a; try reflexivity.
  unfold FileWatcher.match_checkbox. rewrite trimStart_app_cases.
  destruct (Text.trimStart r) as [|b r1]; [reflexivity|].
  ascii_split b; try reflexivity.
  destruct r1 as [|c r2]; [reflexivity|].
  destruct r2 as [|e rest]; [reflexivity|].
  change (String c (String e rest) ++ Derived.CR)
    with (String c (String e (rest ++ Derived.CR))).
  ascii_split e; try reflexivity.
  rewrite ws_then_text_cr. now destruct (FileWatcher.is_box_char c).
Qed.

Lemma lines_of_entries (now : nat) (lines : list string) :
  Derived.lines_of (FileWatcher.entries now lines) = lines.
Proof.
  unfold Derived.lines_of, FileWatcher.entries.
  induction lines as [|l lines IH]; simpl; [reflexivity | now f_equal].
Qed.

Lemma lines_of_app (a b : list FileWatcher.Emit) :
  Derived.lines_of (a ++ b) = (Derived.lines_of a ++ Derived.lines_of b)%list.
Proof. apply omap_app. Qed.

(** X10.  After a notification at which the log cannot be found, the next
    notification emits every non-blank line of the log from its start,
    whatever had been emitted before, and the offset is the size of the
    log. *)
Theorem tailLog_after_absence (w : FileWatcher.t) (content : string) (now1 now2 : nat) :
  FileWatcher.tailLog (Some content) now2 (fst (FileWatcher.tailLog None now1 w))
  = (FileWatcher.mk (FileWatcher.tasks w) (FileWatcher.gitStatus w)
       (String.length content),
     FileWatcher.entries now2 (Text.chunk_lines content)).
Proof.
  change (fst (FileWatcher.tailLog None now1 w))
    with (FileWatcher.mk (FileWatcher.tasks w) (FileWatcher.gitStatus w) 0).
  destruct content as [|c content]; [reflexivity|].
  rewrite tailLog_grown by (simpl; lia). reflexivity.
Qed.





Lemma toLowerCase_app (a b : string) :
  Text.toLowerCase (a ++ b) = Text.toLowerCase a ++ Text.toLowerCase b.
Proof. induction a; simpl; congruence. Qed.

Lemma prefix_app (n a b : string) :
  String.prefix n a = true -> String.prefix n (a ++ b) = true.
Proof.
  revert a. induction n as [|x n IH]; intros a H.
  - now destruct (a ++ b).
  - destruct a as [|y a]; [discriminate|]. simpl in *.
    destruct (ascii_dec x y); [now apply IH | discriminate].
Qed.

Lemma includes_app_r (n a b : string) :
  Text.includes n a = true -> Text.includes n (a ++ b) = true.
Proof.
  induction a as [|y a IH]; intros H.
  - simpl in H. rewrite orb_false_r in H.
    destruct n; [|discriminate]. now destruct b.
  - change (String y a ++ b) with (String y (a ++ b)).
    simpl in *. apply orb_true_iff in H as [H|H]; apply orb_true_iff.
    + left. apply (prefix_app n (String y a) b H).
    + right. now apply IH.
Qed.

Lemma includes_app_l (n a b : string) :
  Text.includes n b = true -> Text.includes n (a ++ b) = true.
Proof.
  intros H. induction a as [|y a IH]; [exact H|].
  change (String y a ++ b) with (String y (a ++ b)).
  simpl. rewrite IH. apply orb_true_r.
Qed.

(** X12.  A line classified as an error stays one whatever text stands before
    and after it. *)
Theorem classify_error_stable (pre line post : string) :
  FileWatcher.classifyLogLine line = error ->
  FileWatcher.classifyLogLine (pre ++ line ++ post) = error.
Proof.
  unfold FileWatcher.classifyLogLine. rewrite !toLowerCase_app.
  set (l := Text.toLowerCase line). set (a := Text.toLowerCase pre).
  set (b := Text.toLowerCase post).
  assert (forall n, Text.includes n l = true -> Text.includes n (a ++ l ++ b) = true) as K.
  { intros n H. apply includes_app_l. now apply includes_app_r. }
  destruct (Text.includes "error" l) eqn:E1;
    [rewrite (K _ E1); intros _; reflexivity|].
  destruct (Text.includes "fail" l) eqn:E2;
    [intros _; rewrite (K _ E2), orb_true_r; reflexivity|].
  destruct (Text.includes "exception" l) eqn:E3;
    [intros _; rewrite (K _ E3), orb_true_r; reflexivity|].
  cbn [orb]. destruct (Text.includes "warning" l || Text.includes "warn" l);
    [discriminate|].
  destruct (Text.includes "success" l || Text.includes "complete" l
            || Text.includes "pass" l); discriminate.
Qed.

Lemma classify_error_stable_witness :
  FileWatcher.classifyLogLine ("12:00 " ++ "Build FAILED" ++ " but all 3 warnings passed")
  = error.
Proof.
  apply (classify_error_stable "12:00 " "Build FAILED" " but all 3 warnings passed").
  reflexivity.
Defined.

End Watcher.

(** ** The named documents *)

Section Documents.

Lemma refresh_projectPath (fs : Fs.t) (m : ProjectConfigManager.t) :
  ProjectConfigManager.projectPath (ProjectConfigManager.refresh fs m)
  = ProjectConfigManager.projectPath m.
Proof. reflexivity. Qed.

(** What becomes of [writeFile], case by case. *)
Lemma writeFile_cases (f content : string) (fs : Fs.t) (m : ProjectConfigManager.t) :
  let p := Path.join (ProjectConfigManager.projectPath m) f in
  let r := ProjectConfigManager.writeFile f content fs m in
  (exists e, r = (Rejected e, fs, m))
  \/ (exists fs1, Fs.mkdir_p (Path.dirname p) fs = Some fs1
                 /\ r = (Rejected FsFailure, fs1, m))
  \/ (exists fs1, ProjectConfigManager.invalid f = false
                 /\ Fs.mkdir_p (Path.dirname p) fs = Some fs1
                 /\ r = (Resolved tt,
                         Fs.mk (<[p := content]> (Fs.files fs1)) (Fs.dirs fs1),
                         ProjectConfigManager.refresh
                           (Fs.mk (<[p := content]> (Fs.files fs1)) (Fs.dirs fs1)) m)).
Proof.
  intros p r. subst p r. unfold ProjectConfigManager.writeFile.
  destruct (ProjectConfigManager.invalid f); [left; eauto|].
  destruct (Fs.mkdir_p _ fs) as [fs1|] eqn:E1; [|left; eauto].
  unfold Fs.writeFile. destruct (_ || _); [right; left; eauto|].
  right. right. eauto.
Qed.

Lemma mkdir_p_files (d : string) (fs fs1 : Fs.t) :
  Fs.mkdir_p d fs = Some fs1 ->
  Fs.files fs1 = Fs.files fs /\ Fs.dirs fs ⊆ Fs.dirs fs1.
Proof.
  unfold Fs.mkdir_p. destruct (forallb _ _); [|discriminate].
  intros [= <-]. simpl. split; [reflexivity | set_solver].
Qed.

(** When [writeFile] resolves the file holds the content, the name was a
    valid one and the manager has been refreshed. *)
Lemma writeFile_resolved
  (f content : string) (fs fs' : Fs.t) (m m' : ProjectConfigManager.t) :
  ProjectConfigManager.writeFile f content fs m = (Resolved tt, fs', m') ->
  Fs.files fs' !! Path.join (ProjectConfigManager.projectPath m) f = Some content
  /\ ProjectConfigManager.invalid f = false
  /\ m' = ProjectConfigManager.refresh fs' m.
Proof.
  intros H.
  destruct (writeFile_cases f content fs m) as [[e E] | [[fs1 [_ E]] | [fs1 (Hi & _ & E)]]];
    rewrite E in H; try discriminate H.
  injection H as <- <-. simpl. rewrite lookup_insert_eq. now repeat split.
Qed.

(** No file but the one named is changed by [writeFile]. *)
Lemma writeFile_others (f content : string) (fs : Fs.t) (m : ProjectConfigManager.t)
  (p : string) :
  p <> Path.join (ProjectConfigManager.projectPath m) f ->
  Fs.files (snd (fst (ProjectConfigManager.writeFile f content fs m))) !! p
  = Fs.files fs !! p.
Proof.
  intros Hp.
  destruct (writeFile_cases f content fs m) as [[e E] | [[fs1 [M E]] | [fs1 (Hi & M & E)]]];
    rewrite E; simpl; [reflexivity | |].
  - now destruct (mkdir_p_files _ _ _ M) as [-> _].
  - destruct (mkdir_p_files _ _ _ M) as [-> _]. now rewrite lookup_insert_ne.
Qed.

(** X13.  A document written is the document read: when [writeFile] resolves, a
    [readFile] of the same name resolves to the content written, the
    name is reported as existing, and the configuration is the one a
    [refresh] finds. *)
Theorem write_then_read
  (f content : string) (fs fs' : Fs.t) (m m' : ProjectConfigManager.t) :
  ProjectConfigManager.writeFile f content fs m = (Resolved tt, fs', m') ->
  ProjectConfigManager.readFile f fs' m' = Resolved content
  /\ ProjectConfigManager.fileExists f fs' m' = true
  /\ m' = ProjectConfigManager.refresh fs' m.
Proof.
  intros H.
  destruct (writeFile_cases f content fs m) as [[e E] | [[fs1 [_ E]] | [fs1 (Hi & _ & E)]]];
    rewrite E in H; try discriminate H.
  injection H as <- <-.
  unfold ProjectConfigManager.readFile, ProjectConfigManager.fileExists, Fs.readFile, Fs.access.
  rewrite Hi, refresh_projectPath. simpl. rewrite !lookup_insert_eq.
  repeat split.
Qed.

Lemma write_then_read_witness :
  ProjectConfigManager.readFile "docs/notes.md"
    (snd (fst (ProjectConfigManager.writeFile "docs/notes.md" "hello"
                 (Fs.mk ∅ ∅) (ProjectConfigManager.create "/srv/project"))))
    (snd (ProjectConfigManager.writeFile "docs/notes.md" "hello"
            (Fs.mk ∅ ∅) (ProjectConfigManager.create "/srv/project")))
  = Resolved "hello".
Proof.
  apply (write_then_read "docs/notes.md" "hello" (Fs.mk ∅ ∅) _
           (ProjectConfigManager.create "/srv/project") _).
  vm_compute. reflexivity.
Defined.

(** X14.  Whatever becomes of a [writeFile], no file but the one named changes,
    and no directory disappears; when it is rejected no file changes at
    all and the configuration is not refreshed. *)
Theorem write_frame
  (f content : string) (fs : Fs.t) (m : ProjectConfigManager.t) :
  let r := ProjectConfigManager.writeFile f content fs m in
  (forall p, p <> Path.join (ProjectConfigManager.projectPath m) f ->
             Fs.files (snd (fst r)) !! p = Fs.files fs !! p)
  /\ Fs.dirs fs ⊆ Fs.dirs (snd (fst r))
  /\ (forall e, fst (fst r) = Rejected e ->
                 Fs.files (snd (fst r)) = Fs.files fs /\ snd r = m).
Proof.
  intros r. subst r.
  destruct (writeFile_cases f content fs m) as [[e E] | [[fs1 [M E]] | [fs1 (Hi & M & E)]]];
    rewrite E; simpl.
  - split; [reflexivity|]. split; [set_solver|]. now split.
  - destruct (mkdir_p_files _ _ _ M) as [-> D].
    split; [reflexivity|]. split; [exact D|]. now split.
  - destruct (mkdir_p_files _ _ _ M) as [-> D].
    split; [|split; [exact D|]].
    + intros p Hp. now rewrite lookup_insert_ne.
    + intros e [=].
Qed.

(** X16.  Over an observer's socket: when a write is answered with
    [config:saved], a read of the same name, by whichever observer and
    over either surface, is answered with the content written, and reads
    change nothing. *)
Theorem saved_then_content (s : Server.t) (w w2 : nat) (f content : string) :
  Server.has_client w s = true ->
  Server.has_client w2 s = true ->
  snd (Server.step s (Server.WsMessage w (Some (Server.ConfigWrite f content))))
  = [Server.Send w (Server.ConfigSavedMsg f)] ->
  let s' := fst (Server.step s (Server.WsMessage w (Some (Server.ConfigWrite f content)))) in
  Server.step s' (Server.WsMessage w2 (Some (Server.ConfigRead f)))
  = (s', [Server.Send w2 (Server.ConfigContentMsg f content)])
  /\ Server.step s' (Server.Http (Server.GetConfig f))
     = (s', [Server.Respond 200 (Server.ContentBody content)]).
Proof.
  intros Hw Hw2. simpl. rewrite Hw. simpl.
  destruct (ProjectConfigManager.writeFile f content (Server.fs s) (Server.projectConfig s))
    as [[[[]|e] fs'] m'] eqn:E; simpl; [|discriminate].
  intros _. destruct (writeFile_resolved _ _ _ _ _ _ E) as (R & Hi & ->).
  unfold Server.has_client in *. simpl. rewrite Hw2. simpl.
  unfold ProjectConfigManager.readFile, Fs.readFile.
  rewrite Hi, refresh_projectPath, R. now split.
Qed.

Lemma saved_then_content_witness :
  Server.step
    (fst (Server.step Scenario.running
            (Server.WsMessage 0 (Some (Server.ConfigWrite "AGENTS.md" "# Agents")))))
    (Server.WsMessage 1 (Some (Server.ConfigRead "AGENTS.md")))
  = (fst (Server.step Scenario.running
            (Server.WsMessage 0 (Some (Server.ConfigWrite "AGENTS.md" "# Agents")))),
     [Server.Send 1 (Server.ConfigContentMsg "AGENTS.md" "# Agents")]).
Proof.
  apply (saved_then_content Scenario.running 0 1 "AGENTS.md" "# Agents");
    vm_compute; reflexivity.
Defined.

End Documents.

(** ** Fan-out, further *)

Section FanOut.

Lemma sent_to_other (w : nat) (o : Server.Output) (out : list Server.Output) :
  (forall w' m, o <> Server.Send w' m) ->
  Server.sent_to w (o :: out) = Server.sent_to w out.
Proof.
  intros H. destruct o; try reflexivity. now destruct (H ws m).
Qed.


Lemma fanned_app (cs : list Server.Client) (a b : list Server.Output) :
  Derived.fanned cs a -> Derived.fanned cs b -> Derived.fanned cs (a ++ b).
Proof.
  intros Fa Fb. induction Fa as [|m out F IH|o out Ho F IH]; simpl.
  - exact Fb.
  - rewrite <- app_assoc. now constructor.
  - now constructor.
Qed.

Lemma fanned_one (cs : list Server.Client) (m : Server.Message) :
  Derived.fanned cs (Server.broadcast m cs).
Proof. rewrite <- (app_nil_r (Server.broadcast m cs)). repeat constructor. Qed.

Lemma fanned_effects (es : list LoopController.Effect) (s : Server.t) :
  Derived.fanned (Server.clients s) (snd (Server.on_controller_effects s es)).
Proof.
  revert s. induction es as [|e es IH]; intros s; simpl; [constructor|].
  destruct (Server.on_controller_effect s e) as [s1 o1] eqn:E1.
  assert (Server.clients s1 = Server.clients s
          /\ Derived.fanned (Server.clients s) o1) as [C F].
  { destruct e; simpl in E1; injection E1 as <- <-; simpl; split; try reflexivity;
      try apply fanned_one; try constructor; try constructor; discriminate. }
  specialize (IH s1). rewrite C in IH.
  destruct (Server.on_controller_effects s1 es) as [s2 o2]. simpl in *.
  now apply fanned_app.
Qed.

Lemma fanned_with_controller
  (f : nat -> LoopController.t -> LoopController.t * list LoopController.Effect)
  (s : Server.t) :
  Derived.fanned (Server.clients s) (snd (Server.with_controller f s)).
Proof.
  unfold Server.with_controller.
  destruct (f (Server.now s) (Server.loopController s)) as [c es].
  apply (fanned_effects es (Server.set_loopController c s)).
Qed.

Lemma fanned_with_watcher
  (f : nat -> FileWatcher.t -> FileWatcher.t * list FileWatcher.Emit)
  (s : Server.t) :
  Derived.fanned (Server.clients s) (snd (Server.with_watcher f s)).
Proof.
  unfold Server.with_watcher.
  destruct (f (Server.now s) (Server.fileWatcher s)) as [w es]. simpl.
  induction es as [|e es IH]; simpl; [constructor|].
  apply fanned_app; [|exact IH]. destruct e; apply fanned_one.
Qed.

Lemma fanned_fire_timers (limit : nat) (ts : list nat) (s : Server.t) :
  Derived.fanned (Server.clients s) (snd (Server.fire_timers limit ts s)).
Proof.
  revert s. induction ts as [|d ts IH]; intros s; simpl; [constructor|].
  destruct (d <=? limit)%nat.
  - pose proof (fanned_with_controller LoopController.onGraceTimeout (Server.set_now d s)) as F.
    pose proof (with_controller_hub LoopController.onGraceTimeout (Server.set_now d s))
      as [C _].
    destruct (Server.with_controller LoopController.onGraceTimeout (Server.set_now d s))
      as [s1 o1].
    simpl in *. specialize (IH s1). rewrite C in IH.
    destruct (Server.fire_timers limit ts s1) as [s2 o2]. simpl in *.
    now apply fanned_app.
  - specialize (IH s). destruct (Server.fire_timers limit ts s) as [s2 o2]. exact IH.
Qed.

Lemma fanned_step (s : Server.t) (e : Server.Event) :
  Derived.is_unicast e = false ->
  Derived.fanned (Server.clients s) (snd (Server.step s e)).
Proof.
  assert (forall o, Derived.fanned (Server.clients s) [Server.Console o]) as Kc.
  { intros o. constructor; [discriminate | constructor]. }
  assert (forall n b, Derived.fanned (Server.clients s) [Server.Respond n b]) as Kr.
  { intros n b. constructor; [discriminate | constructor]. }
  destruct e as [|w cmd|w|w|r| | |g|d|d|code|msg|f|ms]; simpl; intros U;
    try discriminate U; try apply fanned_with_watcher; try constructor.
  - destruct (Server.has_client w s); [|constructor].
    destruct cmd as [[o| |file|file content]|]; simpl in *; try discriminate U.
    + apply fanned_with_controller.
    + apply fanned_with_controller.
    + apply Kc.
  - destruct (Server.has_client w s); [apply Kc | constructor].
  - destruct r as [|file|file content|o|]; simpl.
    + apply Kr.
    + destruct (ProjectConfigManager.readFile _ _ _); apply Kr.
    + destruct (ProjectConfigManager.writeFile _ _ _ _) as [[[]] ?]; apply Kr.
    + pose proof (fanned_with_controller
                    (LoopController.start o
                       (Server.os s (LoopController.spawned (Server.loopController s)))) s)
        as F.
      unfold Server.loop_start. destruct (Server.with_controller _ s). simpl in *.
      apply fanned_app; [exact F | apply Kr].
    + pose proof (fanned_with_controller LoopController.stop s) as F.
      unfold Server.loop_stop. destruct (Server.with_controller _ s). simpl in *.
      apply fanned_app; [exact F | apply Kr].
  - destruct (Server.has_child s); [apply fanned_with_controller | constructor].
  - destruct (Server.has_child s); [apply fanned_with_controller | constructor].
  - destruct (Server.has_child s); [apply fanned_with_controller | constructor].
  - destruct (Server.has_child s); [apply fanned_with_controller | constructor].
  - pose proof (fanned_fire_timers (Server.now s + ms) (Server.timers s) s) as F.
    destruct (Server.fire_timers _ _ s). exact F.
Qed.



Lemma fanned_absent (cs : list Server.Client) (out : list Server.Output) (w : nat) :
  Derived.fanned cs out -> ~ In w (map Server.ws cs) -> Server.sent_to w out = [].
Proof.
  intros F H. induction F as [|m out F IH|o out Ho F IH].
  - reflexivity.
  - now rewrite sent_to_app, sent_to_absent, IH.
  - now rewrite sent_to_other.
Qed.

Lemma has_client_In (w : nat) (s : Server.t) :
  Server.has_client w s = true -> In w (map Server.ws (Server.clients s)).
Proof.
  unfold Server.has_client. induction (Server.clients s) as [|c l IH]; simpl;
    [discriminate|].
  intros H. apply orb_true_iff in H as [H|H]; [left; now apply Nat.eqb_eq | right; auto].
Qed.

Lemma clients_delete_gone (w : nat) (cs : list Server.Client) :
  ~ In w (map Server.ws (Server.clients_delete w cs)).
Proof.
  unfold Server.clients_delete. induction cs as [|c l IH]; simpl; [tauto|].
  rewrite filter_cons. destruct (decide (Server.ws c ≠ w)); simpl; tauto.
Qed.

Lemma clients_delete_sub (w w' : nat) (cs : list Server.Client) :
  In w (map Server.ws (Server.clients_delete w' cs)) -> In w (map Server.ws cs).
Proof.
  unfold Server.clients_delete. induction cs as [|c l IH]; simpl; [tauto|].
  rewrite filter_cons. destruct (decide (Server.ws c ≠ w')); simpl; tauto.
Qed.

(** A socket that has been accepted and is not in the set is sent nothing,
    and stays out of the set. *)
Lemma absent_step (s : Server.t) (e : Server.Event) (w : nat) :
  w < Server.accepted s -> ~ In w (map Server.ws (Server.clients s)) ->
  Server.sent_to w (snd (Server.step s e)) = []
  /\ w < Server.accepted (fst (Server.step s e))
  /\ ~ In w (map Server.ws (Server.clients (fst (Server.step s e)))).
Proof.
  intros L A. split; [|split].
  - destruct (Derived.is_unicast e) eqn:U;
      [|apply (fanned_absent (Server.clients s)); [now apply fanned_step | exact A]].
    destruct e as [|w' [[o| |file|file content]|]| | | | | | | | | | | |];
      try discriminate U; simpl.
    + unfold Server.sent_to. simpl.
      destruct (Nat.eqb_spec (Server.accepted s) w); [lia | reflexivity].
    + destruct (Server.has_client w' s) eqn:Hc; [|reflexivity].
      assert (w' <> w) as Hne by (intros ->; apply A; now apply has_client_In).
      destruct (ProjectConfigManager.readFile _ _ _); [|reflexivity].
      unfold Server.sent_to. simpl. now destruct (Nat.eqb_spec w' w).
    + destruct (Server.has_client w' s) eqn:Hc; [|reflexivity].
      assert (w' <> w) as Hne by (intros ->; apply A; now apply has_client_In).
      destruct (ProjectConfigManager.writeFile _ _ _ _) as [[[] ?] ?]; [|reflexivity].
      unfold Server.sent_to. simpl. now destruct (Nat.eqb_spec w' w).
  - pose proof (step_accepted s e). lia.
  - pose proof (step_hub s e) as H.
    destruct e; lazy beta iota zeta in H; destruct H as [-> _]; try exact A.
    + unfold Server.clients_add. destruct (existsb _ _); [exact A|].
      rewrite map_app, in_app_iff. simpl. intros [K | [K | []]]; [tauto | lia].
    + rewrite map_map. intros K. apply A. apply in_map_iff in K as (c & E & Hin).
      apply in_map_iff. exists c. split; [|exact Hin].
      destruct (Server.ws c =? w0)%nat eqn:Ew; [|exact E].
      apply Nat.eqb_eq in Ew. simpl in E. congruence.
    + intros K. apply A. now apply clients_delete_sub in K.
Qed.

(** X18.  Once the close event of an accepted socket has been handled, nothing
    is sent on that socket any more, whatever happens afterwards. *)
Theorem closed_socket_silent (s : Server.t) (w : nat) (es : list Server.Event) :
  w < Server.accepted s ->
  Server.sent_to w (snd (Server.run (fst (Server.step s (Server.WsClose w))) es)) = [].
Proof.
  intros L.
  assert (forall s0, w < Server.accepted s0 ->
                     ~ In w (map Server.ws (Server.clients s0)) ->
                     Server.sent_to w (snd (Server.run s0 es)) = []) as K.
  { induction es as [|e es IH]; intros s0 L0 A0; simpl; [reflexivity|].
    destruct (absent_step s0 e w L0 A0) as (E & L1 & A1).
    destruct (Server.step s0 e) as [s1 o1]. simpl in *.
    specialize (IH s1 L1 A1). destruct (Server.run s1 es) as [s2 o2]. simpl in *.
    now rewrite sent_to_app, E, IH. }
  apply K.
  - pose proof (step_accepted s (Server.WsClose w)). lia.
  - destruct (step_hub s (Server.WsClose w)) as [-> _]. apply clients_delete_gone.
Qed.

Lemma closed_socket_silent_witness :
  Server.sent_to 0
    (snd (Server.run (fst (Server.step Scenario.running (Server.WsClose 0)))
            [Server.ChildStdout ("LOOP 2" ++ NL); Server.Connection;
             Server.Http Server.PostLoopStop; Server.Advance 5000]))
  = [].
Proof.
  apply (closed_socket_silent Scenario.running 0
           [Server.ChildStdout ("LOOP 2" ++ NL); Server.Connection;
            Server.Http Server.PostLoopStop; Server.Advance 5000]).
  vm_compute. lia.
Defined.

End FanOut.

(** ** Paths *)

Section Paths.

Lemma split_head_prefix (d : ascii) (s : string) :
  exists h t, Text.split_char d s = h :: t /\ String.prefix h s = true.
Proof.
  induction s as [|c s (h & t & E & P)]; simpl.
  - exists "", []. now split.
  - destruct (Ascii.eqb c d).
    + exists "", (Text.split_char d s). now split.
    + rewrite E. exists (String c h), t. split; [reflexivity|].
      simpl. destruct (ascii_dec c c); [exact P | contradiction].
Qed.

(** Every piece of a split text occurs in the text. *)
Lemma split_includes (d : ascii) (s seg : string) :
  In seg (Text.split_char d s) -> Text.includes seg s = true.
Proof.
  induction s as [|c s IH]; simpl.
  - intros [<- | []]. reflexivity.
  - destruct (Ascii.eqb c d).
    + intros [<- | H]; [reflexivity|]. rewrite (IH H). apply orb_true_r.
    + destruct (split_head_prefix d s) as (h & t & E & P). rewrite E in *.
      intros [<- | H].
      * simpl. destruct (ascii_dec c c); [|contradiction]. now rewrite P.
      * rewrite IH; [apply orb_true_r | now right].
Qed.

Lemma normalize_segments_app (a : bool) (x y acc : list string) :
  Path.normalize_segments a (x ++ y) acc
  = Path.normalize_segments a y (rev (Path.normalize_segments a x acc)).
Proof.
  revert acc. induction x as [|seg x IH]; intros acc; simpl.
  - now rewrite rev_involutive.
  - destruct (_ || _); [apply IH|].
    destruct (String.eqb seg ".."); [|apply IH].
    destruct acc as [|top below]; [apply IH|].
    destruct (String.eqb top ".."); apply IH.
Qed.

Lemma normalize_segments_clean (a : bool) (y acc : list string) :
  (forall seg, In seg y -> seg <> "..") ->
  Path.normalize_segments a y acc = (rev acc ++ Derived.clean_segments y)%list.
Proof.
  revert acc. induction y as [|seg y IH]; intros acc H; simpl.
  - now rewrite app_nil_r.
  - assert (forall seg', In seg' y -> seg' <> "..") as H' by (intros; apply H; now right).
    destruct (_ || _); simpl; [now apply IH|].
    destruct (String.eqb_spec seg "..") as [E|_]; [destruct (H seg (or_introl eq_refl) E)|].
    rewrite IH by assumption. simpl. now rewrite <- app_assoc.
Qed.

Lemma join_app (sep : string) (x y : list string) :
  x <> [] -> y <> [] ->
  Text.join sep (x ++ y) = Text.join sep x ++ sep ++ Text.join sep y.
Proof.
  intros Hx Hy. induction x as [|a x IH]; [contradiction|].
  destruct x as [|b x].
  - simpl. destruct y; [contradiction | reflexivity].
  - change (Text.join sep ((a :: b :: x) ++ y))
      with (a ++ sep ++ Text.join sep ((b :: x) ++ y)).
    rewrite IH by discriminate.
    change (Text.join sep (a :: b :: x)) with (a ++ sep ++ Text.join sep (b :: x)).
    now rewrite !string_app_assoc.
Qed.

Lemma prefix_slash_app (p q : string) :
  Path.isAbsolute p = true -> Path.isAbsolute (p ++ q) = true.
Proof. apply prefix_app. Qed.

(** X15.  A name with no [..] in it is resolved inside the project directory:
    joined to an absolute project path that does not end in a slash, it
    gives the normalised project path itself or that path followed by a
    slash and more. *)
Theorem join_stays_inside (pp f : string) :
  Path.isAbsolute pp = true ->
  Path.ends_with_slash pp = false ->
  Text.includes ".." f = false ->
  exists rest,
    Path.join pp f = Path.normalize pp ++ rest
    /\ (rest = "" \/ Path.normalize pp = "/" \/ String.prefix "/" rest = true).
Proof.
  intros Habs Htr Hf.
  assert (Text.truthy pp = true) as Hpp by (destruct pp; [discriminate | reflexivity]).
  unfold Path.join. rewrite Hpp.
  destruct (Text.truthy f) eqn:Hft;
    [|exists ""; split; [now rewrite string_app_nil | now left]].
  set (NP := Path.normalize_segments false (Text.split_char "/" pp) []).
  assert (Path.normalize pp
          = if negb (Text.truthy (Text.join "/" NP)) then "/"
            else "/" ++ Text.join "/" NP) as EN.
  { unfold Path.normalize. rewrite Hpp, Habs, Htr. reflexivity. }
  set (q := pp ++ "/" ++ f).
  assert (Text.truthy q = true) as Hq by (subst q; destruct pp; [discriminate | reflexivity]).
  assert (Path.isAbsolute q = true) as Hqa by (apply prefix_slash_app, Habs).
  assert (Path.normalize_segments false (Text.split_char "/" q) []
          = (NP ++ Derived.clean_segments (Text.split_char "/" f))%list) as ES.
  { subst q. change ("/" ++ f) with (String "/" f).
    rewrite split_char_app, normalize_segments_app.
    rewrite normalize_segments_clean.
    - now rewrite rev_involutive.
    - intros seg Hin ->. apply split_includes in Hin. congruence. }
  set (CF := Derived.clean_segments (Text.split_char "/" f)) in *.
  set (tail := if Path.ends_with_slash q then "/" else "").
  assert (tail = "" \/ String.prefix "/" tail = true) as Htail.
  { subst tail. destruct (Path.ends_with_slash q); [now right | now left]. }
  assert (Path.normalize q
          = if negb (Text.truthy (Text.join "/" (NP ++ CF))) then "/"
            else "/" ++ Text.join "/" (NP ++ CF) ++ tail) as EQ.
  { unfold Path.normalize. rewrite Hq, Hqa. cbn [negb]. rewrite ES.
    destruct (Text.truthy (Text.join "/" (NP ++ CF))); simpl; [|reflexivity].
    subst tail. destruct (Path.ends_with_slash q); [reflexivity|].
    now rewrite string_app_nil. }
  rewrite EQ, EN.
  destruct (Text.truthy (Text.join "/" NP)) eqn:TP; simpl.
  - assert (NP <> []) as HNP by (intros E; rewrite E in TP; discriminate).
    destruct CF as [|c CF'].
    + rewrite app_nil_r, TP. simpl. exists tail. split; [reflexivity|].
      destruct Htail as [-> | Ht]; [now left | right; now right].
    + rewrite join_app by (assumption || discriminate).
      assert (Text.truthy (Text.join "/" NP ++ "/" ++ Text.join "/" (c :: CF')) = true) as ->.
      { destruct (Text.join "/" NP); reflexivity. }
      simpl. exists ("/" ++ Text.join "/" (c :: CF') ++ tail). split.
      * now rewrite !string_app_assoc.
      * right. right. now apply (prefix_app "/" "/").
  - destruct (negb (Text.truthy (Text.join "/" (NP ++ CF)))).
    + exists "". split; [reflexivity | now left].
    + exists (Text.join "/" (NP ++ CF) ++ tail). split; [reflexivity|]. right. now left.
Qed.

Lemma join_stays_inside_witness :
  exists rest,
    Path.join "/srv/project" "docs/./a//notes.md" = Path.normalize "/srv/project" ++ rest
    /\ (rest = "" \/ Path.normalize "/srv/project" = "/" \/ String.prefix "/" rest = true).
Proof.
  apply (join_stays_inside "/srv/project" "docs/./a//notes.md"); reflexivity.
Defined.

End Paths.

(** ** The enabled agents *)

Section Agents.

Lemma prefix_shorter (a b s : string) :
  String.prefix (a ++ b) s = true -> String.prefix a s = true.
Proof.
  revert s. induction a as [|x a IH]; intros s H; [now destruct s|].
  destruct s as [|y s]; [discriminate|].
  simpl in *. destruct (ascii_dec x y); [now apply IH | discriminate].
Qed.

Lemma includes_shorter (a b s : string) :
  Text.includes a s = false -> Text.includes (a ++ b) s = false.
Proof.
  intros H. destruct (Text.includes (a ++ b) s) eqn:E; [|reflexivity].
  rewrite <- H. clear H. induction s as [|y s IH].
  - cbn [Text.includes] in *. rewrite orb_false_r in *.
    now rewrite (prefix_shorter _ _ _ E).
  - cbn [Text.includes] in *. apply orb_true_iff in E as [E|E].
    + now rewrite (prefix_shorter _ _ _ E).
    + rewrite <- (IH E). now rewrite orb_true_r.
Qed.

(** Where the opening of a comment does not occur there is nothing to cut
    out. *)
Lemma strip_disabled_none (fuel : nat) (opening s : string) :
  Text.includes opening s = false ->
  ProjectConfigManager.strip_disabled fuel opening s = s.
Proof.
  revert s. induction fuel as [|fuel IH]; intros s H; [reflexivity|].
  destruct s as [|c s]; [reflexivity|].
  cbn [ProjectConfigManager.strip_disabled].
  cbn [Text.includes] in H. apply orb_false_iff in H as [H1 H2].
  rewrite H1. now rewrite IH.
Qed.

(** X19.  What [parseEnabledAgents] answers is a selection from the known
    agents, in their order; it is all of them when [CLAUDE.md] cannot be
    read; and when [CLAUDE.md] holds no [<!-- DISABLED: ] at all, it is the
    agents whose id occurs in it between backquotes. *)
Theorem enabled_agents (fs : Fs.t) (m : ProjectConfigManager.t) :
  sublist (ProjectConfigManager.parseEnabledAgents fs m)
    ProjectConfigManager.ALL_AGENT_IDS
  /\ (Fs.readFile (Path.join (ProjectConfigManager.projectPath m) "CLAUDE.md") fs = None ->
      ProjectConfigManager.parseEnabledAgents fs m
      = ProjectConfigManager.ALL_AGENT_IDS)
  /\ (forall content,
      Fs.readFile (Path.join (ProjectConfigManager.projectPath m) "CLAUDE.md") fs
      = Some content ->
      Text.includes "<!-- DISABLED: " content = false ->
      ProjectConfigManager.parseEnabledAgents fs m
      = filter (fun a => Text.includes ("`" ++ a ++ "`") content = true)
          ProjectConfigManager.ALL_AGENT_IDS).
Proof.
  unfold ProjectConfigManager.parseEnabledAgents, ProjectConfigManager.readFile.
  change (ProjectConfigManager.invalid "CLAUDE.md") with false. cbv iota.
  split; [|split].
  - destruct (Fs.readFile _ fs); [apply sublist_filter | reflexivity].
  - now intros ->.
  - intros content -> H.
    assert (forall a, ProjectConfigManager.agent_enabled content a
                      = Text.includes ("`" ++ a ++ "`") content) as E.
    { intros a. unfold ProjectConfigManager.agent_enabled.
      now rewrite strip_disabled_none by now apply includes_shorter. }
    unfold ProjectConfigManager.ALL_AGENT_IDS.
    rewrite !filter_cons, filter_nil, !E. reflexivity.
Qed.

End Agents.

(** ** The project scanner *)

Section Scanner.

Lemma get_set_same (k : ProjectScanner.CommandType) (v : string)
  (c : ProjectScanner.Commands.t) :
  ProjectScanner.get k (ProjectScanner.set k v c) = Some v.
Proof. now destruct k. Qed.

Lemma get_set_other (k k' : ProjectScanner.CommandType) (v : string)
  (c : ProjectScanner.Commands.t) :
  k <> k' ->
  ProjectScanner.get k (ProjectScanner.set k' v c) = ProjectScanner.get k c.
Proof. destruct k, k'; intros H; try reflexivity; contradiction. Qed.

Lemma run_script_truthy (run n : string) : Text.truthy (run ++ " " ++ n) = true.
Proof. now destruct run. Qed.

Lemma add_script_truthy (run : string) (sc : gmap string string)
  (c : ProjectScanner.Commands.t) (e : string * ProjectScanner.CommandType) :
  Derived.set_truthy c -> Derived.set_truthy (ProjectScanner.add_script run sc c e).
Proof.
  intros H. destruct e as [n k']. unfold ProjectScanner.add_script.
  destruct (ProjectScanner.truthy_entry sc n); [|exact H].
  destruct (ProjectScanner.unset k' c); [|exact H].
  intros k v. destruct (decide (k = k')) as [->|N].
  - rewrite get_set_same. intros [= <-]. apply run_script_truthy.
  - rewrite get_set_other by exact N. apply H.
Qed.

Lemma unset_get (k : ProjectScanner.CommandType) (c : ProjectScanner.Commands.t) :
  Derived.set_truthy c ->
  ProjectScanner.unset k c
  = match ProjectScanner.get k c with Some _ => false | None => true end.
Proof.
  intros H. unfold ProjectScanner.unset.
  destruct (ProjectScanner.get k c) as [v|] eqn:E; [|reflexivity].
  now rewrite (H k v E).
Qed.

(** The loop over the script names keeps what is set and sets what is not
    from the first entry that fits. *)
Lemma fold_add_script (run : string) (sc : gmap string string)
  (l : list (string * ProjectScanner.CommandType))
  (c : ProjectScanner.Commands.t) (k : ProjectScanner.CommandType) :
  Derived.set_truthy c ->
  ProjectScanner.get k (fold_left (ProjectScanner.add_script run sc) l c)
  = match ProjectScanner.get k c with
    | Some v => Some v
    | None => (fun n => run ++ " " ++ n) <$> Derived.first_script_in sc k l
    end.
Proof.
  revert c. induction l as [|[n k'] l IH]; intros c H.
  - simpl. now destruct (ProjectScanner.get k c).
  - cbn [fold_left]. rewrite IH by now apply add_script_truthy.
    unfold Derived.first_script_in. cbn [List.find fst snd].
    unfold ProjectScanner.add_script.
    destruct (ProjectScanner.truthy_entry sc n) as [v|] eqn:T.
    + rewrite (unset_get k' c H).
      destruct (decide (k' = k)) as [->|N].
      * rewrite bool_decide_eq_true_2 by reflexivity.
        rewrite bool_decide_eq_true_2 by (now exists v).
        destruct (ProjectScanner.get k c) eqn:G; cbv iota; [now rewrite G|].
        now rewrite get_set_same.
      * rewrite (bool_decide_eq_false_2 _ N). cbn [andb].
        destruct (ProjectScanner.get k' c); cbv iota; [reflexivity|].
        rewrite get_set_other by congruence. reflexivity.
    + rewrite (bool_decide_eq_false_2 (is_Some None)) by (intros [? ?]; discriminate).
      now rewrite andb_false_r.
Qed.

(** X20.  Of the scripts that stand for one command, the one named first in the
    table is the one proposed: with the scripts of [package.json] at
    hand, the command of each kind runs the first script of the table that
    stands for that kind and that [package.json] has; where there is none,
    nothing is proposed, except [npx tsc --noEmit] for the type check of a
    project that depends on [typescript]. *)
Theorem commands_first_script (p : PackageJson.t) (pm : ProjectScanner.PackageManager)
  (sc : gmap string string) (k : ProjectScanner.CommandType) :
  PackageJson.scripts p = Some sc ->
  ProjectScanner.get k (ProjectScanner.extractCommands (Some p) (Some pm))
  = match Derived.first_script sc k with
    | Some n => Some (ProjectScanner.run_of pm ++ " " ++ n)
    | None =>
        if bool_decide (k = ProjectScanner.typecheck)
           && bool_decide (is_Some (ProjectScanner.truthy_entry
                                      (ProjectScanner.deps_of p) "typescript"))
        then Some "npx tsc --noEmit"
        else None
    end.
Proof.
  intros E. unfold ProjectScanner.extractCommands. rewrite E.
  assert (Derived.set_truthy ProjectScanner.no_commands) as H0 by (intros [] v; discriminate).
  set (c := fold_left _ _ _).
  assert (Derived.set_truthy c) as Hc.
  { subst c. generalize ProjectScanner.scriptMappings, ProjectScanner.no_commands, H0.
    induction l as [|e l IH]; intros c0 H; [exact H|].
    apply IH. now apply add_script_truthy. }
  assert (forall k', ProjectScanner.get k' c
                     = (fun n => ProjectScanner.run_of pm ++ " " ++ n)
                         <$> Derived.first_script sc k') as G.
  { intros k'. subst c. rewrite fold_add_script by exact H0. now destruct k'. }
  rewrite (unset_get _ c Hc), (G ProjectScanner.typecheck).
  destruct (Derived.first_script sc ProjectScanner.typecheck) as [n|] eqn:F; cbn [fmap option_fmap option_map].
  - rewrite G. destruct (Derived.first_script sc k) as [n'|] eqn:F'; [reflexivity|].
    destruct (decide (k = ProjectScanner.typecheck)) as [->|N]; [congruence|].
    now rewrite (bool_decide_eq_false_2 _ N).
  - destruct (ProjectScanner.truthy_entry _ "typescript") as [v|] eqn:T.
    + destruct (decide (k = ProjectScanner.typecheck)) as [->|N].
      * rewrite get_set_same, F.
        rewrite bool_decide_eq_true_2 by reflexivity.
        now rewrite bool_decide_eq_true_2 by (now exists v).
      * rewrite get_set_other by exact N. rewrite G.
        destruct (Derived.first_script sc k); [reflexivity|].
        now rewrite (bool_decide_eq_false_2 _ N).
    + rewrite G. destruct (Derived.first_script sc k); [reflexivity|].
      rewrite (bool_decide_eq_false_2 (is_Some None)) by (intros [? ?]; discriminate).
      now rewrite andb_false_r.
Qed.

Lemma commands_first_script_witness :
  ProjectScanner.get ProjectScanner.dev
    (ProjectScanner.extractCommands (Some Scenario.vite_app) (Some ProjectScanner.pnpm))
  = match Derived.first_script Scenario.vite_scripts ProjectScanner.dev with
    | Some n => Some (ProjectScanner.run_of ProjectScanner.pnpm ++ " " ++ n)
    | None =>
        if bool_decide (ProjectScanner.dev = ProjectScanner.typecheck)
           && bool_decide (is_Some (ProjectScanner.truthy_entry
                                      (ProjectScanner.deps_of Scenario.vite_app)
                                      "typescript"))
        then Some "npx tsc --noEmit"
        else None
    end.
Proof.
  apply (commands_first_script Scenario.vite_app ProjectScanner.pnpm
           Scenario.vite_scripts ProjectScanner.dev).
  reflexivity.
Defined.

Lemma first_framework_skip (deps : gmap string string)
  (before rest : list (string * string)) :
  Derived.none_present deps before = true ->
  ProjectScanner.first_framework deps (before ++ rest)
  = ProjectScanner.first_framework deps rest.
Proof.
  induction before as [|[d n] before IH]; [reflexivity|].
  unfold Derived.none_present. cbn [forallb fst]. intros H.
  apply andb_true_iff in H as [H1 H2]. apply bool_decide_eq_true_1 in H1.
  cbn [app ProjectScanner.first_framework]. rewrite H1. now apply IH.
Qed.

Lemma split_char_plain (d : ascii) (s : string) :
  Derived.all (fun c => negb (Ascii.eqb c d)) s = true ->
  Text.split_char d s = [s].
Proof.
  induction s as [|c s IH]; [reflexivity|].
  cbn [Derived.all Text.split_char]. intros H.
  apply andb_true_iff in H as [H1 H2]. apply negb_true_iff in H1.
  now rewrite H1, IH.
Qed.

Lemma majorVersion_app (M r : string) :
  Derived.all Text.is_digit M = true ->
  ProjectScanner.majorVersion (M ++ "." ++ r) = M.
Proof.
  intros H. unfold ProjectScanner.majorVersion.
  change ("." ++ r) with (String "." r).
  rewrite split_char_app, split_char_plain; [reflexivity|].
  clear r. induction M as [|c M IH]; [reflexivity|].
  cbn [Derived.all] in *. apply andb_true_iff in H as [H1 H2].
  rewrite IH by exact H2. rewrite andb_true_r. apply negb_true_iff.
  destruct (Ascii.eqb_spec c ".") as [->|]; [discriminate | reflexivity].
Qed.

Lemma remove_first_digits (M t : string) :
  Derived.all Text.is_digit M = true ->
  ProjectScanner.remove_first "~" (M ++ "." ++ t)
  = M ++ "." ++ ProjectScanner.remove_first "~" t.
Proof.
  induction M as [|c M IH]; [reflexivity|].
  cbn [Derived.all]. intros H. apply andb_true_iff in H as [H1 H2].
  change (String c M ++ "." ++ t) with (String c (M ++ "." ++ t)).
  cbn [ProjectScanner.remove_first].
  destruct (Ascii.eqb_spec c "~") as [->|]; [discriminate|].
  now rewrite IH.
Qed.

(** A version written as a major number, a dot and more, bare or behind
    one caret or one tilde, gives that major number. *)
Lemma major_of_range (pre M r : string) :
  pre = "" \/ pre = "^" \/ pre = "~" ->
  Derived.all Text.is_digit M = true ->
  ProjectScanner.majorVersion (ProjectScanner.strip_range (pre ++ M ++ "." ++ r)) = M.
Proof.
  intros [-> | [-> | ->]] H.
  - change ("" ++ M ++ "." ++ r) with (M ++ "." ++ r).
    assert (ProjectScanner.strip_range (M ++ "." ++ r)
            = ProjectScanner.remove_first "~" (M ++ "." ++ r)) as ->.
    { destruct M as [|c M]; [reflexivity|].
      cbn [Derived.all] in H. apply andb_true_iff in H as [H1 _].
      change (String c M ++ "." ++ r) with (String c (M ++ "." ++ r)).
      unfold ProjectScanner.strip_range.
      destruct (Ascii.eqb_spec c "^") as [->|N]; [discriminate|].
      destruct c as [[] [] [] [] [] [] [] []]; try reflexivity. now destruct N. }
    rewrite remove_first_digits by exact H. now apply majorVersion_app.
  - change (ProjectScanner.strip_range ("^" ++ M ++ "." ++ r)) with (M ++ "." ++ r).
    now apply majorVersion_app.
  - change (ProjectScanner.strip_range ("~" ++ M ++ "." ++ r)) with (M ++ "." ++ r).
    now apply majorVersion_app.
Qed.

(** X21.  The framework reported is that of the first package of the list that
    the project depends on, with the major number of its version: for a
    version written [M.x], [^M.x] or [~M.x], where no package earlier in
    the list is depended on, the answer is the framework's name, a space
    and [M]. *)
Theorem framework_major (p : PackageJson.t) (dep name pre M r : string)
  (before after : list (string * string)) :
  ProjectScanner.frameworks = (before ++ (dep, name) :: after)%list ->
  Derived.none_present (ProjectScanner.deps_of p) before = true ->
  ProjectScanner.deps_of p !! dep = Some (pre ++ M ++ "." ++ r) ->
  pre = "" \/ pre = "^" \/ pre = "~" ->
  Derived.all Text.is_digit M = true ->
  ProjectScanner.detectFramework (Some p) = Some (name ++ " " ++ M).
Proof.
  intros EF HB HD HP HM. unfold ProjectScanner.detectFramework.
  rewrite EF, first_framework_skip by exact HB.
  cbn [ProjectScanner.first_framework]. unfold ProjectScanner.truthy_entry.
  rewrite HD.
  assert (Text.truthy (pre ++ M ++ "." ++ r) = true) as ->.
  { destruct HP as [-> | [-> | ->]]; [|reflexivity..]. now destruct M. }
  now rewrite major_of_range.
Qed.

Lemma framework_major_witness :
  ProjectScanner.detectFramework (Some Scenario.vite_app) = Some ("React" ++ " " ++ "18").
Proof.
  apply (framework_major Scenario.vite_app "react" "React" "^" "18" "2.0"
           [("next", "Next.js"); ("@remix-run/react", "Remix"); ("nuxt", "Nuxt");
            ("astro", "Astro"); ("svelte", "Svelte"); ("vue", "Vue"); ("vite", "Vite")]
           [("express", "Express"); ("fastify", "Fastify"); ("hono", "Hono");
            ("electron", "Electron")]).
  - reflexivity.
  - vm_compute. reflexivity.
  - vm_compute. reflexivity.
  - right. left. reflexivity.
  - reflexivity.
Defined.

(** X22.  No package manager is answered exactly when the project directory has
    neither a lock file nor a [package.json]; with a [package.json] there
    is always a package manager and the language is known; and [mixed] is
    never the language. *)
Theorem detection_defaults (pp : string) (fs : Fs.t) :
  (ProjectScanner.detectPackageManager pp fs = None <->
   Forall (fun f => Fs.access (Path.join pp f) fs = false)
     ["bun.lockb"; "pnpm-lock.yaml"; "yarn.lock"; "package-lock.json"; "package.json"])
  /\ (Fs.access (Path.join pp "package.json") fs = true ->
      is_Some (ProjectScanner.detectPackageManager pp fs)
      /\ ProjectScanner.detectLanguage pp fs <> ProjectScanner.unknown)
  /\ ProjectScanner.detectLanguage pp fs <> ProjectScanner.mixed.
Proof.
  unfold ProjectScanner.detectPackageManager, ProjectScanner.detectLanguage,
    ProjectScanner.manager_checks, ProjectScanner.language_checks.
  cbn [ProjectScanner.first_accessible].
  rewrite !Forall_cons, Forall_nil.
  split; [split|split].
  - intros H. repeat (destruct (Fs.access _ fs); try discriminate). repeat split.
  - intros (-> & -> & -> & -> & -> & _). reflexivity.
  - intros ->. split.
    + repeat (destruct (Fs.access _ fs); try (eexists; reflexivity)).
    + repeat (destruct (Fs.access _ fs); try discriminate).
  - repeat (destruct (Fs.access _ fs); try discriminate).
Qed.

(** X23.  The scanner and the configuration manager look at the same places of
    one project: they agree on [CLAUDE.md], the implementation plan and
    [loop.sh]; the scanner reports [AGENTS.md] only where the manager does
    (it leaves out one that is still the template), and it reports [specs]
    and [.cursor/rules] wherever the manager does (it does not ask for a
    directory). *)
Theorem scanner_matches_config (fs : Fs.t) (m : ProjectConfigManager.t) :
  ProjectScanner.RalphConfig.claudeMd
    (ProjectScanner.checkRalphConfig (ProjectConfigManager.projectPath m) fs)
  = ProjectConfig.hasClaudeMd (ProjectConfigManager.config (ProjectConfigManager.refresh fs m))
  /\ ProjectScanner.RalphConfig.implementationPlan
       (ProjectScanner.checkRalphConfig (ProjectConfigManager.projectPath m) fs)
     = ProjectConfig.hasImplementationPlan
         (ProjectConfigManager.config (ProjectConfigManager.refresh fs m))
  /\ ProjectScanner.RalphConfig.loopSh
       (ProjectScanner.checkRalphConfig (ProjectConfigManager.projectPath m) fs)
     = ProjectConfig.hasLoopSh (ProjectConfigManager.config (ProjectConfigManager.refresh fs m))
  /\ (ProjectScanner.RalphConfig.agentsMd
        (ProjectScanner.checkRalphConfig (ProjectConfigManager.projectPath m) fs) = true ->
      ProjectConfig.hasAgentsMd
        (ProjectConfigManager.config (ProjectConfigManager.refresh fs m)) = true)
  /\ (ProjectConfig.hasSpecs
        (ProjectConfigManager.config (ProjectConfigManager.refresh fs m)) = true ->
      ProjectScanner.RalphConfig.specsDir
        (ProjectScanner.checkRalphConfig (ProjectConfigManager.projectPath m) fs) = true)
  /\ (ProjectConfig.hasCursorRules
        (ProjectConfigManager.config (ProjectConfigManager.refresh fs m)) = true ->
      ProjectScanner.RalphConfig.cursorRules
        (ProjectScanner.checkRalphConfig (ProjectConfigManager.projectPath m) fs) = true).
Proof.
  unfold ProjectScanner.checkRalphConfig, ProjectConfigManager.refresh,
    ProjectConfigManager.fileExists, ProjectConfigManager.dirExists, Fs.isDirectory,
    Fs.access.
  cbn [ProjectConfigManager.config ProjectConfig.hasAgentsMd ProjectConfig.hasClaudeMd
       ProjectConfig.hasImplementationPlan ProjectConfig.hasSpecs
       ProjectConfig.hasCursorRules ProjectConfig.hasLoopSh
       ProjectScanner.RalphConfig.agentsMd ProjectScanner.RalphConfig.claudeMd
       ProjectScanner.RalphConfig.implementationPlan ProjectScanner.RalphConfig.loopSh
       ProjectScanner.RalphConfig.specsDir ProjectScanner.RalphConfig.cursorRules].
  repeat split.
  - destruct (_ || _); [reflexivity | discriminate].
  - intros ->. apply orb_true_r.
  - intros ->. apply orb_true_r.
Qed.

End Scanner.

(** ** The documents of the PRD generator *)

Section Documents_of_output.

Lemma all_space_trimStart (s : string) :
  Text.trimStart s = "" <-> Derived.all Text.is_space s = true.
Proof.
  induction s as [|c s IH]; [easy|].
  cbn [Text.trimStart Derived.all]. destruct (Text.is_space c); [exact IH | easy].
Qed.

Lemma all_space_trimEnd (s : string) :
  Text.trimEnd s = "" <-> Derived.all Text.is_space s = true.
Proof.
  induction s as [|c s IH]; [easy|].
  cbn [Text.trimEnd Derived.all].
  destruct (Text.trimEnd s) eqn:E.
  - destruct IH as [IH _]. rewrite (IH eq_refl), andb_true_r.
    destruct (Text.is_space c); easy.
  - split; [discriminate|]. intros H. apply andb_true_iff in H as [_ H].
    apply IH in H. discriminate.
Qed.

Lemma trimEnd_idem (s : string) : Text.trimEnd (Text.trimEnd s) = Text.trimEnd s.
Proof.
  induction s as [|c s IH]; [reflexivity|].
  cbn [Text.trimEnd]. destruct (Text.trimEnd s) as [|d t] eqn:E.
  - destruct (Text.is_space c) eqn:Hc; [reflexivity|].
    cbn [Text.trimEnd]. now rewrite Hc.
  - cbn [Text.trimEnd] in *. now rewrite IH.
Qed.

Lemma trimStart_head (s : string) :
  Text.trimStart s = ""
  \/ exists c t, Text.trimStart s = String c t /\ Text.is_space c = false.
Proof.
  induction s as [|c s IH]; [now left|].
  cbn [Text.trimStart]. destruct (Text.is_space c) eqn:Hc; [exact IH|].
  right. now exists c, s.
Qed.

Lemma trimEnd_cons (c : ascii) (s : string) :
  Text.is_space c = false ->
  Text.trimEnd (String c s) = String c (Text.trimEnd s).
Proof.
  intros Hc. cbn [Text.trimEnd]. destruct (Text.trimEnd s); [now rewrite Hc | reflexivity].
Qed.

Lemma trimEnd_cons_ne (c : ascii) (s : string) :
  Text.trimStart (String c s) <> "" ->
  Text.trimEnd (String c s) = String c (Text.trimEnd s).
Proof.
  intros H. cbn [Text.trimEnd]. destruct (Text.trimEnd s) eqn:E; [|reflexivity].
  apply all_space_trimEnd, all_space_trimStart in E.
  cbn [Text.trimStart] in H. destruct (Text.is_space c); [contradiction | reflexivity].
Qed.

(** [trim] changes nothing in what it has trimmed. *)
Lemma trim_idem (s : string) : Text.trim (Text.trim s) = Text.trim s.
Proof.
  unfold Text.trim.
  destruct (trimStart_head s) as [-> | (c & t & -> & Hc)]; [reflexivity|].
  rewrite (trimEnd_cons c t Hc). cbn [Text.trimStart]. rewrite Hc.
  rewrite (trimEnd_cons c _ Hc). now rewrite trimEnd_idem.
Qed.

Lemma prefix_cut (n a b : string) :
  String.length n <= String.length a ->
  String.prefix n (a ++ b) = String.prefix n a.
Proof.
  revert a. induction n as [|x n IH]; intros a H; [now destruct a; destruct b|].
  destruct a as [|y a]; [simpl in H; lia|].
  change (String y a ++ b) with (String y (a ++ b)).
  cbn [String.prefix]. destruct (ascii_dec x y); [|reflexivity].
  apply IH. simpl in H. lia.
Qed.

Lemma prefix_self (n b : string) : String.prefix n (n ++ b) = true.
Proof.
  induction n as [|x n IH]; [now destruct b|].
  change (String x n ++ b) with (String x (n ++ b)).
  cbn [String.prefix]. now destruct (ascii_dec x x).
Qed.

Lemma drop_self (n b : string) : Text.drop (String.length n) (n ++ b) = b.
Proof.
  induction n as [|x n IH]; [now destruct b|].
  change (String x n ++ b) with (String x (n ++ b)). exact IH.
Qed.

Lemma includes_prefix (n s : string) :
  Text.includes n s = false -> String.prefix n s = false.
Proof. destruct s; cbn [Text.includes]; intros H; now apply orb_false_iff in H. Qed.

(** A marker that begins nowhere inside [pre] is not found at any place of
    [pre], whatever follows the marker that stands after [pre]. *)
Lemma no_begin (M I : string) (l : ascii) (pre : string) :
  M = I ++ String l "" ->
  Text.includes M (pre ++ I) = false ->
  forall x y rest, pre = x ++ y -> y <> "" ->
    String.prefix M (y ++ M ++ rest) = false.
Proof.
  intros EM H x y rest -> Hy.
  rewrite string_app_assoc in H.
  assert (Text.includes M (y ++ I) = false) as H'.
  { destruct (Text.includes M (y ++ I)) eqn:E; [|reflexivity].
    now rewrite (includes_app_l M x _ E) in H. }
  apply includes_prefix in H'. rewrite <- H'.
  assert (y ++ M ++ rest = (y ++ I) ++ String l rest) as ->.
  { rewrite EM, !string_app_assoc. reflexivity. }
  apply prefix_cut.
  rewrite EM, !string_app_length. destruct y; [contradiction|]. simpl. lia.
Qed.

Lemma lazy_group_here (END s : string) :
  String.prefix END (Text.trimStart s) = true ->
  PRDGenerator.lazy_group END s = Some "".
Proof. intros H. destruct s; cbn [PRDGenerator.lazy_group]; now rewrite H. Qed.

Lemma lazy_group_on (END : string) (c : ascii) (s : string) :
  String.prefix END (Text.trimStart (String c s)) = false ->
  PRDGenerator.lazy_group END (String c s)
  = option_map (String c) (PRDGenerator.lazy_group END s).
Proof. intros H. cbn [PRDGenerator.lazy_group]. now rewrite H. Qed.

Lemma lazy_group_trimEnd (END : string) (e : ascii) (E' b rest : string) :
  END = String e E' -> Text.is_space e = false ->
  (forall x y, b = x ++ y -> y <> "" -> String.prefix END (y ++ END ++ rest) = false) ->
  PRDGenerator.lazy_group END (b ++ END ++ rest) = Some (Text.trimEnd b).
Proof.
  intros EE He.
  assert (Text.trimStart (END ++ rest) = END ++ rest) as TE.
  { rewrite EE. change (String e E' ++ rest) with (String e (E' ++ rest)).
    cbn [Text.trimStart]. now rewrite He. }
  induction b as [|c b IH]; intros H.
  - apply lazy_group_here. change ("" ++ END ++ rest) with (END ++ rest).
    rewrite TE. apply prefix_self.
  - destruct (Text.trimStart (String c b)) as [|d t] eqn:T.
    + rewrite lazy_group_here.
      * f_equal. symmetry. apply all_space_trimEnd. now apply all_space_trimStart.
      * rewrite trimStart_app_cases, T, TE. apply prefix_self.
    + change (String c b ++ END ++ rest) with (String c (b ++ END ++ rest)).
      rewrite lazy_group_on.
      * rewrite IH.
        -- cbn [option_map]. f_equal. symmetry. apply trimEnd_cons_ne.
           rewrite T. discriminate.
        -- intros x y -> Hy. apply (H (String c x) y); [reflexivity | exact Hy].
      * change (String c (b ++ END ++ rest)) with (String c b ++ END ++ rest).
        rewrite trimStart_app_cases, T.
        destruct (trimStart_split (String c b)) as (ws & Ews & _). rewrite T in Ews.
        change (String d (t ++ END ++ rest)) with (String d t ++ END ++ rest).
        apply (H ws (String d t) Ews). discriminate.
Qed.

Lemma exec_cons (START END : string) (c : ascii) (s : string) :
  PRDGenerator.exec START END (String c s)
  = match PRDGenerator.match_here START END (String c s) with
    | Some g => Some g
    | None => PRDGenerator.exec START END s
    end.
Proof. reflexivity. Qed.

Lemma exec_found (START END s g : string) :
  PRDGenerator.match_here START END s = Some g ->
  PRDGenerator.exec START END s = Some g.
Proof. intros H. destruct s; cbn [PRDGenerator.exec]; now rewrite H. Qed.

(** The text between the first [START] and the first [END] after it, with
    the white space at its ends taken off, is what the pattern captures. *)
Lemma exec_between (START SI : string) (sl : ascii) (END : string) (e : ascii)
  (E' EI : string) (el : ascii) (pre body post : string) :
  START = SI ++ String sl "" ->
  END = String e E' -> Text.is_space e = false -> END = EI ++ String el "" ->
  Text.includes START (pre ++ SI) = false ->
  Text.includes END (body ++ EI) = false ->
  PRDGenerator.exec START END (pre ++ START ++ body ++ END ++ post)
  = Some (Text.trim body).
Proof.
  intros ES EE He EE' HS HE.
  pose proof (no_begin START SI sl pre ES HS) as NS. clear HS.
  induction pre as [|c pre IH].
  - apply exec_found. unfold PRDGenerator.match_here.
    change ("" ++ START ++ body ++ END ++ post) with (START ++ body ++ END ++ post).
    rewrite prefix_self, drop_self.
    assert (Text.trimStart (body ++ END ++ post)
            = Text.trimStart body ++ END ++ post) as ->.
    { rewrite trimStart_app_cases. destruct (Text.trimStart body); [|reflexivity].
      rewrite EE. change (String e E' ++ post) with (String e (E' ++ post)).
      cbn [Text.trimStart]. now rewrite He. }
    apply (lazy_group_trimEnd END e E' _ post EE He).
    intros x y Exy Hy.
    destruct (trimStart_split body) as (ws & Ews & _).
    apply (no_begin END EI el body EE' HE (ws ++ x) y post); [|exact Hy].
    rewrite string_app_assoc, <- Exy. exact Ews.
  - change (String c pre ++ START ++ body ++ END ++ post)
      with (String c (pre ++ START ++ body ++ END ++ post)).
    rewrite exec_cons.
    assert (PRDGenerator.match_here START END
              (String c (pre ++ START ++ body ++ END ++ post)) = None) as ->.
    { unfold PRDGenerator.match_here.
      change (String c (pre ++ START ++ body ++ END ++ post))
        with (String c pre ++ START ++ body ++ END ++ post).
      now rewrite (NS "" (String c pre) _ eq_refl). }
    apply IH. intros x y rest -> Hy. now apply (NS (String c x) y rest).
Qed.

Lemma prefix_includes (n s : string) :
  String.prefix n s = true -> Text.includes n s = true.
Proof. intros H. destruct s; cbn [Text.includes]; now rewrite H. Qed.

Lemma includes_trimStart (n s : string) :
  Text.includes n (Text.trimStart s) = true -> Text.includes n s = true.
Proof.
  intros H. destruct (trimStart_split s) as (ws & E & _). rewrite E.
  now apply includes_app_l.
Qed.

Lemma includes_drop (n : string) (k : nat) (s : string) :
  Text.includes n (Text.drop k s) = true -> Text.includes n s = true.
Proof.
  revert s. induction k as [|k IH]; intros s H; [now destruct s|].
  destruct s as [|c s]; [exact H|].
  cbn [Text.drop] in H. cbn [Text.includes]. rewrite (IH s H). apply orb_true_r.
Qed.

Lemma includes_tail (n : string) (c : ascii) (s : string) :
  Text.includes n (String c s) = false -> Text.includes n s = false.
Proof. cbn [Text.includes]. intros H. now apply orb_false_iff in H. Qed.

Lemma lazy_group_none (END s : string) :
  Text.includes END s = false -> PRDGenerator.lazy_group END s = None.
Proof.
  induction s as [|c s IH]; intros H.
  - apply includes_prefix in H. cbn [PRDGenerator.lazy_group Text.trimStart].
    now rewrite H.
  - rewrite lazy_group_on.
    + now rewrite IH by now apply includes_tail in H.
    + destruct (String.prefix END (Text.trimStart (String c s))) eqn:P; [|reflexivity].
      apply prefix_includes, includes_trimStart in P. congruence.
Qed.

Lemma match_here_none (START END s : string) :
  Text.includes START s = false \/ Text.includes END s = false ->
  PRDGenerator.match_here START END s = None.
Proof.
  intros [H|H]; unfold PRDGenerator.match_here.
  - now rewrite (includes_prefix _ _ H).
  - destruct (String.prefix START s); [|reflexivity].
    apply lazy_group_none.
    destruct (Text.includes END (Text.trimStart _)) eqn:P; [|reflexivity].
    apply includes_trimStart, includes_drop in P. congruence.
Qed.

(** Without the one marker or the other in the text there is no match. *)
Lemma exec_none (START END s : string) :
  Text.includes START s = false \/ Text.includes END s = false ->
  PRDGenerator.exec START END s = None.
Proof.
  induction s as [|c s IH]; intros H.
  - cbn [PRDGenerator.exec]. now rewrite match_here_none.
  - rewrite exec_cons, match_here_none by exact H.
    apply IH. destruct H as [H|H]; [left | right]; now apply includes_tail in H.
Qed.

(** X24.  An answer that holds the two documents between their markers gives
    them back with the white space at their ends taken off, whatever
    stands before, between and after them: [prd] is the text between the
    first [===PRD_START===] and the first [===PRD_END===] after it, and
    [audience] the text between the first [===AUDIENCE_START===] and the
    first [===AUDIENCE_END===] after it. *)
Theorem documents_between (a prd b aud c : string) :
  Derived.begins_in "===PRD_START===" a = false ->
  Derived.begins_in "===PRD_END===" prd = false ->
  Derived.begins_in "===AUDIENCE_START==="
    (a ++ "===PRD_START===" ++ prd ++ "===PRD_END===" ++ b) = false ->
  Derived.begins_in "===AUDIENCE_END===" aud = false ->
  PRDGenerator.parseDocuments
    (a ++ "===PRD_START===" ++ prd ++ "===PRD_END===" ++ b
       ++ "===AUDIENCE_START===" ++ aud ++ "===AUDIENCE_END===" ++ c)
  = PRDGenerator.Documents.mk (Text.trim prd) (Text.trim aud).
Proof.
  intros H1 H2 H3 H4. unfold PRDGenerator.parseDocuments.
  rewrite (exec_between "===PRD_START===" "===PRD_START==" "=" "===PRD_END===" "="
             "==PRD_END===" "===PRD_END==" "=" a prd
             (b ++ "===AUDIENCE_START===" ++ aud ++ "===AUDIENCE_END===" ++ c)
             eq_refl eq_refl eq_refl eq_refl H1 H2).
  assert (a ++ "===PRD_START===" ++ prd ++ "===PRD_END===" ++ b
            ++ "===AUDIENCE_START===" ++ aud ++ "===AUDIENCE_END===" ++ c
          = (a ++ "===PRD_START===" ++ prd ++ "===PRD_END===" ++ b)
              ++ "===AUDIENCE_START===" ++ aud ++ "===AUDIENCE_END===" ++ c) as ->.
  { now rewrite !string_app_assoc. }
  rewrite (exec_between "===AUDIENCE_START===" "===AUDIENCE_START==" "="
             "===AUDIENCE_END===" "=" "==AUDIENCE_END===" "===AUDIENCE_END==" "="
             _ aud c eq_refl eq_refl eq_refl eq_refl H3 H4).
  now rewrite !trim_idem.
Qed.

Lemma documents_between_witness :
  PRDGenerator.parseDocuments
    ("Here they are." ++ NL ++ "===PRD_START===" ++ Scenario.answer_prd
       ++ "===PRD_END===" ++ NL ++ NL
       ++ "===AUDIENCE_START===" ++ Scenario.answer_audience ++ "===AUDIENCE_END===" ++ NL)
  = PRDGenerator.Documents.mk (Text.trim Scenario.answer_prd)
      (Text.trim Scenario.answer_audience).
Proof.
  apply (documents_between ("Here they are." ++ NL) Scenario.answer_prd (NL ++ NL)
           Scenario.answer_audience NL); reflexivity.
Defined.

(** X25.  An answer that lacks [===PRD_START===] or [===PRD_END===] is taken for
    the PRD as it stands, untrimmed; one that lacks
    [===AUDIENCE_START===] or [===AUDIENCE_END===] gives an empty audience
    document. *)
Theorem documents_fallback (output : string) :
  (Text.includes "===PRD_START===" output = false
   \/ Text.includes "===PRD_END===" output = false ->
   PRDGenerator.Documents.prd (PRDGenerator.parseDocuments output) = output)
  /\ (Text.includes "===AUDIENCE_START===" output = false
      \/ Text.includes "===AUDIENCE_END===" output = false ->
      PRDGenerator.Documents.audience (PRDGenerator.parseDocuments output) = "").
Proof.
  unfold PRDGenerator.parseDocuments. cbn [PRDGenerator.Documents.prd
    PRDGenerator.Documents.audience].
  split; intros H; now rewrite exec_none.
Qed.

End Documents_of_output.

(** ** The repository name *)

Section Remote.

Lemma app_git_not_git (r : string) : r <> "" -> String.eqb (r ++ ".git") ".git" = false.
Proof.
  intros H. apply String.eqb_neq. intros E.
  apply (f_equal String.length) in E. rewrite string_app_length in E.
  destruct r; [contradiction|]. simpl in E. lia.
Qed.

Lemma app_git_not_empty (r : string) : String.eqb (r ++ ".git") "" = false.
Proof. now destruct r. Qed.

Lemma lazy_name_git (r : string) :
  r <> "" -> Derived.all (fun c => negb (Text.is_line_terminator c)) r = true ->
  GitRemote.lazy_name (r ++ ".git") = Some r.
Proof.
  induction r as [|c r IH]; [contradiction|]. intros _ H.
  cbn [Derived.all] in H. apply andb_true_iff in H as [H1 H2].
  apply negb_true_iff in H1.
  change (String c r ++ ".git") with (String c (r ++ ".git")).
  cbn [GitRemote.lazy_name]. rewrite H1.
  destruct r as [|d r]; [reflexivity|].
  rewrite app_git_not_git, app_git_not_empty by discriminate. cbn [orb].
  now rewrite IH by (discriminate || assumption).
Qed.

Lemma lazy_name_bare (r : string) :
  r <> "" -> Derived.all (fun c => negb (Text.is_line_terminator c)) r = true ->
  (forall g, r <> g ++ ".git") ->
  GitRemote.lazy_name r = Some r.
Proof.
  induction r as [|c r IH]; [contradiction|]. intros _ H N.
  cbn [Derived.all] in H. apply andb_true_iff in H as [H1 H2].
  apply negb_true_iff in H1.
  cbn [GitRemote.lazy_name]. rewrite H1.
  destruct (String.eqb_spec r ".git") as [->|Ng]; [destruct (N (String c "")); reflexivity|].
  destruct r as [|d r]; [reflexivity|].
  change (String.eqb (String d r) "") with false. cbn [orb].
  assert (GitRemote.lazy_name (String d r) = Some (String d r)) as ->; [|reflexivity].
  apply IH; [discriminate | exact H2 |].
  intros g E. apply (N (String c g)). now rewrite E.
Qed.

(** X26.  The two ways of writing the address of a repository on GitHub give
    one name: after [https://github.com/] and after [git@github.com:], a
    path on one line gives itself as the name when [.git] follows it, and
    also when nothing follows it unless the path itself ends in [.git]. *)
Theorem repo_name_forms (r : string) :
  r <> "" ->
  Derived.all (fun c => negb (Text.is_line_terminator c)) r = true ->
  GitRemote.repoName (Some ("https://github.com/" ++ r ++ ".git")) = Some r
  /\ GitRemote.repoName (Some ("git@github.com:" ++ r ++ ".git")) = Some r
  /\ ((forall g, r <> g ++ ".git") ->
      GitRemote.repoName (Some ("https://github.com/" ++ r)) = Some r
      /\ GitRemote.repoName (Some ("git@github.com:" ++ r)) = Some r).
Proof.
  intros Hr Hl.
  assert (forall t, GitRemote.lazy_name t = Some r ->
            GitRemote.repoName (Some ("https://github.com/" ++ t)) = Some r
            /\ GitRemote.repoName (Some ("git@github.com:" ++ t)) = Some r) as K.
  { intros t Ht. split.
    - cbn. now rewrite Ht.
    - cbn. now rewrite Ht. }
  split; [|split].
  - now apply K, lazy_name_git.
  - now apply K, lazy_name_git.
  - intros N. now apply K, lazy_name_bare.
Qed.

Lemma repo_name_forms_witness :
  GitRemote.repoName (Some ("https://github.com/" ++ "octo/ralph.js" ++ ".git"))
  = Some "octo/ralph.js"
  /\ GitRemote.repoName (Some ("git@github.com:" ++ "octo/ralph.js" ++ ".git"))
     = Some "octo/ralph.js"
  /\ ((forall g, "octo/ralph.js" <> g ++ ".git") ->
      GitRemote.repoName (Some ("https://github.com/" ++ "octo/ralph.js"))
      = Some "octo/ralph.js"
      /\ GitRemote.repoName (Some ("git@github.com:" ++ "octo/ralph.js"))
         = Some "octo/ralph.js").
Proof.
  apply (repo_name_forms "octo/ralph.js"); [discriminate | reflexivity].
Defined.

End Remote.

(** ** Switching agents on and off *)

Section Toggle.

Lemma all_app (p : ascii -> bool) (a b : string) :
  Derived.all p (a ++ b) = Derived.all p a && Derived.all p b.
Proof.
  induction a as [|c a IH]; [reflexivity|].
  change (String c a ++ b) with (String c (a ++ b)).
  cbn [Derived.all]. now rewrite IH, andb_assoc.
Qed.

Lemma all_impl (p q : ascii -> bool) (s : string) :
  (forall c, p c = true -> q c = true) ->
  Derived.all p s = true -> Derived.all q s = true.
Proof.
  intros I. induction s as [|c s IH]; [reflexivity|].
  cbn [Derived.all]. intros H. apply andb_true_iff in H as [H1 H2].
  now rewrite (I c H1), IH.
Qed.

Lemma plain_free (h : ascii) (s : string) :
  In h ["|"; "*"; "<"; ">"; "`"]%char ->
  Derived.all Derived.plain s = true -> Derived.free_of h s = true.
Proof.
  intros Hh. apply all_impl. intros c Hc. unfold Derived.plain in Hc.
  repeat (apply andb_true_iff in Hc as [Hc ?]).
  destruct Hh as [<-|[<-|[<-|[<-|[<-|[]]]]]]; assumption.
Qed.

Lemma free_app (h : ascii) (a b : string) :
  Derived.free_of h (a ++ b) = Derived.free_of h a && Derived.free_of h b.
Proof. apply all_app. Qed.

Lemma replace_all_nil (m : string -> option (string * nat)) (k : nat) :
  ProjectConfigAgents.replace_all m k "" = "".
Proof. reflexivity. Qed.

Lemma replace_all_skip (m : string -> option (string * nat)) (a r : string) :
  ProjectConfigAgents.replace_all m (String.length a) (a ++ r)
  = ProjectConfigAgents.replace_all m 0 r.
Proof.
  induction a as [|c a IH]; [now destruct r|].
  change (String c a ++ r) with (String c (a ++ r)). exact IH.
Qed.

(** Where the matches all begin with one character, a text without that
    character goes through as it is. *)
Lemma replace_all_free (h : ascii) (m : string -> option (string * nat)) (p r : string) :
  (forall c t, m (String c t) <> None -> c = h) ->
  Derived.free_of h p = true ->
  ProjectConfigAgents.replace_all m 0 (p ++ r)
  = p ++ ProjectConfigAgents.replace_all m 0 r.
Proof.
  intros Hm. induction p as [|c p IH]; [reflexivity|].
  unfold Derived.free_of. cbn [Derived.all]. intros H.
  apply andb_true_iff in H as [H1 H2].
  change (String c p ++ r) with (String c (p ++ r)).
  cbn [ProjectConfigAgents.replace_all].
  destruct (m (String c (p ++ r))) as [[put n]|] eqn:E.
  - assert (c = h) as -> by (apply (Hm c (p ++ r)); now rewrite E).
    now rewrite Ascii.eqb_refl in H1.
  - rewrite (IH H2). reflexivity.
Qed.

Lemma replace_all_found (m : string -> option (string * nat)) (a r put : string) :
  a <> "" -> m (a ++ r) = Some (put, String.length a) ->
  ProjectConfigAgents.replace_all m 0 (a ++ r)
  = put ++ ProjectConfigAgents.replace_all m 0 r.
Proof.
  intros Ha E. destruct a as [|c a]; [contradiction|].
  change (String c a ++ r) with (String c (a ++ r)) in *.
  cbn [ProjectConfigAgents.replace_all]. rewrite E.
  cbn [String.length]. rewrite Nat.sub_succ, Nat.sub_0_r.
  now rewrite replace_all_skip.
Qed.

Lemma prefix_head (h : ascii) (n : string) (c : ascii) (t : string) :
  String.prefix (String h n) (String c t) = true -> c = h.
Proof. cbn [String.prefix]. now destruct (ascii_dec h c). Qed.

Lemma wrap_row_head (agentId : string) (c : ascii) (t : string) :
  ProjectConfigAgents.wrap_row agentId (String c t) <> None -> c = "|"%char.
Proof.
  unfold ProjectConfigAgents.wrap_row, ProjectConfigAgents.match_row.
  destruct (String.prefix "| " (String c t)) eqn:P; [|congruence].
  intros _. now apply prefix_head in P.
Qed.

Lemma wrap_delegate_head (agentId : string) (c : ascii) (t : string) :
  ProjectConfigAgents.wrap_delegate agentId (String c t) <> None -> c = "*"%char.
Proof.
  unfold ProjectConfigAgents.wrap_delegate, ProjectConfigAgents.match_delegate.
  destruct (String.prefix _ (String c t)) eqn:P; [|congruence].
  intros _. now apply prefix_head in P.
Qed.

Lemma unwrap_head (agentId : string) (c : ascii) (t : string) :
  ProjectConfigAgents.unwrap agentId (String c t) <> None -> c = "<"%char.
Proof.
  unfold ProjectConfigAgents.unwrap.
  destruct (String.prefix _ (String c t)) eqn:P; [|congruence].
  intros _. now apply prefix_head in P.
Qed.

Lemma ends_with_space_app (a : string) :
  ProjectConfigAgents.ends_with_space (a ++ " ") = true.
Proof.
  induction a as [|c a IH]; [reflexivity|].
  change (String c a ++ " ") with (String c (a ++ " ")).
  cbn [ProjectConfigAgents.ends_with_space]. rewrite IH. now destruct a.
Qed.

Lemma span_stop (p : ascii -> bool) (a : string) (c : ascii) (r : string) :
  Derived.all p a = true -> p c = false ->
  Text.span p (a ++ String c r) = (a, String c r).
Proof.
  intros Ha Hc. rewrite span_app by exact Ha.
  cbn [Text.span]. rewrite Hc. cbn [fst snd]. now rewrite string_app_nil.
Qed.

(** The row of an agent is matched whole, whatever follows it. *)
Lemma match_row_here (agentId name r : string) :
  name <> "" -> Derived.free_of "|" name = true ->
  ProjectConfigAgents.match_row agentId (Derived.agent_row agentId name ++ r)
  = Some (Derived.agent_row agentId name).
Proof.
  intros Hn Hf. unfold ProjectConfigAgents.match_row, Derived.agent_row.
  assert (("| " ++ name ++ " | `" ++ agentId ++ "` |") ++ r
          = "| " ++ (name ++ " ") ++ String "|" (" `" ++ agentId ++ "` |" ++ r)) as ->.
  { rewrite !string_app_assoc. reflexivity. }
  rewrite (prefix_self "| ").
  change (Text.drop 2) with (Text.drop (String.length "| ")). rewrite (drop_self "| ").
  rewrite span_stop; [|unfold Derived.free_of in Hf; now rewrite all_app, Hf|reflexivity].
  rewrite ends_with_space_app, string_app_length.
  assert ((2 <=? String.length name + String.length " ")%nat = true) as ->.
  { apply Nat.leb_le. destruct name; [contradiction|]. simpl. lia. }
  assert (String.prefix ("| `" ++ agentId ++ "` |")
            (String "|" (" `" ++ agentId ++ "` |" ++ r)) = true) as ->.
  { change (String "|" (" `" ++ agentId ++ "` |" ++ r))
      with ("| `" ++ agentId ++ "` |" ++ r).
    assert ("| `" ++ agentId ++ "` |" ++ r = ("| `" ++ agentId ++ "` |") ++ r) as ->
      by now rewrite !string_app_assoc.
    apply prefix_self. }
  cbn [andb]. f_equal. now rewrite !string_app_assoc.
Qed.

Lemma bullet_lines_length (items : list string) :
  length items <= String.length (Derived.bullet_lines items).
Proof.
  induction items as [|i items IH]; [reflexivity|].
  cbn [Derived.bullet_lines length]. rewrite !string_app_length. simpl. lia.
Qed.

Lemma item_ok_parts (i : string) :
  Derived.item_ok i = true ->
  (exists c t, i = String c t) /\ Derived.all Derived.plain i = true
  /\ Derived.free_of "010" i = true.
Proof.
  unfold Derived.item_ok. intros H.
  apply andb_true_iff in H as [H H3]. apply andb_true_iff in H as [H1 H2].
  repeat split; try assumption. destruct i as [|c t]; [discriminate|]. now exists c, t.
Qed.

(** The lines of a list are matched as far as they go. *)
Lemma bullets_here (items : list string) (post : string) (fuel : nat) :
  Forall (fun i => Derived.item_ok i = true) items ->
  String.prefix "- " post = false ->
  length items < fuel ->
  ProjectConfigAgents.bullets fuel (Derived.bullet_lines items ++ post)
  = Derived.bullet_lines items.
Proof.
  intros Hi Hp. revert fuel. induction Hi as [|i items Hok _ IH]; intros fuel Hf.
  - destruct fuel as [|fuel]; [reflexivity|].
    cbn [Derived.bullet_lines]. change ("" ++ post) with post.
    cbn [ProjectConfigAgents.bullets]. now rewrite Hp.
  - destruct fuel as [|fuel]; [simpl in Hf; lia|].
    destruct (item_ok_parts i Hok) as ((c & t & ->) & _ & Hnl).
    cbn [Derived.bullet_lines].
    set (i := String c t) in *.
    assert (("- " ++ i ++ NL ++ Derived.bullet_lines items) ++ post
            = "- " ++ i ++ String "010" (Derived.bullet_lines items ++ post)) as ->.
    { rewrite !string_app_assoc. reflexivity. }
    cbn [ProjectConfigAgents.bullets].
    rewrite (prefix_self "- ").
    change (Text.drop 2) with (Text.drop (String.length "- ")). rewrite (drop_self "- ").
    rewrite span_stop by (exact Hnl || reflexivity).
    subst i. cbv beta iota zeta. rewrite IH by (simpl in Hf; lia). reflexivity.
Qed.

Lemma bullet_lines_free (h : ascii) (items : list string) :
  In h ["|"; "*"; "<"; ">"; "`"]%char ->
  Forall (fun i => Derived.item_ok i = true) items ->
  Derived.free_of h (Derived.bullet_lines items) = true.
Proof.
  intros Hh Hi. induction Hi as [|i items Hok _ IH]; [reflexivity|].
  destruct (item_ok_parts i Hok) as (_ & Hp & _).
  cbn [Derived.bullet_lines]. rewrite !free_app, IH, (plain_free h i Hh Hp).
  destruct Hh as [<-|[<-|[<-|[<-|[<-|[]]]]]]; reflexivity.
Qed.

Lemma agent_id_plain (agentId : string) :
  In agentId ProjectConfigManager.ALL_AGENT_IDS ->
  Derived.all Derived.plain agentId = true.
Proof. intros [<-|[<-|[<-|[]]]]; reflexivity. Qed.

(** The pieces of the document hold none of the characters that begin or
    end a match. *)
Lemma row_free (h : ascii) (agentId name : string) :
  In h ["*"; "<"; ">"]%char ->
  Derived.all Derived.plain agentId = true -> Derived.all Derived.plain name = true ->
  Derived.free_of h (Derived.agent_row agentId name) = true.
Proof.
  intros Hh Hi Hn. unfold Derived.agent_row.
  assert (In h ["|"; "*"; "<"; ">"; "`"]%char) as Hh' by (simpl in *; tauto).
  rewrite !free_app, (plain_free h _ Hh' Hi), (plain_free h _ Hh' Hn).
  destruct Hh as [<-|[<-|[<-|[]]]]; reflexivity.
Qed.

Lemma section_free (h : ascii) (agentId : string) (items : list string) :
  In h ["|"; "<"; ">"]%char ->
  Derived.all Derived.plain agentId = true ->
  Forall (fun i => Derived.item_ok i = true) items ->
  Derived.free_of h (Derived.delegate_section agentId items) = true.
Proof.
  intros Hh Hi Hs. unfold Derived.delegate_section.
  assert (In h ["|"; "*"; "<"; ">"; "`"]%char) as Hh' by (simpl in *; tauto).
  rewrite !free_app, (plain_free h _ Hh' Hi), (bullet_lines_free h _ Hh' Hs).
  destruct Hh as [<-|[<-|[<-|[]]]]; reflexivity.
Qed.

Lemma replace_all_id (h : ascii) (m : string -> option (string * nat)) (p : string) :
  (forall c t, m (String c t) <> None -> c = h) ->
  Derived.free_of h p = true ->
  ProjectConfigAgents.replace_all m 0 p = p.
Proof.
  intros Hm Hp. rewrite <- (string_app_nil p) at 1.
  rewrite (replace_all_free h m p "" Hm Hp). apply string_app_nil.
Qed.

Lemma match_delegate_here (agentId : string) (items : list string) (post : string) :
  items <> [] ->
  Forall (fun i => Derived.item_ok i = true) items ->
  String.prefix "- " post = false ->
  ProjectConfigAgents.match_delegate agentId
    (Derived.delegate_section agentId items ++ post)
  = Some (Derived.delegate_section agentId items).
Proof.
  intros Hne Hi Hp. unfold ProjectConfigAgents.match_delegate.
  set (header := "**Delegate to `" ++ agentId ++ "` when:**" ++ NL).
  assert (Derived.delegate_section agentId items = header ++ Derived.bullet_lines items) as E.
  { unfold Derived.delegate_section, header. now rewrite !string_app_assoc. }
  rewrite E, string_app_assoc, prefix_self, drop_self.
  rewrite bullets_here; [| exact Hi | exact Hp |].
  - destruct items as [|i items]; [contradiction|]. reflexivity.
  - rewrite !string_app_length. pose proof (bullet_lines_length items).
    unfold header. rewrite string_app_length. simpl. lia.
Qed.

Lemma arrow_not_here (c : ascii) (g r : string) :
  Derived.free_of ">" (String c g) = true ->
  String.prefix "-->" (String c g ++ "-->" ++ r) = false.
Proof.
  unfold Derived.free_of. cbn [Derived.all]. intros H.
  apply andb_true_iff in H as [_ H].
  change (String c g ++ "-->" ++ r) with (String c (g ++ "-->" ++ r)).
  cbn [String.prefix]. destruct (ascii_dec "-" c); [|reflexivity].
  destruct g as [|c2 g]; [reflexivity|].
  change (String c2 g ++ "-->" ++ r) with (String c2 (g ++ "-->" ++ r)).
  cbn [String.prefix]. destruct (ascii_dec "-" c2); [|reflexivity].
  destruct g as [|c3 g]; [reflexivity|].
  change (String c3 g ++ "-->" ++ r) with (String c3 (g ++ "-->" ++ r)).
  cbn [String.prefix]. destruct (ascii_dec ">" c3) as [<-|]; [|reflexivity].
  cbn [Derived.all] in H. rewrite Ascii.eqb_refl in H. cbn [negb andb] in H.
  rewrite andb_false_r in H. discriminate.
Qed.

Lemma free_tail (h c : ascii) (g : string) :
  Derived.free_of h (String c g) = true -> Derived.free_of h g = true.
Proof. unfold Derived.free_of. cbn [Derived.all]. intros H. now apply andb_true_iff in H. Qed.

Lemma before_first_arrow (g r : string) :
  Derived.free_of ">" g = true ->
  ProjectConfigAgents.before_first "-->" (g ++ "-->" ++ r) = Some g.
Proof.
  induction g as [|c g IH]; intros H.
  - change ("" ++ "-->" ++ r) with ("-->" ++ r).
    unfold ProjectConfigAgents.before_first.
    destruct ("-->" ++ r) eqn:E; [discriminate|]. rewrite <- E.
    now rewrite (prefix_self "-->").
  - pose proof (arrow_not_here c g r H) as N.
    change (String c g ++ "-->" ++ r) with (String c (g ++ "-->" ++ r)) in *.
    cbn [ProjectConfigAgents.before_first]. rewrite N.
    now rewrite IH by now apply free_tail in H.
Qed.

Lemma after_first_arrow (g r : string) :
  Derived.free_of ">" g = true ->
  ProjectConfigManager.after_first "-->" (g ++ "-->" ++ r) = Some r.
Proof.
  induction g as [|c g IH]; intros H.
  - change ("" ++ "-->" ++ r) with ("-->" ++ r).
    unfold ProjectConfigManager.after_first.
    destruct ("-->" ++ r) eqn:E; [discriminate|]. rewrite <- E.
    now rewrite (prefix_self "-->"), (drop_self "-->").
  - pose proof (arrow_not_here c g r H) as N.
    change (String c g ++ "-->" ++ r) with (String c (g ++ "-->" ++ r)) in *.
    cbn [ProjectConfigManager.after_first]. rewrite N.
    apply IH. now apply free_tail in H.
Qed.

(** A comment that disables the agent is matched up to its end and the
    line feed behind it. *)
Lemma unwrap_here (agentId g r : string) :
  Derived.free_of ">" g = true ->
  ProjectConfigAgents.unwrap agentId
    ((("<!-- DISABLED: " ++ agentId ++ NL) ++ g ++ "-->" ++ NL) ++ r)
  = Some (g, String.length (("<!-- DISABLED: " ++ agentId ++ NL) ++ g ++ "-->" ++ NL)).
Proof.
  intros H. unfold ProjectConfigAgents.unwrap.
  set (opening := "<!-- DISABLED: " ++ agentId ++ NL).
  assert ((opening ++ g ++ "-->" ++ NL) ++ r = opening ++ g ++ "-->" ++ NL ++ r) as ->
    by now rewrite !string_app_assoc.
  rewrite prefix_self, drop_self, before_first_arrow, after_first_arrow by exact H.
  rewrite (prefix_self NL). f_equal. f_equal.
  rewrite !string_app_length. simpl. lia.
Qed.

Lemma strip_free (op' p r : string) (f : nat) :
  Derived.free_of "<" p = true ->
  ProjectConfigManager.strip_disabled (String.length p + f) (String "<" op') (p ++ r)
  = p ++ ProjectConfigManager.strip_disabled f (String "<" op') r.
Proof.
  induction p as [|c p IH]; intros H; [reflexivity|].
  pose proof (free_tail _ _ _ H) as H'.
  unfold Derived.free_of in H. cbn [Derived.all] in H.
  apply andb_true_iff in H as [H _]. apply negb_true_iff in H.
  change (String c p ++ r) with (String c (p ++ r)).
  cbn [String.length Nat.add ProjectConfigManager.strip_disabled String.prefix].
  destruct (ascii_dec "<" c) as [<-|_]; [discriminate|].
  now rewrite IH.
Qed.

Lemma strip_found (op' g r : string) (f : nat) :
  Derived.free_of ">" g = true ->
  ProjectConfigManager.strip_disabled (S f) (String "<" op')
    (String "<" op' ++ g ++ "-->" ++ r)
  = ProjectConfigManager.strip_disabled f (String "<" op') r.
Proof.
  intros H. set (op := String "<" op').
  change (op ++ g ++ "-->" ++ r) with (String "<" (op' ++ g ++ "-->" ++ r)).
  cbn [ProjectConfigManager.strip_disabled].
  change (String "<" (op' ++ g ++ "-->" ++ r)) with (op ++ g ++ "-->" ++ r).
  now rewrite prefix_self, drop_self, after_first_arrow.
Qed.

Lemma includes_free (h : ascii) (n s : string) :
  Derived.free_of h s = true -> Text.includes (String h n) s = false.
Proof.
  induction s as [|c s IH]; intros H; [reflexivity|].
  pose proof (free_tail _ _ _ H) as H'.
  unfold Derived.free_of in H. cbn [Derived.all] in H.
  apply andb_true_iff in H as [H _]. apply negb_true_iff in H.
  cbn [Text.includes String.prefix].
  destruct (ascii_dec h c) as [<-|_]; [now rewrite Ascii.eqb_refl in H|].
  now rewrite IH.
Qed.

Lemma includes_mid (a n b : string) : Text.includes n (a ++ n ++ b) = true.
Proof. apply includes_app_l, prefix_includes, prefix_self. Qed.

(** What [disableAgentInContent] makes of a document that names the agent
    in one row and one section: each of the two is put in a comment. *)
Lemma disable_doc (agentId name : string) (items : list string) (pre mid post : string) :
  Derived.all Derived.plain agentId = true ->
  name <> "" -> Derived.all Derived.plain name = true ->
  items <> [] -> Forall (fun i => Derived.item_ok i = true) items ->
  Derived.all Derived.plain pre = true ->
  Derived.all Derived.plain mid = true ->
  Derived.all Derived.plain post = true ->
  String.prefix "- " post = false ->
  ProjectConfigAgents.disableAgentInContent
    (Derived.agents_doc agentId name items pre mid post) agentId
  = (pre ++ ("<!-- DISABLED: " ++ agentId ++ NL
               ++ Derived.agent_row agentId name ++ NL ++ "-->") ++ NL ++ mid)
    ++ ("<!-- DISABLED: " ++ agentId ++ NL
          ++ Derived.delegate_section agentId items ++ "-->" ++ NL)
    ++ post.
Proof.
  intros Hid Hn Hname Hne Hitems Hpre Hmid Hpost Hdash.
  unfold ProjectConfigAgents.disableAgentInContent, Derived.agents_doc.
  set (row := Derived.agent_row agentId name).
  set (sect := Derived.delegate_section agentId items).
  set (W1 := "<!-- DISABLED: " ++ agentId ++ NL ++ row ++ NL ++ "-->").
  set (W2 := "<!-- DISABLED: " ++ agentId ++ NL ++ sect ++ "-->" ++ NL).
  assert (ProjectConfigAgents.replace_all (ProjectConfigAgents.wrap_row agentId) 0
            (pre ++ row ++ NL ++ mid ++ sect ++ post)
          = (pre ++ W1 ++ NL ++ mid) ++ sect ++ post) as ->.
  { rewrite (replace_all_free "|" _ pre _ (wrap_row_head agentId))
      by (apply plain_free; [simpl; tauto | exact Hpre]).
    rewrite (replace_all_found _ row _ W1).
    - rewrite (replace_all_id "|" _ _ (wrap_row_head agentId)).
      + now rewrite !string_app_assoc.
      + rewrite !free_app. subst sect.
        rewrite (plain_free "|" mid), (plain_free "|" post),
          (section_free "|" agentId items) by (simpl; tauto || assumption).
        reflexivity.
    - subst row. unfold Derived.agent_row. discriminate.
    - unfold ProjectConfigAgents.wrap_row. subst row.
      rewrite match_row_here; [reflexivity | exact Hn |].
      apply plain_free; [simpl; tauto | exact Hname]. }
  rewrite (replace_all_free "*" _ (pre ++ W1 ++ NL ++ mid) _ (wrap_delegate_head agentId)).
  - rewrite (replace_all_found _ sect _ W2).
    + rewrite (replace_all_id "*" _ _ (wrap_delegate_head agentId))
        by (apply plain_free; [simpl; tauto | exact Hpost]).
      reflexivity.
    + subst sect. unfold Derived.delegate_section. discriminate.
    + unfold ProjectConfigAgents.wrap_delegate. subst sect.
      now rewrite match_delegate_here.
  - subst W1 row. rewrite !free_app.
    rewrite (plain_free "*" pre), (plain_free "*" mid), (plain_free "*" agentId),
      (row_free "*" agentId name) by (simpl; tauto || assumption).
    reflexivity.
Qed.

Lemma enable_doc (agentId name : string) (items : list string) (pre mid post : string) :
  Derived.all Derived.plain agentId = true ->
  Derived.all Derived.plain name = true ->
  Forall (fun i => Derived.item_ok i = true) items ->
  Derived.all Derived.plain pre = true ->
  Derived.all Derived.plain mid = true ->
  Derived.all Derived.plain post = true ->
  ProjectConfigAgents.enableAgentInContent
    (Derived.disabled_doc agentId name items pre mid post) agentId
  = Derived.agents_doc agentId name items pre mid post.
Proof.
  intros Hid Hname Hitems Hpre Hmid Hpost.
  unfold ProjectConfigAgents.enableAgentInContent, Derived.disabled_doc, Derived.agents_doc.
  set (row := Derived.agent_row agentId name).
  set (sect := Derived.delegate_section agentId items).
  set (op := "<!-- DISABLED: " ++ agentId ++ NL).
  assert (pre ++ ("<!-- DISABLED: " ++ agentId ++ NL ++ row ++ NL ++ "-->") ++ NL ++ mid
            ++ ("<!-- DISABLED: " ++ agentId ++ NL ++ sect ++ "-->" ++ NL) ++ post
          = pre ++ (op ++ (row ++ NL) ++ "-->" ++ NL)
              ++ mid ++ (op ++ sect ++ "-->" ++ NL) ++ post) as ->.
  { subst op. now rewrite !string_app_assoc. }
  rewrite (replace_all_free "<" _ pre _ (unwrap_head agentId))
    by (apply plain_free; [simpl; tauto | exact Hpre]).
  rewrite (replace_all_found _ (op ++ (row ++ NL) ++ "-->" ++ NL) _ (row ++ NL)).
  - rewrite (replace_all_free "<" _ mid _ (unwrap_head agentId))
      by (apply plain_free; [simpl; tauto | exact Hmid]).
    rewrite (replace_all_found _ (op ++ sect ++ "-->" ++ NL) _ sect).
    + rewrite (replace_all_id "<" _ _ (unwrap_head agentId))
        by (apply plain_free; [simpl; tauto | exact Hpost]).
      now rewrite !string_app_assoc.
    + subst op. discriminate.
    + subst op sect. apply unwrap_here.
      apply section_free; [simpl; tauto | assumption..].
  - subst op. discriminate.
  - subst op row. apply unwrap_here. rewrite free_app.
    rewrite (row_free ">" agentId name) by (simpl; tauto || assumption). reflexivity.
Qed.

Lemma enabled_in_doc (agentId name : string) (items : list string) (pre mid post : string) :
  Derived.all Derived.plain agentId = true ->
  Derived.all Derived.plain name = true ->
  Forall (fun i => Derived.item_ok i = true) items ->
  Derived.all Derived.plain pre = true ->
  Derived.all Derived.plain mid = true ->
  Derived.all Derived.plain post = true ->
  ProjectConfigManager.agent_enabled
    (Derived.agents_doc agentId name items pre mid post) agentId = true.
Proof.
  intros Hid Hname Hitems Hpre Hmid Hpost.
  unfold ProjectConfigManager.agent_enabled.
  rewrite strip_disabled_none.
  - unfold Derived.agents_doc, Derived.agent_row.
    assert (pre ++ ("| " ++ name ++ " | `" ++ agentId ++ "` |") ++ NL ++ mid
              ++ Derived.delegate_section agentId items ++ post
            = (pre ++ "| " ++ name ++ " | ") ++ ("`" ++ agentId ++ "`")
                ++ " |" ++ NL ++ mid ++ Derived.delegate_section agentId items ++ post)
      as -> by now rewrite !string_app_assoc.
    apply includes_mid.
  - apply (includes_free "<"). unfold Derived.agents_doc. rewrite !free_app.
    rewrite (plain_free "<" pre), (plain_free "<" mid), (plain_free "<" post),
      (row_free "<" agentId name), (section_free "<" agentId items)
      by (simpl; tauto || assumption).
    reflexivity.
Qed.

Lemma disabled_in_doc (agentId name : string) (items : list string) (pre mid post : string) :
  Derived.all Derived.plain agentId = true ->
  Derived.all Derived.plain name = true ->
  Forall (fun i => Derived.item_ok i = true) items ->
  Derived.all Derived.plain pre = true ->
  Derived.all Derived.plain mid = true ->
  Derived.all Derived.plain post = true ->
  ProjectConfigManager.agent_enabled
    (Derived.disabled_doc agentId name items pre mid post) agentId = false.
Proof.
  intros Hid Hname Hitems Hpre Hmid Hpost.
  unfold ProjectConfigManager.agent_enabled.
  set (D := Derived.disabled_doc agentId name items pre mid post).
  set (row := Derived.agent_row agentId name).
  set (sect := Derived.delegate_section agentId items).
  set (op' := "!-- DISABLED: " ++ agentId).
  change ("<!-- DISABLED: " ++ agentId) with (String "<" op').
  assert (D = pre ++ String "<" op' ++ (NL ++ row ++ NL) ++ "-->"
                ++ (NL ++ mid) ++ String "<" op' ++ (NL ++ sect) ++ "-->"
                ++ (NL ++ post)) as E.
  { subst D op' row sect. unfold Derived.disabled_doc.
    change (String "<" ("!-- DISABLED: " ++ agentId)) with ("<!-- DISABLED: " ++ agentId).
    now rewrite !string_app_assoc. }
  assert (exists f, S (String.length D)
                    = String.length pre + S (String.length (NL ++ mid) + S f)) as [f ->].
  { exists (String.length D - String.length pre - String.length (NL ++ mid) - 1).
    rewrite E, !string_app_length. simpl. lia. }
  rewrite E.
  rewrite strip_free by (apply plain_free; [simpl; tauto | exact Hpre]).
  rewrite strip_found.
  2:{ rewrite !free_app. subst row.
      rewrite (row_free ">" agentId name) by (simpl; tauto || assumption). reflexivity. }
  rewrite strip_free.
  2:{ rewrite free_app, (plain_free "<" mid) by (simpl; tauto || assumption). reflexivity. }
  rewrite strip_found.
  2:{ rewrite free_app. subst sect.
      rewrite (section_free ">" agentId items) by (simpl; tauto || assumption).
      reflexivity. }
  rewrite strip_disabled_none.
  2:{ apply (includes_free "<"). rewrite free_app, (plain_free "<" post)
        by (simpl; tauto || assumption). reflexivity. }
  apply (includes_free "`"). rewrite !free_app.
  rewrite (plain_free "`" pre), (plain_free "`" mid), (plain_free "`" post)
    by (simpl; tauto || assumption).
  reflexivity.
Qed.

(** X27.  Switching an agent off and on again.  In a [CLAUDE.md] that names the
    agent in one row of the table and in one section of its own, with
    plain text around them, the agent counts as enabled; disabling it puts
    the row and the section in comments, after which it no longer counts
    as enabled; and enabling it then gives the document back as it
    was. *)
Theorem toggle_round_trip (agentId name : string) (items : list string)
  (pre mid post : string) :
  In agentId ProjectConfigManager.ALL_AGENT_IDS ->
  name <> "" -> Derived.all Derived.plain name = true ->
  items <> [] -> Forall (fun i => Derived.item_ok i = true) items ->
  Derived.all Derived.plain pre = true ->
  Derived.all Derived.plain mid = true ->
  Derived.all Derived.plain post = true ->
  String.prefix "- " post = false ->
  ProjectConfigManager.agent_enabled
    (Derived.agents_doc agentId name items pre mid post) agentId = true
  /\ ProjectConfigAgents.disableAgentInContent
       (Derived.agents_doc agentId name items pre mid post) agentId
     = Derived.disabled_doc agentId name items pre mid post
  /\ ProjectConfigManager.agent_enabled
       (Derived.disabled_doc agentId name items pre mid post) agentId = false
  /\ ProjectConfigAgents.enableAgentInContent
       (Derived.disabled_doc agentId name items pre mid post) agentId
     = Derived.agents_doc agentId name items pre mid post.
Proof.
  intros Hin Hn Hname Hne Hitems Hpre Hmid Hpost Hdash.
  pose proof (agent_id_plain agentId Hin) as Hid.
  split; [now apply enabled_in_doc|].
  split; [|split; [now apply disabled_in_doc | now apply enable_doc]].
  rewrite disable_doc by assumption.
  unfold Derived.disabled_doc. now rewrite !string_app_assoc.
Qed.

Lemma toggle_round_trip_witness :
  ProjectConfigManager.agent_enabled Scenario.ux_claude_md "qol-ux-expert" = true
  /\ ProjectConfigAgents.disableAgentInContent Scenario.ux_claude_md "qol-ux-expert"
     = Derived.disabled_doc "qol-ux-expert" "UX polish" Scenario.ux_items
         ("# Agents" ++ NL ++ NL) NL (NL ++ "Ask when in doubt." ++ NL)
  /\ ProjectConfigManager.agent_enabled
       (Derived.disabled_doc "qol-ux-expert" "UX polish" Scenario.ux_items
          ("# Agents" ++ NL ++ NL) NL (NL ++ "Ask when in doubt." ++ NL))
       "qol-ux-expert" = false
  /\ ProjectConfigAgents.enableAgentInContent
       (Derived.disabled_doc "qol-ux-expert" "UX polish" Scenario.ux_items
          ("# Agents" ++ NL ++ NL) NL (NL ++ "Ask when in doubt." ++ NL))
       "qol-ux-expert"
     = Scenario.ux_claude_md.
Proof.
  apply (toggle_round_trip "qol-ux-expert" "UX polish" Scenario.ux_items
           ("# Agents" ++ NL ++ NL) NL (NL ++ "Ask when in doubt." ++ NL)).
  - simpl. tauto.
  - discriminate.
  - reflexivity.
  - discriminate.
  - repeat constructor.
  - reflexivity.
  - reflexivity.
  - reflexivity.
  - reflexivity.
Defined.

Lemma replace_all_none (m : string -> option (string * nat)) (s : string) :
  (forall x y, s = x ++ y -> m y = None) ->
  ProjectConfigAgents.replace_all m 0 s = s.
Proof.
  induction s as [|c s IH]; intros H; [reflexivity|].
  cbn [ProjectConfigAgents.replace_all]. rewrite (H "" (String c s) eq_refl).
  rewrite IH; [reflexivity|]. intros x y ->. now apply (H (String c x) y).
Qed.

Lemma prefix_split (n s : string) :
  String.prefix n s = true -> s = n ++ Text.drop (String.length n) s.
Proof.
  revert s. induction n as [|a n IH]; intros s H; [now destruct s|].
  destruct s as [|b s]; [discriminate|].
  cbn [String.prefix] in H. destruct (ascii_dec a b) as [<-|]; [|discriminate].
  change (String a n ++ Text.drop (String.length (String a n)) (String a s))
    with (String a (n ++ Text.drop (String.length n) s)).
  now rewrite <- IH.
Qed.

Lemma prefix_mentions (a n b s : string) :
  String.prefix (a ++ n ++ b) s = true -> Text.includes n s = true.
Proof.
  intros H. rewrite (prefix_split _ _ H), !string_app_assoc. apply includes_mid.
Qed.

Lemma wrap_row_mentions (agentId s : string) :
  ProjectConfigAgents.wrap_row agentId s <> None ->
  Text.includes ("`" ++ agentId ++ "`") s = true.
Proof.
  unfold ProjectConfigAgents.wrap_row, ProjectConfigAgents.match_row.
  destruct (String.prefix "| " s) eqn:P; [|congruence].
  rewrite (prefix_split _ _ P) at 2.
  change (String.length "| ") with 2 in *.
  destruct (span_spec (fun c => negb (Ascii.eqb c "|")) (Text.drop 2 s)) as (E & _).
  destruct (Text.span _ (Text.drop 2 s)) as [run rest]. cbn [fst snd] in E.
  destruct (String.prefix ("| `" ++ agentId ++ "` |") rest) eqn:T;
    [|rewrite andb_false_r; congruence].
  intros _. rewrite E. apply includes_app_l, includes_app_l.
  apply (prefix_mentions "| " _ " |"). rewrite !string_app_assoc. exact T.
Qed.

Lemma wrap_delegate_mentions (agentId s : string) :
  ProjectConfigAgents.wrap_delegate agentId s <> None ->
  Text.includes ("`" ++ agentId ++ "`") s = true.
Proof.
  unfold ProjectConfigAgents.wrap_delegate, ProjectConfigAgents.match_delegate.
  destruct (String.prefix _ s) eqn:P; [|congruence].
  intros _. apply (prefix_mentions "**Delegate to " _ (" when:**" ++ NL)).
  rewrite !string_app_assoc. exact P.
Qed.

Lemma unwrap_mentions (agentId s : string) :
  ProjectConfigAgents.unwrap agentId s <> None ->
  Text.includes ("<!-- DISABLED: " ++ agentId ++ NL) s = true.
Proof.
  unfold ProjectConfigAgents.unwrap.
  destruct (String.prefix _ s) eqn:P; [|congruence].
  intros _. now apply prefix_includes.
Qed.

Lemma includes_suffix (n x y : string) :
  Text.includes n (x ++ y) = false -> Text.includes n y = false.
Proof.
  intros H. destruct (Text.includes n y) eqn:E; [|reflexivity].
  now rewrite (includes_app_l n x y E) in H.
Qed.

(** X28.  Nothing is changed in a document that has nothing to change: one
    that does not hold the agent's id between backquotes is left as it
    is when the agent is disabled, and one that holds no comment opened
    for the agent is left as it is when the agent is enabled. *)
Theorem toggle_unchanged (agentId content : string) :
  (Text.includes ("`" ++ agentId ++ "`") content = false ->
   ProjectConfigAgents.disableAgentInContent content agentId = content)
  /\ (Text.includes ("<!-- DISABLED: " ++ agentId ++ NL) content = false ->
      ProjectConfigAgents.enableAgentInContent content agentId = content).
Proof.
  split; intros H.
  - unfold ProjectConfigAgents.disableAgentInContent.
    rewrite (replace_all_none (ProjectConfigAgents.wrap_row agentId)).
    + apply replace_all_none. intros x y ->. apply includes_suffix in H.
      destruct (ProjectConfigAgents.wrap_delegate agentId y) eqn:E; [|reflexivity].
      rewrite wrap_delegate_mentions in H; [discriminate | now rewrite E].
    + intros x y ->. apply includes_suffix in H.
      destruct (ProjectConfigAgents.wrap_row agentId y) eqn:E; [|reflexivity].
      rewrite wrap_row_mentions in H; [discriminate | now rewrite E].
  - apply replace_all_none. intros x y ->. apply includes_suffix in H.
    destruct (ProjectConfigAgents.unwrap agentId y) eqn:E; [|reflexivity].
    rewrite unwrap_mentions in H; [discriminate | now rewrite E].
Qed.

(** X29.  [toggleAgent] and the files.  No file but [CLAUDE.md] is changed;
    for an agent that is not known, and where [CLAUDE.md] cannot be read,
    the call throws and changes nothing, so it never creates the file;
    and when it answers, [CLAUDE.md] had been there, it now holds what
    the replacing made of it, and the answer is the enabled agents as
    they are parsed from that. *)
Theorem toggle_and_files (agentId : string) (enabled : bool) (fs : Fs.t)
  (m : ProjectConfigManager.t) :
  (forall p, p <> Path.join (ProjectConfigManager.projectPath m) "CLAUDE.md" ->
     Fs.files (snd (fst (ProjectConfigAgents.toggleAgent agentId enabled fs m))) !! p
     = Fs.files fs !! p)
  /\ (~ In agentId ProjectConfigManager.ALL_AGENT_IDS
      \/ Fs.readFile (Path.join (ProjectConfigManager.projectPath m) "CLAUDE.md") fs = None ->
      exists e, ProjectConfigAgents.toggleAgent agentId enabled fs m
                = (ProjectConfigAgents.Throws e, fs, m))
  /\ (forall l fs' m',
      ProjectConfigAgents.toggleAgent agentId enabled fs m
      = (ProjectConfigAgents.Agents l, fs', m') ->
      In agentId ProjectConfigManager.ALL_AGENT_IDS
      /\ exists content,
           Fs.readFile (Path.join (ProjectConfigManager.projectPath m) "CLAUDE.md") fs
           = Some content
           /\ Fs.readFile (Path.join (ProjectConfigManager.projectPath m) "CLAUDE.md") fs'
              = Some (if enabled
                      then ProjectConfigAgents.enableAgentInContent content agentId
                      else ProjectConfigAgents.disableAgentInContent content agentId)
           /\ l = ProjectConfigManager.parseEnabledAgents fs' m').
Proof.
  unfold ProjectConfigAgents.toggleAgent, ProjectConfigManager.readFile.
  change (ProjectConfigManager.invalid "CLAUDE.md") with false. cbv iota.
  destruct (decide (agentId ∈ ProjectConfigManager.ALL_AGENT_IDS)) as [Hin|Hin].
  - rewrite (bool_decide_eq_true_2 _ Hin). cbn [negb].
    apply list_elem_of_In in Hin.
    destruct (Fs.readFile _ fs) as [content|] eqn:R.
    + set (content' := if enabled then _ else _).
      split; [|split].
      * intros p Hp.
        pose proof (writeFile_others "CLAUDE.md" content' fs m p Hp) as W.
        destruct (ProjectConfigManager.writeFile "CLAUDE.md" content' fs m)
          as [[[[]|e] fs'] m']; exact W.
      * intros [N|N]; [contradiction | discriminate].
      * intros l fs' m' H.
        destruct (ProjectConfigManager.writeFile "CLAUDE.md" content' fs m)
          as [[[[]|e] fs1] m1] eqn:W; [|discriminate].
        injection H as <- <- <-.
        destruct (writeFile_resolved _ _ _ _ _ _ W) as (R' & _ & ->).
        split; [exact Hin|]. exists content.
        split; [reflexivity|]. split; [exact R'|]. reflexivity.
    + split; [reflexivity|]. split; [eauto | discriminate].
  - rewrite (bool_decide_eq_false_2 _ Hin). cbn [negb].
    split; [reflexivity|]. split; [eauto | discriminate].
Qed.

(** The two lemmas at work on a store: the agent is switched off, which
    leaves no agent enabled, and on again, which gives the file back. *)
Example toggle_off_and_on :
  let m := ProjectConfigManager.create "/srv/project" in
  let off := ProjectConfigAgents.toggleAgent "qol-ux-expert" false Scenario.ux_project m in
  let on := ProjectConfigAgents.toggleAgent "qol-ux-expert" true (snd (fst off)) (snd off) in
  fst (fst off) = ProjectConfigAgents.Agents []
  /\ fst (fst on) = ProjectConfigAgents.Agents ["qol-ux-expert"]
  /\ Fs.files (snd (fst on)) = Fs.files Scenario.ux_project.
Proof. vm_compute. repeat split. Qed.

End Toggle.

(** ** The two surfaces *)

Section Surfaces.

(** X30.  What is asked over the request/response surface is done as when an
    observer asks it over a socket.  A start and a stop do the same to the
    server and send the same to the sockets, and are then answered with
    success, whatever came of them; a document is read with the same
    content; a write leaves the same store; and the status answered is
    the one a new socket is greeted with. *)
Theorem surfaces_agree (s : Server.t) (w : nat) :
  Server.has_client w s = true ->
  (forall o,
     Server.step s (Server.Http (Server.PostLoopStart o))
     = (fst (Server.step s (Server.WsMessage w (Some (Server.LoopStart o)))),
        (snd (Server.step s (Server.WsMessage w (Some (Server.LoopStart o))))
           ++ [Server.Respond 200 Server.SuccessBody])%list))
  /\ Server.step s (Server.Http Server.PostLoopStop)
     = (fst (Server.step s (Server.WsMessage w (Some Server.LoopStop))),
        (snd (Server.step s (Server.WsMessage w (Some Server.LoopStop)))
           ++ [Server.Respond 200 Server.SuccessBody])%list)
  /\ (forall file content,
        snd (Server.step s (Server.Http (Server.GetConfig file)))
        = [Server.Respond 200 (Server.ContentBody content)]
        <-> snd (Server.step s (Server.WsMessage w (Some (Server.ConfigRead file))))
            = [Server.Send w (Server.ConfigContentMsg file content)])
  /\ (forall file content,
        fst (Server.step s (Server.Http (Server.PostConfig file content)))
        = fst (Server.step s (Server.WsMessage w (Some (Server.ConfigWrite file content)))))
  /\ (exists l t g c,
        Server.step s (Server.Http Server.GetStatus)
        = (s, [Server.Respond 200 (Server.StatusBody l t g c)])
        /\ Server.sent_to (Server.accepted s) (snd (Server.step s Server.Connection))
           = [Server.LoopStatusMsg l; Server.TasksUpdateMsg t;
              Server.GitUpdateMsg g; Server.ConfigUpdateMsg c]).
Proof.
  intros Hw. cbn [Server.step]. rewrite Hw.
  cbn [Server.on_request Server.on_message].
  split; [|split; [|split; [|split]]].
  - intros o. now destruct (Server.loop_start o s).
  - now destruct (Server.loop_stop s).
  - intros file content.
    destruct (ProjectConfigManager.readFile file (Server.fs s) (Server.projectConfig s));
      cbn [snd]; split; intros [=]; subst; reflexivity.
  - intros file content.
    now destruct (ProjectConfigManager.writeFile file content (Server.fs s)
                    (Server.projectConfig s)) as [[[[]|e] f] m].
  - do 4 eexists. split; [reflexivity|].
    unfold Server.on_connection, Server.sent_to. simpl.
    now rewrite Nat.eqb_refl.
Qed.

Lemma surfaces_agree_witness :
  Server.step Scenario.running (Server.Http Server.PostLoopStop)
  = (fst (Server.step Scenario.running (Server.WsMessage 0 (Some Server.LoopStop))),
     (snd (Server.step Scenario.running (Server.WsMessage 0 (Some Server.LoopStop)))
        ++ [Server.Respond 200 Server.SuccessBody])%list).
Proof.
  apply (surfaces_agree Scenario.running 0). reflexivity.
Defined.

End Surfaces.
